(** * HWAddressSanitizer instrumentation pass: tagging and check generation

    A shallow embedding of
    [llvm/lib/Transforms/Instrumentation/HWAddressSanitizer.cpp].

    Values of the target's pointer-sized integer type ([IntptrTy], 64 bits
    on every architecture the pass supports) are integers in [0, 2^64);
    every builder operation that can leave that range wraps explicitly.
    Bytes ([Int8Ty], [uint8_t]) are integers in [0, 2^8). *)

From Stdlib Require Import ZArith List Bool String Ascii Lia.
Import ListNotations.

Local Open Scope Z_scope.

(* ================================================================== *)
(** ** Machine integers *)

Module Word.

Definition wrap (w z : Z) : Z := z mod 2 ^ w.

Definition wrap64 (z : Z) : Z := wrap 64 z.
Definition wrap32 (z : Z) : Z := wrap 32 z.
Definition wrap8 (z : Z) : Z := wrap 8 z.

(** [IRBuilder::CreateShl] on an i64: bits shifted past bit 63 are lost. *)
Definition shl64 (x n : Z) : Z := wrap64 (Z.shiftl x n).

(** [IRBuilder::CreateLShr] on an i64 in range. *)
Definition lshr64 (x n : Z) : Z := Z.shiftr x n.

(** [IRBuilder::CreateAdd] on an i64 and on an i8. *)
Definition add64 (x y : Z) : Z := wrap64 (x + y).
Definition add8 (x y : Z) : Z := wrap8 (x + y).

(** C++ [~x] on a [uint64_t]. *)
Definition not64 (x : Z) : Z := wrap64 (Z.lnot x).

(** [IRBuilder::CreateTrunc(_, Int8Ty)]. *)
Definition trunc8 (x : Z) : Z := wrap8 x.

(** Sign extension of a 32-bit constant index, as a GEP applies it. *)
Definition signed32 (x : Z) : Z :=
  if wrap32 x <? 2 ^ 31 then wrap32 x else wrap32 x - 2 ^ 32.

(** A value of the pointer-sized integer type. *)
Definition in64 (x : Z) : Prop := 0 <= x < 2 ^ 64.

End Word.
Import Word.

(* ================================================================== *)
(** ** Target description and command-line flags *)

(** The architectures the pass tells apart; [UnknownArch] stands for
    every other one, which no test of the pass singles out. *)
Inductive ArchType : Type :=
| x86_64 | aarch64 | aarch64_be | aarch64_32 | riscv64 | UnknownArch.

Definition ArchType_eqb (a b : ArchType) : bool :=
  match a, b with
  | x86_64, x86_64 | aarch64, aarch64 | aarch64_be, aarch64_be
  | aarch64_32, aarch64_32
  | riscv64, riscv64 | UnknownArch, UnknownArch => true
  | _, _ => false
  end.

(** The facts the pass reads off [llvm::Triple]. *)
Record Triple : Type := mkTriple {
  getArch : ArchType;
  isOSFuchsia : bool;
  isAndroid : bool;
  isAndroidVersionLT30 : bool;
  isOSBinFormatELF : bool
}.

(** [Triple::isAArch64] (llvm/TargetParser/Triple.h, outside the
    sources): little-endian, big-endian and ILP32 AArch64. *)
Definition isAArch64 (T : Triple) : bool :=
  match getArch T with
  | aarch64 | aarch64_be | aarch64_32 => true
  | _ => false
  end.

Definition isRISCV64 (T : Triple) : bool :=
  match getArch T with riscv64 => true | _ => false end.

(** A [cl::opt<A>]: how often it was given on the command line, and its
    current value (the [cl::init] default when never given). *)
Record opt (A : Type) : Type := mkOpt {
  getNumOccurrences : nat;
  getValue : A
}.
Arguments mkOpt {A} _ _.
Arguments getNumOccurrences {A} _.
Arguments getValue {A} _.

Definition given {A : Type} (o : opt A) : bool :=
  negb (Nat.eqb (getNumOccurrences o) 0).

(** [Flag ? Flag : Default], the idiom the pass uses for overridable
    settings. *)
Definition orDefault {A : Type} (o : opt A) (d : A) : A :=
  if given o then getValue o else d.

Inductive RecordStackHistoryMode : Type := none | instr | libcall.

Record Flags : Type := mkFlags {
  ClInstrumentWithCalls : opt bool;
  ClInstrumentReads : opt bool;
  ClInstrumentWrites : opt bool;
  ClInstrumentAtomics : opt bool;
  ClInstrumentByval : opt bool;
  ClInstrumentMemIntrinsics : opt bool;
  ClRecover : opt bool;
  ClInstrumentStack : opt bool;
  ClUseAfterScope : opt bool;
  ClGenerateTagsWithCalls : opt bool;
  ClGlobals : opt bool;
  ClMatchAllTag : opt Z;
  ClEnableKhwasan : opt bool;
  ClMappingOffset : opt Z;
  ClWithIfunc : opt bool;
  ClWithTls : opt bool;
  ClRecordStackHistory : opt RecordStackHistoryMode;
  ClInstrumentLandingPads : opt bool;
  ClUseShortGranules : opt bool;
  ClInstrumentPersonalityFunctions : opt bool;
  ClInlineAllChecks : opt bool;
  ClUsePageAliases : opt bool
}.

(** The [cl::init] values of the source. *)
Definition defaultFlags : Flags := {|
  ClInstrumentWithCalls := mkOpt 0%nat false;
  ClInstrumentReads := mkOpt 0%nat true;
  ClInstrumentWrites := mkOpt 0%nat true;
  ClInstrumentAtomics := mkOpt 0%nat true;
  ClInstrumentByval := mkOpt 0%nat true;
  ClInstrumentMemIntrinsics := mkOpt 0%nat true;
  ClRecover := mkOpt 0%nat false;
  ClInstrumentStack := mkOpt 0%nat true;
  ClUseAfterScope := mkOpt 0%nat false;
  ClGenerateTagsWithCalls := mkOpt 0%nat false;
  ClGlobals := mkOpt 0%nat false;
  ClMatchAllTag := mkOpt 0%nat (-1);
  ClEnableKhwasan := mkOpt 0%nat false;
  ClMappingOffset := mkOpt 0%nat 0;
  ClWithIfunc := mkOpt 0%nat false;
  ClWithTls := mkOpt 0%nat true;
  ClRecordStackHistory := mkOpt 0%nat instr;
  ClInstrumentLandingPads := mkOpt 0%nat false;
  ClUseShortGranules := mkOpt 0%nat false;
  ClInstrumentPersonalityFunctions := mkOpt 0%nat false;
  ClInlineAllChecks := mkOpt 0%nat false;
  ClUsePageAliases := mkOpt 0%nat false
|}.

Definition shouldUsePageAliases (Fl : Flags) (T : Triple) : bool :=
  getValue (ClUsePageAliases Fl) && ArchType_eqb (getArch T) x86_64.

Definition shouldInstrumentStack (Fl : Flags) (T : Triple) : bool :=
  negb (shouldUsePageAliases Fl T) && getValue (ClInstrumentStack Fl).

Definition shouldInstrumentWithCalls (Fl : Flags) (T : Triple) : bool :=
  orDefault (ClInstrumentWithCalls Fl) (ArchType_eqb (getArch T) x86_64).

Definition shouldDetectUseAfterScope (Fl : Flags) (T : Triple) : bool :=
  getValue (ClUseAfterScope Fl) && shouldInstrumentStack Fl T.

(* ================================================================== *)
(** ** Shadow mapping *)

Definition kDefaultShadowScale : Z := 4.
Definition kDynamicShadowSentinel : Z := 2 ^ 64 - 1.

(** [shadow = (mem >> Scale) + Offset]. *)
Record ShadowMapping : Type := mkMapping {
  Scale : Z;
  Offset : Z;
  InGlobal : bool;
  InTls : bool;
  WithFrameRecord : bool
}.

(** [ShadowMapping::getObjectAlignment]: [1ULL << Scale]. *)
Definition getObjectAlignment (M : ShadowMapping) : Z :=
  wrap64 (Z.shiftl 1 (Scale M)).

(** [ShadowMapping::init]. *)
Definition ShadowMapping_init (Fl : Flags) (T : Triple)
           (InstrumentWithCalls : bool) : ShadowMapping :=
  if isOSFuchsia T then
    mkMapping kDefaultShadowScale 0 false false true
  else if given (ClMappingOffset Fl) then
    mkMapping kDefaultShadowScale (wrap64 (getValue (ClMappingOffset Fl)))
              false false false
  else if getValue (ClEnableKhwasan Fl) || InstrumentWithCalls then
    mkMapping kDefaultShadowScale 0 false false false
  else if getValue (ClWithIfunc Fl) then
    mkMapping kDefaultShadowScale kDynamicShadowSentinel true false false
  else if getValue (ClWithTls Fl) then
    mkMapping kDefaultShadowScale kDynamicShadowSentinel false true true
  else
    mkMapping kDefaultShadowScale kDynamicShadowSentinel false false false.

(** The addressing modes a mapping can describe, each read off the fields
    the rest of the pass branches on ([getShadowNonTls], [emitPrologue]). *)
Inductive AddressingMode : Type :=
| FixedOffset      (* Offset is a number, used as it is *)
| IfuncGlobal      (* shadow base is the address of __hwasan_shadow *)
| TlsSlot          (* shadow base is derived from the thread-local slot *)
| DynamicGlobal.   (* shadow base is loaded from
                      __hwasan_shadow_memory_dynamic_address *)

Definition isFixedOffset (M : ShadowMapping) : bool :=
  negb (Offset M =? kDynamicShadowSentinel) && negb (InGlobal M)
  && negb (InTls M).

Definition isIfuncGlobal (M : ShadowMapping) : bool :=
  (Offset M =? kDynamicShadowSentinel) && InGlobal M && negb (InTls M).

Definition isTlsSlot (M : ShadowMapping) : bool :=
  (Offset M =? kDynamicShadowSentinel) && negb (InGlobal M) && InTls M.

Definition isDynamicGlobal (M : ShadowMapping) : bool :=
  (Offset M =? kDynamicShadowSentinel) && negb (InGlobal M)
  && negb (InTls M).

Definition inMode (M : ShadowMapping) (m : AddressingMode) : bool :=
  match m with
  | FixedOffset => isFixedOffset M
  | IfuncGlobal => isIfuncGlobal M
  | TlsSlot => isTlsSlot M
  | DynamicGlobal => isDynamicGlobal M
  end.

(* ================================================================== *)
(** ** Per-module settings ([HWAddressSanitizer::initializeModule]) *)

Record Settings : Type := mkSettings {
  TargetTriple : Triple;
  CompileKernel : bool;
  Recover : bool;
  OutlinedChecks : bool;
  UseShortGranules : bool;
  InstrumentLandingPads : bool;
  InstrumentWithCalls : bool;
  InstrumentStack : bool;
  DetectUseAfterScope : bool;
  UsePageAliases : bool;
  UseMatchAllCallback : bool;
  MatchAllTag : option Z;
  PointerTagShift : Z;
  TagMaskByte : Z;
  Mapping : ShadowMapping
}.

Definition isX86_64 (T : Triple) : bool := ArchType_eqb (getArch T) x86_64.

Definition pointerTagShiftFor (IsX86_64 : bool) : Z :=
  if IsX86_64 then 57 else 56.

Definition tagMaskByteFor (IsX86_64 : bool) : Z :=
  if IsX86_64 then 0x3F else 0xFF.

(** The constructor's choice of [Recover] and [CompileKernel], followed by
    the assignments of [initializeModule]. *)
Definition initializeModule (Fl : Flags) (T : Triple)
           (CompileKernelArg RecoverArg : bool) : Settings :=
  let Recover := orDefault (ClRecover Fl) RecoverArg in
  let CompileKernel := orDefault (ClEnableKhwasan Fl) CompileKernelArg in
  let IsX86_64 := isX86_64 T in
  let InstrumentWithCalls := shouldInstrumentWithCalls Fl T in
  let NewRuntime := negb (isAndroid T) || negb (isAndroidVersionLT30 T) in
  let MatchAllTag :=
    if given (ClMatchAllTag Fl) then
      (if getValue (ClMatchAllTag Fl) =? -1 then None
       else Some (Z.land (getValue (ClMatchAllTag Fl)) 0xFF))
    else if CompileKernel then Some 0xFF
    else None in
  {| TargetTriple := T;
     CompileKernel := CompileKernel;
     Recover := Recover;
     OutlinedChecks :=
       (isAArch64 T || isRISCV64 T) && isOSBinFormatELF T
       && (if given (ClInlineAllChecks Fl)
           then negb (getValue (ClInlineAllChecks Fl))
           else negb Recover);
     UseShortGranules := orDefault (ClUseShortGranules Fl) NewRuntime;
     InstrumentLandingPads :=
       orDefault (ClInstrumentLandingPads Fl) (negb NewRuntime);
     InstrumentWithCalls := InstrumentWithCalls;
     InstrumentStack := shouldInstrumentStack Fl T;
     DetectUseAfterScope := shouldDetectUseAfterScope Fl T;
     UsePageAliases := shouldUsePageAliases Fl T;
     UseMatchAllCallback :=
       negb CompileKernel
       && match MatchAllTag with Some _ => true | None => false end;
     MatchAllTag := MatchAllTag;
     PointerTagShift := pointerTagShiftFor IsX86_64;
     TagMaskByte := tagMaskByteFor IsX86_64;
     Mapping := ShadowMapping_init Fl T InstrumentWithCalls |}.

(* ================================================================== *)
(** ** Pointer tag codec *)

(** [HWAddressSanitizer::tagPointer]: add a tag to an address. *)
Definition tagPointer (S : Settings) (PtrLong Tag : Z) : Z :=
  if CompileKernel S then
    (* Kernel addresses have 0xFF in the most significant byte. *)
    let ShiftedTag :=
      Z.lor (shl64 Tag (PointerTagShift S))
            (wrap64 (wrap64 (Z.shiftl 1 (PointerTagShift S)) - 1)) in
    Z.land PtrLong ShiftedTag
  else
    (* Userspace can simply do OR (tag << PointerTagShift). *)
    let ShiftedTag := shl64 Tag (PointerTagShift S) in
    Z.lor PtrLong ShiftedTag.

(** [TagMaskByte << PointerTagShift], the bits of the tag field. *)
Definition tagFieldMask (S : Settings) : Z :=
  wrap64 (Z.shiftl (TagMaskByte S) (PointerTagShift S)).

(** [HWAddressSanitizer::untagPointer]: remove the tag from an address. *)
Definition untagPointer (S : Settings) (PtrLong : Z) : Z :=
  if CompileKernel S then
    (* Kernel addresses have 0xFF in the most significant byte. *)
    Z.lor PtrLong (tagFieldMask S)
  else
    (* Userspace addresses have 0x00. *)
    Z.land PtrLong (not64 (tagFieldMask S)).

(** [HWAddressSanitizer::applyTagMask]. *)
Definition applyTagMask (S : Settings) (OldTag : Z) : Z :=
  if TagMaskByte S =? 0xFF then OldTag
  else Z.land OldTag (TagMaskByte S).

(** [HWAddressSanitizer::getUARTag]: the tag field of the stack pointer,
    moved down to bit 0. *)
Definition getUARTag (S : Settings) (StackPointerLong : Z) : Z :=
  applyTagMask S (lshr64 StackPointerLong (PointerTagShift S)).

(** The tag field of any pointer, read the way [getUARTag] reads the
    stack pointer's. *)
Definition pointerTag (S : Settings) (PtrLong : Z) : Z :=
  getUARTag S PtrLong.

(** [HWAddressSanitizer::getStackBaseTag] when no tag was taken from the
    thread slot: bits 20..28 of the stack pointer mixed into bits 0..8. *)
Definition getStackBaseTag (S : Settings) (StackPointerLong : Z) : Z :=
  applyTagMask S (Z.lxor StackPointerLong (lshr64 StackPointerLong 20)).

(** The tag byte the inline check extracts,
    [trunc (PtrLong >> PointerTagShift) to i8]. *)
Definition checkedPointerTag (S : Settings) (PtrLong : Z) : Z :=
  trunc8 (lshr64 PtrLong (PointerTagShift S)).

(* ================================================================== *)
(** ** Stack tagging: retag masks and shadow writes *)

(** A list of 8-bit numbers that have at most one run of non-zero bits;
    255 is left out because it is used for use-after-return. *)
Definition FastMasks : list Z :=
  [0;   128; 64; 192; 32;  96;  224; 112; 240; 48; 16;  120;
   248; 56;  24; 8;   124; 252; 60;  28;  12;  4;  126; 254;
   62;  30;  14; 6;   2;   127; 63;  31;  15;  7;  3;   1].

(** An 8-bit number with at most one run of set bits: [k] ones shifted
    left by [j]. *)
Definition isBitRun (m : Z) : bool :=
  existsb (fun j =>
             existsb (fun k => m =? Z.shiftl (Z.ones (Z.of_nat k)) (Z.of_nat j))
                     (seq 0 9))
          (seq 0 8).

(** [HWAddressSanitizer::retagMask]; [AllocaNo] is an [unsigned]. *)
Definition retagMask (S : Settings) (AllocaNo : Z) : Z :=
  if ArchType_eqb (getArch (TargetTriple S)) x86_64 then
    wrap32 (Z.land AllocaNo (TagMaskByte S))
  else
    nth (Z.to_nat (AllocaNo mod Z.of_nat (List.length FastMasks))) FastMasks 0.

(** [HWAddressSanitizer::getAllocaTag] when tags are not generated by
    runtime calls: [StackTag ^ retagMask(AllocaNo)]. *)
Definition getAllocaTag (S : Settings) (StackTag AllocaNo : Z) : Z :=
  Z.lxor StackTag (wrap64 (retagMask S AllocaNo)).

(** Modelled from the spec: [alignTo] of llvm/Support/Alignment.h, which
    is not among the sources; the granule-aligned size, [ceil(s/g)*g]. *)
Definition alignTo (Size A : Z) : Z :=
  wrap64 ((Size + A - 1) / A * A).

(** What [tagAlloca] emits at its insertion point.  [ShadowPtr] is the
    shadow address of the allocation's first granule and [AI] the
    allocation itself; indexes are the constants the source passes. *)
Inductive TagStore : Type :=
| CallTagMemory (Tag AlignedSize : Z)
    (* call __hwasan_tag_memory(AI, Tag, AlignedSize) *)
| MemSetShadow (Tag ShadowSize : Z)
    (* memset(ShadowPtr, Tag, ShadowSize) *)
| StoreShadow (Val Idx : Z)
    (* store i8 Val, gep i8 ShadowPtr, i32 Idx *)
| StoreObject (Val Idx : Z).
    (* store i8 Val, gep i8 AI, i32 Idx *)

(** [HWAddressSanitizer::tagAlloca]. *)
Definition tagAlloca (S : Settings) (Tag Size : Z) : list TagStore :=
  let AlignedSize := alignTo Size (getObjectAlignment (Mapping S)) in
  let Size := if UseShortGranules S then Size else AlignedSize in
  let Tag := trunc8 Tag in
  if InstrumentWithCalls S then
    [CallTagMemory Tag AlignedSize]
  else
    let ShadowSize := Z.shiftr Size (Scale (Mapping S)) in
    (if ShadowSize =? 0 then [] else [MemSetShadow Tag ShadowSize])
    ++
    (if Size =? AlignedSize then []
     else
       let SizeRemainder :=
         wrap8 (Size mod getObjectAlignment (Mapping S)) in
       [StoreShadow SizeRemainder (wrap32 ShadowSize);
        StoreObject Tag (wrap32 (AlignedSize - 1))]).

(** The memory one allocation's tagging touches: its shadow bytes, indexed
    from [ShadowPtr], and its own bytes, indexed from [AI].  The two
    regions are disjoint. *)
Record AllocaMemory : Type := mkAllocaMemory {
  shadowAt : Z -> Z;
  objectAt : Z -> Z
}.

Definition poke (f : Z -> Z) (k v : Z) : Z -> Z :=
  fun i => if i =? k then v else f i.

Definition fill (f : Z -> Z) (v n : Z) : Z -> Z :=
  fun i => if (0 <=? i) && (i <? n) then v else f i.

Section RunTagStores.

(** The runtime's [__hwasan_tag_memory], outside the pass. *)
Variable tag_memory : Z -> Z -> AllocaMemory -> AllocaMemory.

Definition runTagStore (m : AllocaMemory) (s : TagStore) : AllocaMemory :=
  match s with
  | CallTagMemory Tag AlignedSize => tag_memory Tag AlignedSize m
  | MemSetShadow Tag ShadowSize =>
      mkAllocaMemory (fill (shadowAt m) Tag ShadowSize) (objectAt m)
  | StoreShadow Val Idx =>
      mkAllocaMemory (poke (shadowAt m) (signed32 Idx) Val) (objectAt m)
  | StoreObject Val Idx =>
      mkAllocaMemory (shadowAt m) (poke (objectAt m) (signed32 Idx) Val)
  end.

Definition runTagStores (m : AllocaMemory) (l : list TagStore)
  : AllocaMemory :=
  fold_left runTagStore l m.

End RunTagStores.

(* ================================================================== *)
(** ** Check generation *)

(** [HWAddressSanitizer::memToShadow]: [Mem >> Scale], plus the shadow
    base unless the offset is the constant zero. *)
Definition memToShadow (S : Settings) (ShadowBase Mem : Z) : Z :=
  let Shadow := lshr64 Mem (Scale (Mapping S)) in
  if Offset (Mapping S) =? 0 then Shadow
  else add64 ShadowBase Shadow.

(** The blocks [instrumentMemAccessInline] leaves behind, named after the
    [SplitBlockAndInsertIfThen] call that creates each one. *)
Inductive CheckBlock : Type :=
| Head            (* the original block up to the access: tag comparison *)
| ShortRange      (* then-block of TagMismatch *)
| LowBits         (* tail of the OutOfShortGranuleTagRange split *)
| InlineTagLoad   (* tail of the PtrLowBitsOOB split *)
| CheckTerm       (* tail of the InlineTagMismatch split: br to the access *)
| CheckFail       (* then-block shared by the three inner splits: the trap *)
| Access.         (* the block that starts with the instrumented access *)

Inductive Terminator : Type :=
| CondBr (Cond : bool) (IfTrue IfFalse : CheckBlock)
| Br (Dest : CheckBlock)
| Unreachable
| Fallthrough.    (* the access itself: the check is over *)

(** The run-time inputs of one check: the pointer and the byte memory the
    two loads read. *)
Record CheckInput : Type := mkCheckInput {
  PtrLong : Z;
  ShadowBase : Z;
  load8 : Z -> Z
}.

(** Generated check code: the terminator of each block, with the condition
    values the block computes from the run-time inputs. *)
Definition InlineCheckCode : Type := CheckInput -> CheckBlock -> Terminator.

(** The architectures the trap-sequence [switch] has a case for. *)
Definition hasTrapSequence (a : ArchType) : bool :=
  match a with
  | x86_64 | aarch64 | aarch64_be | riscv64 => true
  | aarch64_32 | UnknownArch => false
  end.

(** [HWAddressSanitizer::instrumentMemAccessInline]: the blocks it
    generates; [None] is [report_fatal_error("unsupported architecture")].
    The assertion [!UsePageAliases] at its entry says nothing about the
    blocks and is checked where [instrumentMemAccess] calls it. *)
Definition instrumentMemAccessInline (S : Settings) (AccessSizeIndex : Z)
  : option InlineCheckCode :=
  if hasTrapSequence (getArch (TargetTriple S)) then
    Some (fun E B =>
      let PtrTag := trunc8 (lshr64 (PtrLong E) (PointerTagShift S)) in
      let AddrLong := untagPointer S (PtrLong E) in
      let Shadow := memToShadow S (ShadowBase E) AddrLong in
      let MemTag := load8 E Shadow in
      match B with
      | Head =>
          let TagMismatch := negb (PtrTag =? MemTag) in
          let TagMismatch :=
            match MatchAllTag S with
            | Some m => TagMismatch && negb (PtrTag =? m)
            | None => TagMismatch
            end in
          CondBr TagMismatch ShortRange Access
      | ShortRange =>
          let OutOfShortGranuleTagRange := 15 <? MemTag in
          CondBr OutOfShortGranuleTagRange CheckFail LowBits
      | LowBits =>
          let PtrLowBits := trunc8 (Z.land (PtrLong E) 15) in
          let PtrLowBits :=
            add8 PtrLowBits (wrap8 (Z.shiftl 1 AccessSizeIndex - 1)) in
          let PtrLowBitsOOB := MemTag <=? PtrLowBits in
          CondBr PtrLowBitsOOB CheckFail InlineTagLoad
      | InlineTagLoad =>
          let InlineTagAddr := Z.lor AddrLong 15 in
          let InlineTag := load8 E InlineTagAddr in
          let InlineTagMismatch := negb (PtrTag =? InlineTag) in
          CondBr InlineTagMismatch CheckFail CheckTerm
      | CheckTerm => Br Access
      | CheckFail =>
          (* the trap call, then unreachable unless recovering *)
          if Recover S then Br CheckTerm else Unreachable
      | Access => Fallthrough
      end)
  else None.

(** Whether a block holds the trap sequence. *)
Definition traps (B : CheckBlock) : bool :=
  match B with CheckFail => true | _ => false end.

Inductive CheckResult : Type :=
| ReachesAccess (Trapped : bool)   (* the access executes *)
| Aborts.                          (* trap, and control never returns *)

(** Running generated blocks from [B]; [Trapped] records whether the trap
    sequence has executed. *)
Fixpoint runCheck (fuel : nat) (code : CheckBlock -> Terminator)
         (B : CheckBlock) (Trapped : bool) : option CheckResult :=
  match fuel with
  | O => None
  | Datatypes.S fuel' =>
      let Trapped := Trapped || traps B in
      match code B with
      | CondBr c t f => runCheck fuel' code (if c then t else f) Trapped
      | Br d => runCheck fuel' code d Trapped
      | Unreachable => Some Aborts
      | Fallthrough => Some (ReachesAccess Trapped)
      end
  end.

(** The check as it runs before one access.  No path through the seven
    blocks is longer than seven steps. *)
Definition inlineCheck (S : Settings) (AccessSizeIndex : Z) (E : CheckInput)
  : option CheckResult :=
  match instrumentMemAccessInline S AccessSizeIndex with
  | Some code => runCheck 7 (code E) Head false
  | None => None
  end.

(** The check faulted: the trap sequence ran. *)
Definition faults (r : option CheckResult) : bool :=
  match r with
  | Some Aborts => true
  | Some (ReachesAccess Trapped) => Trapped
  | None => false
  end.

(** SSA values are identified by number. *)
Definition Value : Type := Z.

(** [InterestingMemoryOperand]: the access's instruction is the one the
    operand is attached to in [Inst] below. *)
Record InterestingMemoryOperand : Type := mkOperand {
  IsWrite : bool;
  TypeStoreSize : Z;          (* in bits; the known minimum if scalable *)
  isScalable : bool;
  Alignment : option Z;
  MaybeMask : option Value;
  getPtr : Value
}.

(** What the pass inserts in front of an instruction. *)
Inductive Emit : Type :=
| CallMemoryAccessCallback
    (IsWrite : bool) (AccessSizeIndex : Z) (Addr : Value)
    (MatchAll : option Z)
| CallMemoryAccessCallbackSized
    (IsWrite : bool) (Addr : Value) (TypeStoreSize : Z) (SizeDivisor : Z)
    (MatchAll : option Z)
| CheckMemAccessOutline
    (ShortGranules : bool) (Addr : Value) (IsWrite : bool)
    (AccessSizeIndex : Z)
| CheckMemAccessInline
    (Addr : Value) (IsWrite : bool) (AccessSizeIndex : Z)
| CallMemTransfer (IsMove : bool) (MatchAll : option Z)
| CallMemSet (MatchAll : option Z)
| CallHandleVfork
| Prologue (WithFrameRecord : bool).

Definition kNumberOfAccessSizes : Z := 5.

(** [llvm::countr_zero] on a [uint32_t] (llvm/ADT/bit.h, outside the
    sources): the number of trailing zero bits, 32 for zero. *)
Fixpoint countr_zero_pos (p : positive) : Z :=
  match p with
  | xO p' => 1 + countr_zero_pos p'
  | _ => 0
  end.

Definition countr_zero (x : Z) : Z :=
  match wrap32 x with
  | Zpos p => countr_zero_pos p
  | _ => 32
  end.

(** [llvm::isPowerOf2_64] (llvm/Support/MathExtras.h, outside the
    sources). *)
Definition isPowerOf2_64 (x : Z) : bool :=
  (0 <? x) && (Z.land x (x - 1) =? 0).

Definition TypeSizeToSizeIndex (TypeSize : Z) : Z :=
  countr_zero (TypeSize / 8).

(** The opcodes [getPointerOperandIndex] knows; anything else is
    [report_fatal_error("Unexpected instruction")]. *)
Inductive Opcode : Type :=
| Load | Store | AtomicRMW | AtomicCmpXchg
| Call | MemTransfer (IsMove : bool) | MemSet
| LandingPad | Alloca | Ret | Other.

Definition getPointerOperandIndex (Op : Opcode) : option nat :=
  match Op with
  | Load => Some 0%nat
  | Store => Some 1%nat
  | AtomicRMW => Some 0%nat
  | AtomicCmpXchg => Some 0%nat
  | _ => None
  end.

(** [HWAddressSanitizer::untagPointerOperand]: [Some false] when the
    target ignores tag bits and the operand stays, [Some true] when the
    pointer operand is replaced by its untagged form, [None] on the fatal
    error. *)
Definition untagPointerOperand (S : Settings) (Op : Opcode) : option bool :=
  if isAArch64 (TargetTriple S) || isX86_64 (TargetTriple S)
     || isRISCV64 (TargetTriple S)
  then Some false
  else match getPointerOperandIndex Op with
       | Some _ => Some true
       | None => None
       end.

(** The outcome of [instrumentMemAccess] for one operand. *)
Record AccessInstrumentation : Type := mkAccessInstrumentation {
  Instrumented : bool;          (* the function's return value *)
  Inserted : list Emit;         (* emitted in front of the access *)
  PointerUntagged : bool        (* the pointer operand was rewritten *)
}.

(** [HWAddressSanitizer::instrumentMemAccess]; [None] is a fatal error
    raised on the way, or an assertion of a callee failing: that of
    [TypeSizeToSizeIndex] on the index, or [!UsePageAliases], which
    [instrumentMemAccessOutline] and [instrumentMemAccessInline] start
    with. *)
Definition instrumentMemAccess (S : Settings) (Op : Opcode)
           (O : InterestingMemoryOperand) : option AccessInstrumentation :=
  let Addr := getPtr O in
  match MaybeMask O with
  | Some _ => Some (mkAccessInstrumentation false [] false) (* FIXME *)
  | None =>
      let MatchAll :=
        if UseMatchAllCallback S then MatchAllTag S else None in
      let check : option (list Emit) :=
        if negb (isScalable O) && isPowerOf2_64 (TypeStoreSize O)
           && (TypeStoreSize O / 8
               <=? Z.shiftl 1 (kNumberOfAccessSizes - 1))
           && match Alignment O with
              | None => true
              | Some A =>
                  (getObjectAlignment (Mapping S) <=? A)
                  || (TypeStoreSize O / 8 <=? A)
              end
        then
          let AccessSizeIndex := TypeSizeToSizeIndex (TypeStoreSize O) in
          if negb (AccessSizeIndex <? kNumberOfAccessSizes) then None
          else if InstrumentWithCalls S then
            Some [CallMemoryAccessCallback (IsWrite O) AccessSizeIndex Addr
                                           MatchAll]
          else if OutlinedChecks S then
            if UsePageAliases S then None
            else Some [CheckMemAccessOutline (UseShortGranules S) Addr
                                             (IsWrite O) AccessSizeIndex]
          else
            if UsePageAliases S then None
            else
              match instrumentMemAccessInline S AccessSizeIndex with
              | Some _ =>
                  Some [CheckMemAccessInline Addr (IsWrite O) AccessSizeIndex]
              | None => None
              end
        else
          Some [CallMemoryAccessCallbackSized (IsWrite O) Addr
                                              (TypeStoreSize O) 8 MatchAll]
      in
      match check, untagPointerOperand S Op with
      | Some code, Some untag =>
          Some (mkAccessInstrumentation true code untag)
      | _, _ => None
      end
  end.

(* ================================================================== *)
(** ** The function prologue *)

(** An i64 read as a signed number. *)
Definition signed64 (x : Z) : Z :=
  if wrap64 x <? 2 ^ 63 then wrap64 x else wrap64 x - 2 ^ 64.

(** [IRBuilder::CreateAShr] on an i64. *)
Definition ashr64 (x n : Z) : Z := wrap64 (Z.shiftr (signed64 x) n).

(** [IRBuilder::CreateShl] with [HasNUW] and [HasNSW] set: [None] is the
    poison value that results when the shift loses bits of the unsigned
    or of the signed reading. *)
Definition shl64_nuw_nsw (x n : Z) : option Z :=
  if (Z.shiftl (wrap64 x) n <? 2 ^ 64)
     && (- 2 ^ 63 <=? Z.shiftl (signed64 x) n)
     && (Z.shiftl (signed64 x) n <? 2 ^ 63)
  then Some (shl64 x n) else None.

Definition kShadowBaseAlignment : Z := 32.

(** What [getHwasanThreadSlotPtr] can return: the sanitizer slot of
    Bionic at offset 0x30 of the thread pointer, or the thread-local
    global [__hwasan_tls]. *)
Inductive ThreadSlot : Type :=
| BionicSanitizerSlot
| HwasanTls.

(** [ThreadPtrGlobal] as [initializeModule] leaves it: set unless the
    target is Android. *)
Definition ThreadPtrGlobal (S : Settings) : option ThreadSlot :=
  if negb (isAndroid (TargetTriple S)) then Some HwasanTls else None.

(** [HWAddressSanitizer::getHwasanThreadSlotPtr]; [None] is [nullptr]. *)
Definition getHwasanThreadSlotPtr (S : Settings) : option ThreadSlot :=
  if isAArch64 (TargetTriple S) && isAndroid (TargetTriple S)
  then Some BionicSanitizerSlot
  else ThreadPtrGlobal S.

(** The values [ShadowBase] can take in a function. *)
Inductive ShadowBaseValue : Type :=
| ShadowConstant (Base : Z)       (* the constant [Mapping.Offset] *)
| ShadowIfuncGlobal               (* the address of [__hwasan_shadow] *)
| ShadowDynamicAddress            (* loaded from the runtime's variable *)
| ShadowAboveThreadLong.          (* computed from the thread slot *)

(** [HWAddressSanitizer::getShadowNonTls]. *)
Definition getShadowNonTls (S : Settings) : ShadowBaseValue :=
  if negb (Offset (Mapping S) =? kDynamicShadowSentinel)
  then ShadowConstant (Offset (Mapping S))
  else if InGlobal (Mapping S) then ShadowIfuncGlobal
  else ShadowDynamicAddress.

(** How the prologue records the frame. *)
Inductive FrameRecording : Type :=
| NoFrameRecord
| RecordFrameLibcall        (* a call of [__hwasan_add_frame_record] *)
| RecordFrameInline.        (* a store into the ring buffer *)

(** What [emitPrologue] emits: how the frame is recorded, the slot that
    [ThreadLong] is loaded through if it is loaded ([Some None] is a load
    through [nullptr]), and the shadow base of the function. *)
Record PrologueCode : Type := mkPrologueCode {
  Recording : FrameRecording;
  ThreadLongLoad : option (option ThreadSlot);
  PrologueShadowBase : ShadowBaseValue
}.

(** [HWAddressSanitizer::emitPrologue]; [None] is the [llvm_unreachable]
    of the mode [none]. *)
Definition emitPrologue (Fl : Flags) (S : Settings) (WithFrameRecord : bool)
  : option PrologueCode :=
  let ShadowBase : option ShadowBaseValue :=
    if negb (InTls (Mapping S)) then Some (getShadowNonTls S)
    else if negb WithFrameRecord && isAndroid (TargetTriple S)
         then Some ShadowIfuncGlobal
         else None in
  match WithFrameRecord, ShadowBase with
  | false, Some Base => Some (mkPrologueCode NoFrameRecord None Base)
  | _, _ =>
      let recording : option (FrameRecording * option (option ThreadSlot)) :=
        if WithFrameRecord then
          match getValue (ClRecordStackHistory Fl) with
          | libcall => Some (RecordFrameLibcall, None)
          | instr =>
              Some (RecordFrameInline, Some (getHwasanThreadSlotPtr S))
          | none => None
          end
        else Some (NoFrameRecord, None) in
      match recording with
      | None => None
      | Some (How, Loaded) =>
          match ShadowBase with
          | Some Base => Some (mkPrologueCode How Loaded Base)
          | None =>
              Some (mkPrologueCode
                      How
                      (match Loaded with
                       | Some Slot => Some Slot
                       | None => Some (getHwasanThreadSlotPtr S)
                       end)
                      ShadowAboveThreadLong)
          end
      end
  end.

Definition isNone (m : RecordStackHistoryMode) : bool :=
  match m with none => true | _ => false end.

(** The [WithFrameRecord] argument [sanitizeFunction] passes. *)
Definition prologueWithFrameRecord (Fl : Flags) (S : Settings)
           (Allocas : list Z) : bool :=
  negb (isNone (getValue (ClRecordStackHistory Fl)))
  && WithFrameRecord (Mapping S)
  && match Allocas with [] => false | _ => true end.

(** *** What the emitted prologue computes *)

(** [HWAddressSanitizer::getFrameRecordInfo], from the values of the
    program counter and of the stack pointer. *)
Definition getFrameRecordInfo (PC SP : Z) : Z :=
  let SP := shl64 SP 44 in
  Z.lor PC SP.

(** The lambda [getThreadLongMaybeUntagged] of [emitPrologue]. *)
Definition ThreadLongMaybeUntagged (S : Settings) (ThreadLong : Z) : Z :=
  if isAArch64 (TargetTriple S) then ThreadLong
  else untagPointer S ThreadLong.

(** [StackBaseTag] as the inline frame record sets it. *)
Definition threadStackBaseTag (ThreadLong : Z) : Z := ashr64 ThreadLong 3.

(** [WrapMask] and [ThreadLongNew] of the inline frame record. *)
Definition WrapMask (ThreadLong : Z) : option Z :=
  match shl64_nuw_nsw (ashr64 ThreadLong 56) 12 with
  | Some Shifted => Some (Z.lxor Shifted (2 ^ 64 - 1))
  | None => None
  end.

Definition ThreadLongNew (ThreadLong : Z) : option Z :=
  match WrapMask ThreadLong with
  | Some Mask => Some (Z.land (add64 ThreadLong 8) Mask)
  | None => None
  end.

(** The shadow base computed from the thread slot. *)
Definition shadowAboveThreadLong (S : Settings) (ThreadLong : Z) : Z :=
  add64 (Z.lor (ThreadLongMaybeUntagged S ThreadLong)
               (wrap64 (Z.shiftl 1 kShadowBaseAlignment) - 1))
        1.

(* ================================================================== *)
(** ** Functions and per-function processing *)

(** What [ignoreAccess] asks about a pointer. *)
Record PointerFacts : Type := mkPointerFacts {
  PtrValue : Value;
  getPointerAddressSpace : Z;
  isSwiftError : bool;
  findAllocaForValue : bool
}.

(** A memory reference of an instruction: the pointer operand of a load,
    store, atomicrmw or cmpxchg with the accessed type; an argument of a
    call; destination and source of a memory intrinsic. *)
Record MemRef : Type := mkMemRef {
  Ptr : PointerFacts;
  TypeBits : Z;
  TypeScalable : bool;
  getAlign : Z;
  isByValArgument : bool
}.

Record Inst : Type := mkInst {
  Op : Opcode;
  Refs : list MemRef;
  hasNoSanitizeMetadata : bool;
  stackAccessIsSafe : bool
}.

(** One entry of a function body. *)
Inductive Item : Type :=
| Orig (Insn : Inst)            (* an instruction of the program *)
| OrigUntagged (Insn : Inst)    (* the same, its pointer operand untagged *)
| Ins (E : Emit).            (* inserted by the pass *)

Record Function : Type := mkFunction {
  FnName : string;
  SanitizeHWAddress : bool;
  NoUnwind : bool;
  isDeclaration : bool;
  getPersonalityFn : option string;
  Body : list Item
}.

Definition kHwasanModuleCtorName : string := "hwasan.module_ctor".
Definition kHwasanPersonalityThunkName : string :=
  "__hwasan_personality_thunk".

Section SanitizeFunction.

Variable Fl : Flags.
Variable S : Settings.

(** [HwasanCtorFunction], by name; [None] is [nullptr]. *)
Variable HwasanCtorFunction : option string.

(** Whether stack-safety results are at hand ([SSI != nullptr]). *)
Variable SSI : bool.

(** The sizes of the allocations [memtag::StackInfoBuilder] collects, and
    the rewriting [instrumentStack] performs with them; both rest on the
    lifetime, dominance and reachability helpers of [memtag], which are
    not among the sources. *)
Variable AllocasToInstrument : Function -> list Z.
Variable instrumentStack : list Z -> list Item -> list Item.

(** [HWAddressSanitizer::ignoreAccess]. *)
Definition ignoreAccess (Insn : Inst) (P : PointerFacts) : bool :=
  if negb (getPointerAddressSpace P =? 0) then true
  else if isSwiftError P then true
  else if findAllocaForValue P then
    if negb (InstrumentStack S) then true
    else if SSI && stackAccessIsSafe Insn then true
    else false
  else false.

Definition operandOf (IsWrite : bool) (Align : option Z) (R : MemRef)
  : InterestingMemoryOperand :=
  mkOperand IsWrite (TypeBits R) (TypeScalable R) Align None
            (PtrValue (Ptr R)).

(** [HWAddressSanitizer::getInterestingMemoryOperands].  [ShadowBase] is
    null while operands are collected, so that test never fires. *)
Definition getInterestingMemoryOperands (Insn : Inst)
  : list InterestingMemoryOperand :=
  if hasNoSanitizeMetadata Insn then []
  else
    match Op Insn, Refs Insn with
    | Load, R :: _ =>
        if negb (getValue (ClInstrumentReads Fl)) || ignoreAccess Insn (Ptr R)
        then [] else [operandOf false (Some (getAlign R)) R]
    | Store, R :: _ =>
        if negb (getValue (ClInstrumentWrites Fl)) || ignoreAccess Insn (Ptr R)
        then [] else [operandOf true (Some (getAlign R)) R]
    | AtomicRMW, R :: _ | AtomicCmpXchg, R :: _ =>
        if negb (getValue (ClInstrumentAtomics Fl))
           || ignoreAccess Insn (Ptr R)
        then [] else [operandOf true None R]
    | Call, Args =>
        flat_map
          (fun R =>
             if negb (getValue (ClInstrumentByval Fl))
                || negb (isByValArgument R) || ignoreAccess Insn (Ptr R)
             then [] else [operandOf false (Some 1) R])
          Args
    | _, _ => []
    end.

(** [HWAddressSanitizer::ignoreMemIntrinsic]. *)
Definition ignoreMemIntrinsic (Insn : Inst) : bool :=
  match Op Insn, Refs Insn with
  | MemTransfer _, Dest :: Source :: _ =>
      (negb (getValue (ClInstrumentWrites Fl)) || ignoreAccess Insn (Ptr Dest))
      && (negb (getValue (ClInstrumentReads Fl))
          || ignoreAccess Insn (Ptr Source))
  | MemSet, Dest :: _ =>
      negb (getValue (ClInstrumentWrites Fl)) || ignoreAccess Insn (Ptr Dest)
  | _, _ => false
  end.

Definition isMemIntrinsic (Insn : Inst) : bool :=
  match Op Insn with MemTransfer _ | MemSet => true | _ => false end.

(** [HWAddressSanitizer::instrumentMemIntrinsic]: the call that takes
    the intrinsic's place. *)
Definition instrumentMemIntrinsic (Insn : Inst) : list Item :=
  let MatchAll :=
    if UseMatchAllCallback S then MatchAllTag S else None in
  match Op Insn with
  | MemTransfer IsMove => [Ins (CallMemTransfer IsMove MatchAll)]
  | MemSet => [Ins (CallMemSet MatchAll)]
  | _ => []
  end.

Definition OperandsToInstrument (B : list Item)
  : list InterestingMemoryOperand :=
  flat_map (fun it => match it with
                      | Orig Insn | OrigUntagged Insn =>
                          getInterestingMemoryOperands Insn
                      | Ins _ => []
                      end) B.

Definition IntrinToInstrument (B : list Item) : list Inst :=
  flat_map (fun it => match it with
                      | Orig Insn | OrigUntagged Insn =>
                          if isMemIntrinsic Insn && negb (ignoreMemIntrinsic Insn)
                          then [Insn] else []
                      | Ins _ => []
                      end) B.

(** [HWAddressSanitizer::instrumentLandingPads], for the landing pads
    collected when [InstrumentLandingPads] is set. *)
Definition instrumentLandingPads (B : list Item) : list Item :=
  flat_map (fun it =>
              match it with
              | Orig Insn | OrigUntagged Insn =>
                  match Op Insn with
                  | LandingPad =>
                      if InstrumentLandingPads S
                      then [it; Ins CallHandleVfork] else [it]
                  | _ => [it]
                  end
              | Ins _ => [it]
              end) B.

(** The checks of every operand of one instruction, in front of it, and
    the instruction with its pointer operand rewritten where the target
    asks for it; a memory intrinsic gives way to its runtime call. *)
Definition instrumentInst (it : Item) (Insn : Inst) : option (list Item) :=
  let results :=
    map (instrumentMemAccess S (Op Insn)) (getInterestingMemoryOperands Insn) in
  if forallb (fun r => match r with Some _ => true | None => false end)
             results
  then
    let done := flat_map (fun r => match r with
                                   | Some a => [a]
                                   | None => []
                                   end) results in
    let checks := flat_map (fun a => map Ins (Inserted a)) done in
    let untagged := existsb PointerUntagged done in
    let self :=
      if isMemIntrinsic Insn && negb (ignoreMemIntrinsic Insn)
         && getValue (ClInstrumentMemIntrinsics Fl)
      then instrumentMemIntrinsic Insn
      else if untagged then [OrigUntagged Insn] else [it] in
    Some (checks ++ self)
  else None.

Fixpoint instrumentItems (B : list Item) : option (list Item) :=
  match B with
  | [] => Some []
  | it :: rest =>
      let here :=
        match it with
        | Orig Insn | OrigUntagged Insn => instrumentInst it Insn
        | Ins _ => Some [it]
        end in
      match here, instrumentItems rest with
      | Some l, Some r => Some (l ++ r)
      | _, _ => None
      end
  end.

(** The prologue loads [ThreadLong] through a null slot pointer. *)
Definition loadsThroughNull (Code : PrologueCode) : bool :=
  match ThreadLongLoad Code with
  | Some None => true
  | _ => false
  end.

(** The prologue untags the thread word, which it does with
    [untagPointer] on every target but AArch64, while page aliases are
    in use: the assertion [!UsePageAliases] of [untagPointer] fails. *)
Definition untagsWithPageAliases (Code : PrologueCode) : bool :=
  UsePageAliases S && negb (isAArch64 (TargetTriple S))
  && match ThreadLongLoad Code with
     | Some _ => true
     | None => false
     end.

(** [HWAddressSanitizer::sanitizeFunction]; [None] is a fatal error, a
    failed assertion (those of the accesses, and that of [untagPointer]
    in the prologue), or a prologue that cannot be built because its
    load has no slot pointer.  The operands and intrinsics instrumented
    are those collected from the body before [instrumentStack] rewrites
    it; the prologue stays in the body as the marker [Prologue]. *)
Definition sanitizeFunction (F : Function) : option Function :=
  if match HwasanCtorFunction with
     | Some Ctor => String.eqb (FnName F) Ctor
     | None => false
     end
  then Some F
  else if negb (SanitizeHWAddress F) then Some F
  else
    let Allocas :=
      if InstrumentStack S then AllocasToInstrument F else [] in
    let Operands := OperandsToInstrument (Body F) in
    let Intrins := IntrinToInstrument (Body F) in
    let B1 := instrumentLandingPads (Body F) in
    let Personality :=
      match Allocas, getPersonalityFn F with
      | [], Some P =>
          if String.eqb P kHwasanPersonalityThunkName then None
          else Some P
      | _, P => P
      end in
    match Allocas, Operands, Intrins with
    | [], [], [] =>
        Some (mkFunction (FnName F) (SanitizeHWAddress F) (NoUnwind F)
                         (isDeclaration F) Personality B1)
    | _, _, _ =>
        let WithFrameRecord := prologueWithFrameRecord Fl S Allocas in
        match emitPrologue Fl S WithFrameRecord with
        | None => None
        | Some Code =>
            if loadsThroughNull Code || untagsWithPageAliases Code then None
            else
              let B2 := Ins (Prologue WithFrameRecord) :: B1 in
              match instrumentItems B2 with
              | Some B3 =>
                  let B4 := match Allocas with
                            | [] => B3
                            | _ => instrumentStack Allocas B3
                            end in
                  Some (mkFunction (FnName F) (SanitizeHWAddress F)
                                   (NoUnwind F) (isDeclaration F)
                                   Personality B4)
              | None => None
              end
        end
    end.

End SanitizeFunction.

(** What keeps [instrumentMemAccess] clear of every failure of its own
    and of its callees: a target whose loads and stores ignore tag bits,
    and checks that are calls, or, with page aliases off, outlined checks
    or an architecture with a trap sequence. *)
Definition checksSupported (S : Settings) : Prop :=
  isAArch64 (TargetTriple S) || isX86_64 (TargetTriple S)
  || isRISCV64 (TargetTriple S) = true
  /\ (InstrumentWithCalls S = true
      \/ (UsePageAliases S = false
          /\ (OutlinedChecks S = true
              \/ hasTrapSequence (getArch (TargetTriple S)) = true))).

(* ================================================================== *)
(** ** Personality thunks *)

(** The group a function joins in [instrumentPersonalityFunctions]:
    [None] when it is skipped, [Some P] with its personality routine (or
    none) otherwise. *)
Definition personalityGroup (F : Function) : option (option string) :=
  if isDeclaration F || negb (SanitizeHWAddress F) then None
  else match getPersonalityFn F with
       | Some P => Some (Some P)
       | None => if negb (NoUnwind F) then Some None else None
       end.

Definition ThunkName (P : option string) : string :=
  match P with
  | Some Name => kHwasanPersonalityThunkName ++ "." ++ Name
  | None => kHwasanPersonalityThunkName
  end.

Definition sameGroup (P Q : option string) : bool :=
  match P, Q with
  | Some p, Some q => String.eqb p q
  | None, None => true
  | _, _ => false
  end.

(** The keys of the [MapVector], in order of first insertion. *)
Fixpoint PersonalityFns (Fs : list Function) (seen : list (option string))
  : list (option string) :=
  match Fs with
  | [] => []
  | F :: rest =>
      match personalityGroup F with
      | Some P =>
          if existsb (sameGroup P) seen then PersonalityFns rest seen
          else P :: PersonalityFns rest (P :: seen)
      | None => PersonalityFns rest seen
      end
  end.

(** The thunk synthesized for one group: a tail call to
    [__hwasan_personality_wrapper] and a return. *)
Inductive ThunkBody : Type :=
| TailCallPersonalityWrapper (Original : option string).

Record Thunk : Type := mkThunk {
  ThunkFn : string;
  ThunkCode : ThunkBody
}.

(** [HWAddressSanitizer::instrumentPersonalityFunctions]: the functions
    of the module afterwards, and the thunks created. *)
Definition instrumentPersonalityFunctions (Fs : list Function)
  : list Function * list Thunk :=
  (map (fun F =>
          match personalityGroup F with
          | Some P =>
              mkFunction (FnName F) (SanitizeHWAddress F) (NoUnwind F)
                         (isDeclaration F) (Some (ThunkName P)) (Body F)
          | None => F
          end) Fs,
   map (fun P => mkThunk (ThunkName P) (TailCallPersonalityWrapper P))
       (PersonalityFns Fs [])).

(* ================================================================== *)
(** ** Globals *)

Inductive LinkageTypes : Type :=
| ExternalLinkage | AvailableExternallyLinkage | LinkOnceODRLinkage
| InternalLinkage | PrivateLinkage | CommonLinkage | AppendingLinkage
| OtherLinkage.

(** An initializer: plain bytes; a descriptor record
    [{ i32 trunc (Global - Descriptor + DescriptorPos),
       i32 size | tag << 24 }], whose first field is a constant
    expression over the addresses of the global and of the record itself
    with the 64-bit addend [DescriptorPos]; the anonymous struct of an
    initializer and its padding; or an array of pointers to globals. *)
Inductive Constant : Type :=
| Bytes (Init : list Z)
| Descriptor (Global : string) (DescriptorPos : Z) (SizeAndTag : Z)
| Padded (Initializer : Constant) (Padding : list Z)
| PointerArray (Elements : list string).

Fixpoint getTypeAllocSize (C : Constant) : Z :=
  match C with
  | Bytes Init => Z.of_nat (List.length Init)
  | Descriptor _ _ _ => 8
  | Padded Initializer Padding =>
      getTypeAllocSize Initializer + Z.of_nat (List.length Padding)
  | PointerArray Elements => 8 * Z.of_nat (List.length Elements)
  end.

Record GlobalVariable : Type := mkGlobalVariable {
  getName : string;
  getInitializer : option Constant;      (* [None]: a declaration *)
  getLinkage : LinkageTypes;
  isThreadLocal : bool;
  getSection : option string;
  NoHWAddress : bool;    (* sanitizer metadata present and NoHWAddress *)
  getAlignment : option Z;
  isConstant : bool;
  getAssociated : option string          (* !associated metadata *)
}.

Record GlobalAlias : Type := mkGlobalAlias {
  AliasName : string;
  Aliasee : string;          (* the storage object *)
  AliaseeOffset : Z;         (* added to its address: tag << shift *)
  AliasLinkage : LinkageTypes
}.

Record Module : Type := mkModule {
  getSourceFileName : string;
  globals : list GlobalVariable;
  aliases : list GlobalAlias
}.

(** [GlobalValue::isDeclarationForLinker] (llvm/IR/GlobalValue.h, outside
    the sources): available-externally definitions count as
    declarations. *)
Definition isDeclarationForLinker (GV : GlobalVariable) : bool :=
  match getLinkage GV, getInitializer GV with
  | AvailableExternallyLinkage, _ => true
  | _, None => true
  | _, Some _ => false
  end.

Definition hasCommonLinkage (GV : GlobalVariable) : bool :=
  match getLinkage GV with CommonLinkage => true | _ => false end.

Definition hasSection (GV : GlobalVariable) : bool :=
  match getSection GV with Some _ => true | None => false end.

(** The filter of the first loop of [instrumentGlobals]: [true] when the
    global is pushed onto [Globals]. *)
Definition selectedForTagging (GV : GlobalVariable) : bool :=
  if NoHWAddress GV then false
  else if isDeclarationForLinker GV || String.prefix "llvm." (getName GV)
          || isThreadLocal GV then false
  else if hasCommonLinkage GV then false
  else if hasSection GV then false
  else true.

Definition MaxDescriptorSize : Z := 0xfffff0.

(** The descriptor loop of [instrumentGlobal]: one record per
    [MaxDescriptorSize] bytes, from [DescriptorPos] on.  A record holds
    the 64-bit addend [DescriptorPos] of its relative address; the value
    of that field, truncated to 32 bits, is [GVRelPtr] below. *)
Fixpoint descriptorsFrom (fuel : nat) (Name : string)
         (SizeInBytes Tag DescriptorPos : Z) : list GlobalVariable :=
  match fuel with
  | O => []
  | Datatypes.S fuel' =>
      if DescriptorPos <? SizeInBytes then
        let Size :=
          wrap32 (Z.min (SizeInBytes - DescriptorPos) MaxDescriptorSize) in
        let SizeAndTag := wrap32 (Z.lor Size (wrap32 (Z.shiftl Tag 24))) in
        mkGlobalVariable
          (Name ++ ".hwasan.descriptor")
          (Some (Descriptor (Name ++ ".hwasan") DescriptorPos SizeAndTag))
          PrivateLinkage false (Some "hwasan_globals"%string) false None true
          (Some (Name ++ ".hwasan")%string)
        :: descriptorsFrom fuel' Name SizeInBytes Tag
             (wrap64 (DescriptorPos + MaxDescriptorSize))
      else []
  end.

(** What [instrumentGlobal] creates in the place of one global. *)
Record TaggedGlobal : Type := mkTaggedGlobal {
  NewGV : GlobalVariable;                (* the renamed storage object *)
  Descriptors : list GlobalVariable;
  Alias : GlobalAlias                    (* takes the original's name *)
}.

(** [HWAddressSanitizer::instrumentGlobal]: the objects it creates; how
    they enter the module is [createGlobals] below.  Its assertion
    [!UsePageAliases] is the test under which [initializeModule] calls
    [instrumentGlobals].  [copyAttributesFrom] (llvm/IR/Globals.cpp,
    outside the sources) carries the original's thread-local mode,
    section and sanitizer metadata over to the storage object; linkage
    and alignment are set afterwards. *)
Definition instrumentGlobal (S : Settings) (GV : GlobalVariable) (Tag : Z)
  : TaggedGlobal :=
  let SizeInBytes := match getInitializer GV with
                     | Some C => getTypeAllocSize C
                     | None => 0
                     end in
  let NewSize := alignTo SizeInBytes (getObjectAlignment (Mapping S)) in
  let Initializer :=
    match getInitializer GV with
    | Some C =>
        if SizeInBytes =? NewSize then Some C
        else
          (* Pad the initializer out to the next multiple of 16 bytes and
             add the required short granule tag. *)
          Some (Padded C
                  (repeat 0 (Z.to_nat (NewSize - SizeInBytes) - 1)%nat
                   ++ [Tag]))
    | None => None
    end in
  let Storage :=
    mkGlobalVariable
      (getName GV ++ ".hwasan") Initializer PrivateLinkage
      (isThreadLocal GV) (getSection GV) (NoHWAddress GV)
      (Some (Z.max (match getAlignment GV with Some A => A | None => 1 end)
                   (getObjectAlignment (Mapping S))))
      (isConstant GV) (getAssociated GV) in
  mkTaggedGlobal
    Storage
    (descriptorsFrom (Z.to_nat (SizeInBytes / MaxDescriptorSize + 1))
                     (getName GV) SizeInBytes Tag 0)
    (mkGlobalAlias (getName GV) (getName GV ++ ".hwasan")
                   (wrap64 (Z.shiftl Tag (PointerTagShift S)))
                   (getLinkage GV)).

(** A tag the loop of [instrumentGlobals] keeps as it is. *)
Definition inGlobalTagRange (S : Settings) (Tag : Z) : bool :=
  negb ((Tag <? 16) || (TagMaskByte S <? Tag)).

(** The second loop of [instrumentGlobals]: the tag each selected global
    is instrumented with.  [Tag] is a [uint8_t]. *)
Fixpoint assignTags (S : Settings) (Tag : Z) (Globals : list GlobalVariable)
  : list (GlobalVariable * Z) :=
  match Globals with
  | [] => []
  | GV :: rest =>
      (* Don't allow globals to be tagged with something that looks like
         a short-granule tag. *)
      let Tag := if (Tag <? 16) || (TagMaskByte S <? Tag) then 16 else Tag in
      (GV, Tag) :: assignTags S (wrap8 (Tag + 1)) rest
  end.

(** The name of the variable that lists what the compiler must keep. *)
Definition kCompilerUsed : string := "llvm.compiler.used".

Definition isCompilerUsed (GV : GlobalVariable) : bool :=
  String.eqb (getName GV) kCompilerUsed.

Section InstrumentGlobals.

(** [llvm::MD5], outside the pass: the 16 bytes of the digest. *)
Variable MD5 : string -> list Z.

(** [appendToCompilerUsed] (llvm/Transforms/Utils/ModuleUtils.h, outside
    the sources), as it acts on the module's list of global variables
    when one of them is entered in [llvm.compiler.used]. *)
Variable appendToCompilerUsed
  : list GlobalVariable -> GlobalVariable -> list GlobalVariable.

(** [uint8_t Tag = Hash[0]]. *)
Definition firstTag (M : Module) : Z :=
  wrap8 (nth 0 (MD5 (getSourceFileName M)) 0).

Definition tagsOfGlobals (S : Settings) (M : Module)
  : list (GlobalVariable * Z) :=
  assignTags S (firstTag M) (filter selectedForTagging (globals M)).

(** The global variables of the module after one [instrumentGlobal]:
    the storage object joins the end of the list, then each descriptor
    does and is entered in [llvm.compiler.used] at once. *)
Definition createGlobals (Gs : list GlobalVariable) (T : TaggedGlobal)
  : list GlobalVariable :=
  fold_left (fun Gs D => appendToCompilerUsed (Gs ++ [D]) D)
            (Descriptors T) (Gs ++ [NewGV T]).

(** [HWAddressSanitizer::instrumentGlobals]: the selected globals are
    erased, the objects created for them join the global list in
    creation order, and their aliases the alias list.  Each original is
    erased at the end of its [instrumentGlobal]; [appendToCompilerUsed]
    looks in the list for [llvm.compiler.used] only, which is never
    selected, so the originals are taken out at once here. *)
Definition instrumentGlobals (S : Settings) (M : Module) : Module :=
  let Tagged :=
    map (fun GT => instrumentGlobal S (fst GT) (snd GT))
        (tagsOfGlobals S M) in
  mkModule
    (getSourceFileName M)
    (fold_left createGlobals Tagged
               (filter (fun GV => negb (selectedForTagging GV)) (globals M)))
    (aliases M ++ map Alias Tagged).

End InstrumentGlobals.

(** What the pass relies on when it calls [appendToCompilerUsed]: every
    global variable other than [llvm.compiler.used] stays where it is. *)
Definition keepsOtherGlobals
           (appendToCompilerUsed
              : list GlobalVariable -> GlobalVariable -> list GlobalVariable)
  : Prop :=
  forall Gs D,
    filter (fun GV => negb (isCompilerUsed GV)) (appendToCompilerUsed Gs D)
    = filter (fun GV => negb (isCompilerUsed GV)) Gs.

(* ================================================================== *)
(** ** Reading descriptors back *)

(** The fields of a descriptor as the consumer of the [hwasan_globals]
    section finds them: bytes 0-3 the relative address of the piece
    described, bytes 4-6 its size, byte 7 the tag. *)
Definition descriptorGlobal (D : GlobalVariable) : option string :=
  match getInitializer D with
  | Some (Descriptor Global _ _) => Some Global
  | _ => None
  end.

(** The value of bytes 0-3 once the global is placed at [NewGVAddr] and
    the record at [DescriptorAddr]:
    [trunc (NewGV - Descriptor + DescriptorPos) to i32]. *)
Definition GVRelPtr (NewGVAddr DescriptorAddr : Z) (D : GlobalVariable) : Z :=
  match getInitializer D with
  | Some (Descriptor _ DescriptorPos _) =>
      wrap32 (add64 (wrap64 (NewGVAddr - DescriptorAddr)) DescriptorPos)
  | _ => 0
  end.

(** The address a reader of the record arrives at: the record's own
    address plus the relative address, a signed 32-bit number. *)
Definition describedAddress (NewGVAddr DescriptorAddr : Z)
           (D : GlobalVariable) : Z :=
  DescriptorAddr + signed32 (GVRelPtr NewGVAddr DescriptorAddr D).

Definition descriptorSize (D : GlobalVariable) : Z :=
  match getInitializer D with
  | Some (Descriptor _ _ SizeAndTag) => SizeAndTag mod 2 ^ 24
  | _ => 0
  end.

Definition descriptorTag (D : GlobalVariable) : Z :=
  match getInitializer D with
  | Some (Descriptor _ _ SizeAndTag) => SizeAndTag / 2 ^ 24
  | _ => 0
  end.

(** The records [Ds], placed at the addresses [Addrs], describe the
    bytes [Start] up to [Stop] of the global at [NewGVAddr] piece by
    piece, without gap or overlap. *)
Fixpoint describes (NewGVAddr : Z) (Ds : list GlobalVariable)
         (Addrs : list Z) (Start Stop : Z) : Prop :=
  match Ds, Addrs with
  | [], [] => Start = Stop
  | D :: rest, DescriptorAddr :: Addrs' =>
      describedAddress NewGVAddr DescriptorAddr D = NewGVAddr + Start
      /\ 0 < descriptorSize D <= MaxDescriptorSize
      /\ describes NewGVAddr rest Addrs' (Start + descriptorSize D) Stop
  | _, _ => False
  end.

(* ================================================================== *)
(** ** The program inside an instrumented body *)

(** The instructions of the program in a body, in order, without what the
    pass inserted and without regard to untagged pointer operands. *)
Definition programInsts (B : list Item) : list Inst :=
  flat_map (fun it => match it with
                      | Orig Insn | OrigUntagged Insn => [Insn]
                      | Ins _ => []
                      end) B.

(** Every memory reference of the body is to a type whose store size is
    a whole number of bytes, as [DataLayout::getTypeStoreSizeInBits]
    (outside the sources) gives it. *)
Definition wholeByteItem (it : Item) : Prop :=
  match it with
  | Orig Insn | OrigUntagged Insn =>
      Forall (fun R => TypeBits R mod 8 = 0) (Refs Insn)
  | Ins _ => True
  end.

Definition wholeByteAccesses (B : list Item) : Prop :=
  Forall wholeByteItem B.

(* ================================================================== *)
(** ** Sample targets *)

(** Memory that is zero everywhere, and a runtime whose
    [__hwasan_tag_memory] is left out of the picture. *)
Definition zeroMemory : AllocaMemory :=
  mkAllocaMemory (fun _ => 0) (fun _ => 0).

Definition noRuntime : Z -> Z -> AllocaMemory -> AllocaMemory :=
  fun _ _ m => m.

(** [appendToCompilerUsed] the way llvm/Transforms/Utils/ModuleUtils.cpp
    (outside the sources) does it: the variable [llvm.compiler.used] is
    erased and created anew at the end of the list, in section
    [llvm.metadata], with the new entry after the old ones unless it is
    among them. *)
Definition usedEntries (Gs : list GlobalVariable) : list string :=
  match find isCompilerUsed Gs with
  | Some GV =>
      match getInitializer GV with
      | Some (PointerArray Elements) => Elements
      | _ => []
      end
  | None => []
  end.

Definition appendToUsedList (Gs : list GlobalVariable) (D : GlobalVariable)
  : list GlobalVariable :=
  let Init := usedEntries Gs in
  let Init := if existsb (String.eqb (getName D)) Init then Init
              else Init ++ [getName D] in
  filter (fun GV => negb (isCompilerUsed GV)) Gs
  ++ [mkGlobalVariable kCompilerUsed (Some (PointerArray Init))
                       AppendingLinkage false (Some "llvm.metadata"%string)
                       false None false None].

(** The bytes of one allocation by address: the allocation itself at
    [AI], its shadow at [ShadowPtr]. *)
Definition allocaBytes (AI AlignedSize ShadowPtr : Z) (m : AllocaMemory)
  : Z -> Z :=
  fun a => if (AI <=? a) && (a <? AI + AlignedSize)
           then objectAt m (a - AI)
           else shadowAt m (a - ShadowPtr).

Definition linux_x86_64 : Triple := mkTriple x86_64 false false false true.
Definition linux_aarch64 : Triple := mkTriple aarch64 false false false true.

(** A two-byte access at offset 3 of a granule whose shadow byte says
    that only 4 bytes are addressable. *)
Definition shortGranuleAccess : CheckInput :=
  mkCheckInput 0x2A007ffc12345673 0x1000 (fun _ => 4).

(** A one-byte access through a kernel pointer with the match-all tag
    0xFF, to the last byte of a granule of which 3 bytes are
    addressable. *)
Definition matchAllAccess : CheckInput :=
  mkCheckInput 0xFFFF80001234567F 0 (fun _ => 3).

(** Sample modules: one word-sized global [g], and four of them. *)
Definition wordGlobal (Name : string) : GlobalVariable :=
  mkGlobalVariable Name (Some (Bytes [1; 0; 0; 0])) ExternalLinkage false
                   None false (Some 4) false None.

Definition oneGlobal : Module :=
  mkModule "one.c" [wordGlobal "g"] [].

Definition fourGlobals : Module :=
  mkModule "four.c"
           [wordGlobal "a"; wordGlobal "b"; wordGlobal "c"; wordGlobal "d"]
           [].

(** Sample functions: a load through a pointer and a return, with and
    without the [sanitize_hwaddress] attribute. *)
Definition loadAndReturn : list Item :=
  [Orig (mkInst Load
                [mkMemRef (mkPointerFacts 1 0 false false) 32 false 4 false]
                false false);
   Orig (mkInst Ret [] false false)].

Definition plainFunction : Function :=
  mkFunction "plain" false false false (Some "__gxx_personality_v0"%string)
             loadAndReturn.

Definition sanitizedFunction : Function :=
  mkFunction "checked" true false false (Some "__gxx_personality_v0"%string)
             loadAndReturn.

(** [-hwasan-kernel] given on the command line. *)
Definition kernelFlags : Flags := {|
  ClInstrumentWithCalls := mkOpt 0%nat false;
  ClInstrumentReads := mkOpt 0%nat true;
  ClInstrumentWrites := mkOpt 0%nat true;
  ClInstrumentAtomics := mkOpt 0%nat true;
  ClInstrumentByval := mkOpt 0%nat true;
  ClInstrumentMemIntrinsics := mkOpt 0%nat true;
  ClRecover := mkOpt 0%nat false;
  ClInstrumentStack := mkOpt 0%nat true;
  ClUseAfterScope := mkOpt 0%nat false;
  ClGenerateTagsWithCalls := mkOpt 0%nat false;
  ClGlobals := mkOpt 0%nat false;
  ClMatchAllTag := mkOpt 0%nat (-1);
  ClEnableKhwasan := mkOpt 1%nat true;
  ClMappingOffset := mkOpt 0%nat 0;
  ClWithIfunc := mkOpt 0%nat false;
  ClWithTls := mkOpt 0%nat true;
  ClRecordStackHistory := mkOpt 0%nat instr;
  ClInstrumentLandingPads := mkOpt 0%nat false;
  ClUseShortGranules := mkOpt 0%nat false;
  ClInstrumentPersonalityFunctions := mkOpt 0%nat false;
  ClInlineAllChecks := mkOpt 0%nat false;
  ClUsePageAliases := mkOpt 0%nat false
|}.

(** Page aliases asked for together with inline checks. *)
Definition pageAliasFlags : Flags := {|
  ClInstrumentWithCalls := mkOpt 1%nat false;
  ClInstrumentReads := mkOpt 0%nat true;
  ClInstrumentWrites := mkOpt 0%nat true;
  ClInstrumentAtomics := mkOpt 0%nat true;
  ClInstrumentByval := mkOpt 0%nat true;
  ClInstrumentMemIntrinsics := mkOpt 0%nat true;
  ClRecover := mkOpt 0%nat false;
  ClInstrumentStack := mkOpt 0%nat true;
  ClUseAfterScope := mkOpt 0%nat false;
  ClGenerateTagsWithCalls := mkOpt 0%nat false;
  ClGlobals := mkOpt 0%nat false;
  ClMatchAllTag := mkOpt 0%nat (-1);
  ClEnableKhwasan := mkOpt 0%nat false;
  ClMappingOffset := mkOpt 0%nat 0;
  ClWithIfunc := mkOpt 0%nat false;
  ClWithTls := mkOpt 0%nat true;
  ClRecordStackHistory := mkOpt 0%nat instr;
  ClInstrumentLandingPads := mkOpt 0%nat false;
  ClUseShortGranules := mkOpt 0%nat false;
  ClInstrumentPersonalityFunctions := mkOpt 0%nat false;
  ClInlineAllChecks := mkOpt 0%nat false;
  ClUsePageAliases := mkOpt 1%nat true
|}.

(** A masked 16-byte vector store. *)
Definition maskedStore : InterestingMemoryOperand :=
  mkOperand true 128 false (Some 16) (Some 7) 3.

(* ================================================================== *)
(** * Properties *)

(** ** Bit-level facts about the tag field *)

Lemma testbit_wrap64 (x i : Z) :
  Z.testbit (wrap64 x) i = (i <? 64) && Z.testbit x i.
Proof.
  unfold wrap64, wrap. apply Z.testbit_mod_pow2. lia.
Qed.

Lemma testbit_below (x n i : Z) :
  0 <= x < 2 ^ n -> n <= i -> Z.testbit x i = false.
Proof.
  intros Hx Hi.
  destruct (Z.eq_dec x 0) as [-> | Hnz].
  - apply Z.bits_0.
  - apply Z.bits_above_log2; [lia |].
    assert (0 <= n) by (destruct (Z.le_gt_cases 0 n); [assumption |];
                        rewrite Z.pow_neg_r in Hx; lia).
    assert (Z.log2 x < n) by (apply Z.log2_lt_pow2; lia).
    lia.
Qed.

Lemma testbit_shl64 (s t i : Z) :
  0 <= i ->
  Z.testbit (shl64 t s) i = (s <=? i) && (i <? 64) && Z.testbit t (i - s).
Proof.
  intros Hi. unfold shl64. rewrite testbit_wrap64.
  destruct (Z.leb_spec s i).
  - rewrite Z.shiftl_spec by lia. simpl. reflexivity.
  - rewrite Z.shiftl_spec_low by lia. simpl. apply andb_false_r.
Qed.

Section TagField.

(** A tag field of [w] bits at bit [s] of a 64-bit word. *)
Variables s w : Z.
Hypothesis s_nonneg : 0 <= s.
Hypothesis w_nonneg : 0 <= w.
Hypothesis fits : s + w <= 64.

Local Abbreviation field := (Z.shiftl (Z.ones w) s).

Lemma testbit_field (i : Z) :
  0 <= i -> Z.testbit field i = (s <=? i) && (i <? s + w).
Proof.
  intros Hi.
  destruct (Z.leb_spec s i).
  - rewrite Z.shiftl_spec by lia.
    rewrite Z.testbit_ones_nonneg by lia.
    simpl. destruct (Z.ltb_spec (i - s) w), (Z.ltb_spec i (s + w));
      try reflexivity; lia.
  - rewrite Z.shiftl_spec_low by lia. reflexivity.
Qed.

Lemma testbit_not64_field (i : Z) :
  0 <= i ->
  Z.testbit (not64 field) i
  = (i <? 64) && negb ((s <=? i) && (i <? s + w)).
Proof.
  intros Hi. unfold not64. rewrite testbit_wrap64.
  rewrite Z.lnot_spec by lia. rewrite testbit_field by lia. reflexivity.
Qed.

(** User mode: OR the shifted tag in, AND the field away. *)
Lemma user_untag_tag (p t : Z) :
  (forall j, w <= j -> s + j < 64 -> Z.testbit t j = false) ->
  Z.land (Z.lor p (shl64 t s)) (not64 field) = Z.land p (not64 field).
Proof.
  intros Ht. apply Z.bits_inj'. intros i Hi.
  rewrite !Z.land_spec, Z.lor_spec, testbit_shl64, testbit_not64_field
    by lia.
  destruct (Z.leb_spec s i), (Z.ltb_spec i 64), (Z.ltb_spec i (s + w));
    simpl; rewrite ?andb_false_r, ?orb_false_r, ?andb_true_r;
    try reflexivity; try lia.
  rewrite (Ht (i - s)) by lia. rewrite orb_false_r. reflexivity.
Qed.

(** Kernel mode: AND with the tag over all-ones low bits, OR the field
    back to ones.  The field has to reach bit 63. *)
Lemma kernel_untag_tag (p t : Z) :
  in64 p ->
  s + w = 64 ->
  Z.lor (Z.land p (Z.lor (shl64 t s) (Z.ones s))) field = Z.lor p field.
Proof.
  intros Hp Htop. apply Z.bits_inj'. intros i Hi.
  rewrite !Z.lor_spec, Z.land_spec, Z.lor_spec, testbit_shl64,
    testbit_field, Z.testbit_ones_nonneg by lia.
  destruct (Z.ltb_spec i 64) as [Hlt | Hge].
  - destruct (Z.leb_spec s i), (Z.ltb_spec i (s + w)), (Z.ltb_spec i s);
      simpl; try lia;
      rewrite ?andb_false_r, ?orb_false_r, ?andb_true_r, ?orb_true_r;
      reflexivity.
  - rewrite (testbit_below p 64 i Hp Hge).
    destruct (Z.leb_spec s i), (Z.ltb_spec i (s + w)); simpl;
      try reflexivity; lia.
Qed.

End TagField.

(** ** Pointer tag codec *)

(** The shift and mask of every module: the field never spills over bit
    63, and reaches it exactly when the tag is a full byte. *)
Lemma settings_tag_field (Fl : Flags) (T : Triple) (CK R : bool) :
  let S := initializeModule Fl T CK R in
  exists w,
    0 <= w /\ PointerTagShift S + w <= 64
    /\ TagMaskByte S = Z.ones w
    /\ tagFieldMask S = Z.shiftl (Z.ones w) (PointerTagShift S)
    /\ wrap64 (wrap64 (Z.shiftl 1 (PointerTagShift S)) - 1)
       = Z.ones (PointerTagShift S)
    /\ (isX86_64 T = false -> PointerTagShift S + w = 64)
    /\ (isX86_64 T = true -> w = 6 /\ PointerTagShift S = 57).
Proof.
  simpl. unfold tagFieldMask. simpl.
  destruct (isX86_64 T); [exists 6 | exists 8];
    repeat split; try reflexivity; try lia; try discriminate.
Qed.

(** On the full-byte architectures the tag byte the inline check extracts
    is the tag field. *)
Lemma checkedPointerTag_full_byte (Fl : Flags) (T : Triple) (CK R : bool)
      (p : Z) :
  let S := initializeModule Fl T CK R in
  isX86_64 T = false -> in64 p ->
  checkedPointerTag S p = pointerTag S p.
Proof.
  intros S HT Hp.
  unfold checkedPointerTag, pointerTag, getUARTag, applyTagMask.
  subst S. simpl. rewrite HT. simpl.
  unfold trunc8, wrap8, wrap, lshr64.
  apply Z.mod_small. rewrite Z.shiftr_div_pow2 by lia.
  unfold in64 in Hp. split.
  - apply Z.div_pos; lia.
  - apply Z.div_lt_upper_bound; lia.
Qed.

(** C1 (as amended): untagging a tagged pointer gives the untagged
    pointer, [untag (tag p t) = untag p], for every 64-bit pointer and
    every tag in user and in kernel mode where the tag field is the full
    top byte (shift 56, mask 0xFF); on x86_64 (shift 57, mask 0x3F) in user
    mode, for every tag within the mask. *)
Theorem untag_tagPointer (Fl : Flags) (T : Triple) (CK R : bool) (p t : Z) :
  let S := initializeModule Fl T CK R in
  in64 p ->
  (isX86_64 T = true -> CompileKernel S = false /\ 0 <= t <= TagMaskByte S) ->
  untagPointer S (tagPointer S p t) = untagPointer S p.
Proof.
  intros S Hp Hx.
  destruct (settings_tag_field Fl T CK R)
    as (w & Hw & Hfit & Hmask & Hfield & Hlow & Hfull & Hx86).
  fold S in Hfit, Hmask, Hfield, Hlow, Hfull, Hx86.
  assert (Hs : 0 <= PointerTagShift S)
    by (subst S; simpl; destruct (isX86_64 T); simpl; lia).
  unfold untagPointer, tagPointer.
  destruct (CompileKernel S) eqn:HK.
  - (* kernel mode: only with the full byte *)
    rewrite Hlow, Hfield.
    destruct (isX86_64 T) eqn:HT.
    + destruct (Hx eq_refl) as [Hno _]. discriminate Hno.
    + apply kernel_untag_tag; auto.
  - (* user mode *)
    rewrite Hfield. apply user_untag_tag; auto.
    intros j Hj Hj64.
    destruct (isX86_64 T) eqn:HT.
    + destruct (Hx eq_refl) as [_ Ht]. destruct (Hx86 eq_refl) as [-> _].
      rewrite Hmask in Ht. apply (testbit_below t 6); [| lia].
      change (Z.ones 6) with 63 in Ht. change (2 ^ 6) with 64. lia.
    + specialize (Hfull eq_refl). lia.
Qed.

(** A user-mode x86_64 instance: a stack address and tag 42. *)
Lemma untag_tagPointer_witness :
  untagPointer (initializeModule defaultFlags linux_x86_64 false false)
    (tagPointer (initializeModule defaultFlags linux_x86_64 false false)
                0x7ffc12345670 42)
  = untagPointer (initializeModule defaultFlags linux_x86_64 false false)
                 0x7ffc12345670.
Proof.
  apply (untag_tagPointer defaultFlags linux_x86_64 false false
           0x7ffc12345670 42).
  - unfold in64. lia.
  - intros _. split; [reflexivity | simpl; lia].
Defined.

(** C1 as stated fails on x86_64: tag 64 lands on bit 63, outside the
    field bits 57..62 that untagging clears. *)
Lemma untag_tagPointer_x86_64_counterexample :
  let S := initializeModule defaultFlags linux_x86_64 false false in
  CompileKernel S = false
  /\ untagPointer S (tagPointer S 0 64) = 2 ^ 63
  /\ untagPointer S 0 = 0
  /\ untagPointer S (tagPointer S 0 64) <> untagPointer S 0.
Proof.
  vm_compute. repeat split; intros H; discriminate H.
Qed.

Lemma below_by_bits (n x : Z) :
  0 <= n ->
  (forall i, 0 <= i -> n <= i -> Z.testbit x i = false) -> 0 <= x < 2 ^ n.
Proof.
  intros Hn Hhigh.
  assert (Heq : x mod 2 ^ n = x).
  { apply Z.bits_inj'. intros i Hi. rewrite Z.testbit_mod_pow2 by lia.
    destruct (Z.ltb_spec i n); simpl; [reflexivity |].
    symmetry. apply Hhigh; lia. }
  rewrite <- Heq. apply Z.mod_pos_bound. lia.
Qed.

Lemma in64_bits (x : Z) :
  (forall i, 0 <= i -> 64 <= i -> Z.testbit x i = false) -> in64 x.
Proof.
  intros Hhigh. unfold in64. apply below_by_bits; [lia | exact Hhigh].
Qed.

Section TagFieldValue.

Variables s w : Z.
Hypothesis s_nonneg : 0 <= s.
Hypothesis w_nonneg : 0 <= w.
Hypothesis fits : s + w <= 64.

Local Abbreviation field := (Z.shiftl (Z.ones w) s).

(** A 64-bit word shifted down by [s] has nothing above bit [w] when the
    field reaches bit 63. *)
Lemma shiftr_top (x : Z) :
  in64 x -> s + w = 64 ->
  Z.shiftr x s = Z.land (Z.shiftr x s) (Z.ones w).
Proof.
  intros Hx Htop. apply Z.bits_inj'. intros i Hi.
  rewrite Z.land_spec, Z.shiftr_spec, Z.testbit_ones_nonneg by lia.
  destruct (Z.ltb_spec i w).
  - rewrite andb_true_r. reflexivity.
  - rewrite andb_false_r. apply (testbit_below x 64); auto. lia.
Qed.

Lemma user_tag_field (p t : Z) :
  Z.land p (not64 field) = p ->
  Z.land (Z.shiftr (Z.lor p (shl64 t s)) s) (Z.ones w) = t mod 2 ^ w.
Proof.
  intros Hun. rewrite <- Z.land_ones by lia.
  apply Z.bits_inj'. intros i Hi.
  rewrite !Z.land_spec, Z.shiftr_spec, Z.lor_spec,
    testbit_shl64, Z.testbit_ones_nonneg by lia.
  destruct (Z.ltb_spec i w); [| rewrite !andb_false_r; reflexivity].
  rewrite !andb_true_r.
  assert (Hp : Z.testbit p (i + s) = false).
  { rewrite <- Hun, Z.land_spec,
      testbit_not64_field by lia.
    destruct (Z.leb_spec s (i + s)), (Z.ltb_spec (i + s) (s + w));
      lia. }
  rewrite Hp. simpl.
  destruct (Z.leb_spec s (i + s)), (Z.ltb_spec (i + s) 64); try lia.
  simpl. f_equal. lia.
Qed.

Lemma kernel_tag_field (p t : Z) :
  Z.lor p field = p ->
  Z.land (Z.shiftr (Z.land p (Z.lor (shl64 t s) (Z.ones s))) s) (Z.ones w)
  = t mod 2 ^ w.
Proof.
  intros Hun. rewrite <- Z.land_ones by lia.
  apply Z.bits_inj'. intros i Hi.
  rewrite !Z.land_spec, Z.shiftr_spec, Z.land_spec, Z.lor_spec,
    testbit_shl64, !Z.testbit_ones_nonneg by lia.
  destruct (Z.ltb_spec i w); [| rewrite !andb_false_r; reflexivity].
  rewrite !andb_true_r.
  assert (Hp : Z.testbit p (i + s) = true).
  { rewrite <- Hun, Z.lor_spec, testbit_field
      by lia.
    destruct (Z.leb_spec s (i + s)), (Z.ltb_spec (i + s) (s + w));
      lia. }
  rewrite Hp. simpl.
  destruct (Z.leb_spec s (i + s)), (Z.ltb_spec (i + s) 64),
    (Z.ltb_spec (i + s) s); try lia.
  simpl. rewrite orb_false_r. f_equal. lia.
Qed.

Lemma in64_user_tag (p t : Z) : in64 p -> in64 (Z.lor p (shl64 t s)).
Proof.
  intros Hp. apply in64_bits. intros i Hi Hhigh.
  rewrite Z.lor_spec, testbit_shl64 by lia.
  rewrite (testbit_below p 64 i Hp Hhigh).
  destruct (Z.ltb_spec i 64); [lia |].
  simpl. rewrite andb_false_r. reflexivity.
Qed.

Lemma in64_kernel_tag (p m : Z) : in64 p -> in64 (Z.land p m).
Proof.
  intros Hp. apply in64_bits. intros i Hi Hhigh.
  rewrite Z.land_spec, (testbit_below p 64 i Hp Hhigh). reflexivity.
Qed.

End TagFieldValue.

(** C8 (as amended): for every 64-bit pointer that carries no tag
    ([untag p = p]) and every tag, the tag field of [tag p t] holds
    [t mod (TagMaskByte + 1)], in user and in kernel mode. *)
Theorem pointerTag_tagPointer (Fl : Flags) (T : Triple) (CK R : bool)
        (p t : Z) :
  let S := initializeModule Fl T CK R in
  in64 p ->
  untagPointer S p = p ->
  pointerTag S (tagPointer S p t) = t mod (TagMaskByte S + 1).
Proof.
  intros S Hp Hun.
  destruct (settings_tag_field Fl T CK R)
    as (w & Hw & Hfit & Hmask & Hfield & Hlow & Hfull & Hx86).
  fold S in Hfit, Hmask, Hfield, Hlow, Hfull, Hx86.
  assert (Hs : 0 <= PointerTagShift S)
    by (subst S; simpl; destruct (isX86_64 T); simpl; lia).
  assert (Hmod : TagMaskByte S + 1 = 2 ^ w)
    by (rewrite Hmask, Z.ones_equiv; lia).
  rewrite Hmod.
  assert (Hfld : forall x, in64 x ->
            pointerTag S x
            = Z.land (Z.shiftr x (PointerTagShift S)) (Z.ones w)).
  { intros x Hx. unfold pointerTag, getUARTag, applyTagMask, lshr64.
    destruct (TagMaskByte S =? 255) eqn:Hff.
    - apply shiftr_top; auto.
      destruct (isX86_64 T) eqn:HT; [| auto].
      apply Z.eqb_eq in Hff. subst S. simpl in Hff. rewrite HT in Hff.
      discriminate Hff.
    - rewrite Hmask. reflexivity. }
  unfold untagPointer in Hun. unfold tagPointer.
  destruct (CompileKernel S).
  - rewrite Hfld by (apply in64_kernel_tag; assumption).
    rewrite Hlow. rewrite Hfield in Hun.
    apply kernel_tag_field; auto.
  - rewrite Hfld by (apply in64_user_tag; assumption).
    rewrite Hfield in Hun.
    apply user_tag_field; auto.
Qed.

(** An aarch64 user-mode instance: a stack address and a tag wider than
    a byte. *)
Lemma pointerTag_tagPointer_witness :
  pointerTag (initializeModule defaultFlags linux_aarch64 false false)
    (tagPointer (initializeModule defaultFlags linux_aarch64 false false)
                0x7ffc12345670 0x12A)
  = 0x12A mod
      (TagMaskByte (initializeModule defaultFlags linux_aarch64 false false)
       + 1).
Proof.
  apply (pointerTag_tagPointer defaultFlags linux_aarch64 false false
           0x7ffc12345670 0x12A).
  - unfold in64. lia.
  - reflexivity.
Defined.

(** C8 as stated fails for a pointer that already carries a tag: in user
    mode the new tag is OR-ed onto the old one. *)
Lemma pointerTag_tagPointer_counterexample :
  let S := initializeModule defaultFlags linux_aarch64 false false in
  let p := Z.shiftl 1 56 + 0x7ffc12345670 in
  CompileKernel S = false
  /\ pointerTag S (tagPointer S p 2) = 3
  /\ 2 mod (TagMaskByte S + 1) = 2
  /\ pointerTag S (tagPointer S p 2) <> 2 mod (TagMaskByte S + 1).
Proof.
  vm_compute. repeat split; intros H; discriminate H.
Qed.

(** The inline check reads the same byte there. *)
Example checkedPointerTag_tagged_twice :
  let S := initializeModule defaultFlags linux_aarch64 false false in
  checkedPointerTag S (tagPointer S (Z.shiftl 1 56 + 0x7ffc12345670) 2) = 3.
Proof. reflexivity. Qed.

(** Kernel mode with the x86_64 field: tagging clears bit 63 of a kernel
    address and untagging does not set it again. *)
Example kernel_x86_64_untag_tag :
  let S := initializeModule defaultFlags linux_x86_64 true false in
  CompileKernel S = true
  /\ untagPointer S (tagPointer S 0xffff800012345670 5) = 0x7fff800012345670
  /\ untagPointer S 0xffff800012345670 = 0xffff800012345670.
Proof. vm_compute. repeat split. Qed.

(** ** Shadow mapping resolver *)

Lemma inMode_unique (M : ShadowMapping) (m m' : AddressingMode) :
  inMode M m = true -> inMode M m' = true -> m' = m.
Proof.
  destruct m, m'; simpl; try reflexivity;
    unfold isFixedOffset, isIfuncGlobal, isTlsSlot, isDynamicGlobal;
    destruct (Offset M =? kDynamicShadowSentinel), (InGlobal M), (InTls M);
    simpl; discriminate.
Qed.

(** C6 (as amended): the resolver is total, its result is in exactly one
    addressing mode, and it decides in the order Fuchsia's fixed zero
    offset, the explicit offset, the kernel flag [-hwasan-kernel] or
    call-based instrumentation (offset 0, neither TLS nor global), the
    ifunc global, the TLS slot with frame records, the plain dynamic
    shadow without frame records.  The kernel mode the pass is created
    with has no part in the decision. *)
Theorem ShadowMapping_init_priority (Fl : Flags) (T : Triple) (IWC : bool) :
  let M := ShadowMapping_init Fl T IWC in
  (exists m, inMode M m = true /\ forall m', inMode M m' = true -> m' = m)
  /\ (forall CK CK' R R',
         Mapping (initializeModule Fl T CK R)
         = Mapping (initializeModule Fl T CK' R'))
  /\ Scale M = kDefaultShadowScale
  /\ (isOSFuchsia T = true ->
      M = mkMapping 4 0 false false true)
  /\ (isOSFuchsia T = false ->
      given (ClMappingOffset Fl) = true ->
      M = mkMapping 4 (wrap64 (getValue (ClMappingOffset Fl)))
                    false false false)
  /\ (isOSFuchsia T = false ->
      given (ClMappingOffset Fl) = false ->
      getValue (ClEnableKhwasan Fl) || IWC = true ->
      M = mkMapping 4 0 false false false)
  /\ (isOSFuchsia T = false ->
      given (ClMappingOffset Fl) = false ->
      getValue (ClEnableKhwasan Fl) || IWC = false ->
      getValue (ClWithIfunc Fl) = true ->
      M = mkMapping 4 kDynamicShadowSentinel true false false)
  /\ (isOSFuchsia T = false ->
      given (ClMappingOffset Fl) = false ->
      getValue (ClEnableKhwasan Fl) || IWC = false ->
      getValue (ClWithIfunc Fl) = false ->
      getValue (ClWithTls Fl) = true ->
      M = mkMapping 4 kDynamicShadowSentinel false true true)
  /\ (isOSFuchsia T = false ->
      given (ClMappingOffset Fl) = false ->
      getValue (ClEnableKhwasan Fl) || IWC = false ->
      getValue (ClWithIfunc Fl) = false ->
      getValue (ClWithTls Fl) = false ->
      M = mkMapping 4 kDynamicShadowSentinel false false false).
Proof.
  intros M. split.
  - (* exactly one mode: some mode holds, and no two do *)
    assert (Hsome : exists m, inMode M m = true).
    { subst M. unfold ShadowMapping_init.
      destruct (isOSFuchsia T); [exists FixedOffset; reflexivity |].
      destruct (given (ClMappingOffset Fl)).
      - destruct (wrap64 (getValue (ClMappingOffset Fl))
                  =? kDynamicShadowSentinel) eqn:Hoff.
        + exists DynamicGlobal. simpl. unfold isDynamicGlobal. simpl.
          rewrite Hoff. reflexivity.
        + exists FixedOffset. simpl. unfold isFixedOffset. simpl.
          rewrite Hoff. reflexivity.
      - destruct (getValue (ClEnableKhwasan Fl) || IWC);
          [exists FixedOffset; reflexivity |].
        destruct (getValue (ClWithIfunc Fl));
          [exists IfuncGlobal; reflexivity |].
        destruct (getValue (ClWithTls Fl));
          [exists TlsSlot; reflexivity | exists DynamicGlobal; reflexivity]. }
    destruct Hsome as [m Hm]. exists m. split; [exact Hm |].
    intros m' Hm'. exact (inMode_unique M m m' Hm Hm').
  - split; [reflexivity |].
    subst M. unfold ShadowMapping_init.
    repeat split; intros;
      repeat match goal with
             | H : _ = true |- _ => rewrite H
             | H : _ = false |- _ => rewrite H
             end; try reflexivity.
    destruct (isOSFuchsia T), (given (ClMappingOffset Fl)),
      (getValue (ClEnableKhwasan Fl) || IWC), (getValue (ClWithIfunc Fl)),
      (getValue (ClWithTls Fl)); reflexivity.
Qed.

(** C6 as stated fails for a kernel build that is asked for through the
    pass and not through the flag: with the default flags on AArch64 the
    mapping is the TLS slot with frame records, not the zero offset. *)
Lemma ShadowMapping_kernel_option_counterexample :
  let S := initializeModule defaultFlags linux_aarch64 true false in
  CompileKernel S = true
  /\ InstrumentWithCalls S = false
  /\ Mapping S = mkMapping 4 kDynamicShadowSentinel false true true
  /\ Mapping S <> mkMapping 4 0 false false false.
Proof.
  vm_compute. repeat split. intros H. discriminate H.
Qed.

(** With the flag the same build gets the zero offset. *)
Example ShadowMapping_kernel_flag :
  Mapping (initializeModule kernelFlags linux_aarch64 false false)
  = mkMapping 4 0 false false false.
Proof. reflexivity. Qed.

(** ** Retag masks *)

Lemma FastMasks_length : List.length FastMasks = 36%nat.
Proof. reflexivity. Qed.

Lemma FastMasks_runs :
  forallb (fun m => isBitRun m && (m <? 255)) FastMasks = true.
Proof. vm_compute. reflexivity. Qed.

Lemma FastMasks_distinct : NoDup FastMasks.
Proof.
  unfold FastMasks.
  repeat (constructor; [simpl; intuition discriminate |]).
  constructor.
Qed.

Lemma retagMask_table (S : Settings) (N : Z) :
  isX86_64 (TargetTriple S) = false ->
  retagMask S N = nth (Z.to_nat (N mod 36)) FastMasks 0.
Proof.
  intros HT. unfold retagMask, isX86_64 in *. rewrite HT.
  rewrite FastMasks_length. reflexivity.
Qed.

Lemma retagMask_x86_64 (Fl : Flags) (T : Triple) (CK R : bool) (N : Z) :
  isX86_64 T = true ->
  retagMask (initializeModule Fl T CK R) N
  = Z.land N (TagMaskByte (initializeModule Fl T CK R)).
Proof.
  intros HT. unfold retagMask.
  change (TargetTriple (initializeModule Fl T CK R)) with T.
  change (TagMaskByte (initializeModule Fl T CK R))
    with (tagMaskByteFor (isX86_64 T)).
  unfold isX86_64 in *. rewrite HT. unfold tagMaskByteFor.
  unfold wrap32, wrap. apply Z.mod_small.
  assert (H63 : Z.land N 63 = N mod 2 ^ 6)
    by (change 63 with (Z.ones 6); apply Z.land_ones; lia).
  rewrite H63. pose proof (Z.mod_pos_bound N (2 ^ 6)). lia.
Qed.

(** C4: the retag mask is a function of the allocation index alone; on
    x86_64 it is [N & TagMaskByte]; elsewhere it is entry [N mod 36] of a
    fixed table of 36 bytes, each with at most one run of set bits, so it
    repeats with period 36. *)
Theorem retagMask_spec (Fl : Flags) (T : Triple) (CK R : bool) :
  let S := initializeModule Fl T CK R in
  (forall N N', N = N' -> retagMask S N = retagMask S N')
  /\ (isX86_64 T = true ->
      forall N, retagMask S N = Z.land N (TagMaskByte S))
  /\ (isX86_64 T = false ->
      List.length FastMasks = 36%nat
      /\ forallb (fun m => isBitRun m && (m <? 255)) FastMasks = true
      /\ (forall N, retagMask S N = nth (Z.to_nat (N mod 36)) FastMasks 0)
      /\ (forall N, 0 <= N -> N + 36 < 2 ^ 32 ->
                    retagMask S (N + 36) = retagMask S N)).
Proof.
  intros S. split; [| split].
  - intros N N' ->. reflexivity.
  - intros HT N. apply retagMask_x86_64. exact HT.
  - intros HT.
    assert (HS : isX86_64 (TargetTriple S) = false) by exact HT.
    split; [exact FastMasks_length |].
    split; [exact FastMasks_runs |].
    split.
    + intros N. apply retagMask_table. exact HS.
    + intros N _ _. rewrite !retagMask_table by exact HS.
      replace (N + 36) with (N + 1 * 36) by lia.
      rewrite Z.mod_add by lia. reflexivity.
Qed.

(** The cycle at work: allocations 5 and 41 of one function share a mask,
    neighbours do not. *)
Example retagMask_cycle :
  let S := initializeModule defaultFlags linux_aarch64 false false in
  retagMask S 5 = 96 /\ retagMask S 41 = 96 /\ retagMask S 6 = 224.
Proof. repeat split. Qed.

(** On x86_64 the tags the pass computes from the stack pointer stay
    within the mask, so bit 63 of a tagged address is never touched. *)
Lemma getAllocaTag_within_mask (Fl : Flags) (CK R : bool)
      (StackPointerLong AllocaNo : Z) :
  let S := initializeModule Fl linux_x86_64 CK R in
  0 <= getAllocaTag S (getStackBaseTag S StackPointerLong) AllocaNo
    <= TagMaskByte S.
Proof.
  intros S.
  assert (H63 : forall x, 0 <= Z.land x 63 < 2 ^ 6).
  { intros x. change 63 with (Z.ones 6). rewrite Z.land_ones by lia.
    apply Z.mod_pos_bound. lia. }
  unfold getAllocaTag, getStackBaseTag, applyTagMask. subst S.
  rewrite (retagMask_x86_64 Fl linux_x86_64 CK R AllocaNo eq_refl).
  change (TagMaskByte (initializeModule Fl linux_x86_64 CK R)) with 63.
  change (63 =? 255) with false. cbv iota.
  unfold wrap64, wrap.
  rewrite (Z.mod_small (Z.land AllocaNo 63))
    by (pose proof (H63 AllocaNo); lia).
  set (Base := Z.lxor StackPointerLong (lshr64 StackPointerLong 20)).
  enough (0 <= Z.lxor (Z.land Base 63) (Z.land AllocaNo 63) < 2 ^ 6) by lia.
  apply below_by_bits; [lia |]. intros i Hi Hhigh.
  rewrite Z.lxor_spec.
  rewrite (testbit_below (Z.land Base 63) 6 i (H63 Base) Hhigh).
  rewrite (testbit_below (Z.land AllocaNo 63) 6 i (H63 AllocaNo) Hhigh).
  reflexivity.
Qed.

(** ** Shadow writes of a stack allocation *)

Lemma settings_granule (Fl : Flags) (T : Triple) (CK R : bool) :
  let S := initializeModule Fl T CK R in
  Scale (Mapping S) = 4 /\ getObjectAlignment (Mapping S) = 16.
Proof.
  simpl.
  assert (H : Scale (ShadowMapping_init Fl T (shouldInstrumentWithCalls Fl T))
              = 4)
    by (unfold ShadowMapping_init;
        repeat match goal with
               | |- context [if ?c then _ else _] => destruct c
               end; reflexivity).
  split; [exact H |]. unfold getObjectAlignment. rewrite H. reflexivity.
Qed.

Lemma alignTo_16 (Size : Z) :
  0 <= Size <= 2 ^ 31 ->
  alignTo Size 16 = (Size + 15) / 16 * 16.
Proof.
  intros HSize. unfold alignTo, wrap64, wrap.
  replace (Size + 16 - 1) with (Size + 15) by lia.
  apply Z.mod_small.
  pose proof (Z.mul_div_le (Size + 15) 16).
  pose proof (Z.div_pos (Size + 15) 16).
  lia.
Qed.

Lemma signed32_small (x : Z) : 0 <= x < 2 ^ 31 -> signed32 (wrap32 x) = x.
Proof.
  intros Hx. unfold signed32, wrap32, wrap.
  rewrite Z.mod_mod by lia. rewrite Z.mod_small by lia.
  destruct (Z.ltb_spec x (2 ^ 31)); [reflexivity | lia].
Qed.

(** The stores of [tagAlloca] when it writes the shadow itself, with the
    machine arithmetic resolved for sizes up to 2 GiB. *)
Lemma tagAlloca_inline (S : Settings) (Tag Size : Z) :
  Scale (Mapping S) = 4 ->
  InstrumentWithCalls S = false ->
  0 <= Size <= 2 ^ 31 ->
  let AlignedSize := (Size + 15) / 16 * 16 in
  let Size' := if UseShortGranules S then Size else AlignedSize in
  tagAlloca S Tag Size
  = (if Size' / 16 =? 0 then []
     else [MemSetShadow (Tag mod 256) (Size' / 16)])
    ++ (if Size' =? AlignedSize then []
        else [StoreShadow (Size mod 16) (wrap32 (Size / 16));
              StoreObject (Tag mod 256) (wrap32 (AlignedSize - 1))]).
Proof.
  intros HScale HCalls HSize AlignedSize Size'.
  unfold tagAlloca. rewrite HCalls.
  assert (Hg : getObjectAlignment (Mapping S) = 16)
    by (unfold getObjectAlignment; rewrite HScale; reflexivity).
  rewrite Hg, HScale, alignTo_16 by assumption.
  fold AlignedSize. fold Size'.
  rewrite !Z.shiftr_div_pow2 by lia. change (2 ^ 4) with 16.
  unfold trunc8, wrap8, wrap. change (2 ^ 8) with 256.
  f_equal.
  destruct (Size' =? AlignedSize) eqn:Heq; [reflexivity |].
  assert (HS : Size' = Size).
  { unfold Size' in *. destruct (UseShortGranules S); [reflexivity |].
    rewrite Z.eqb_refl in Heq. discriminate. }
  rewrite HS.
  rewrite (Z.mod_small (Size mod 16) 256)
    by (pose proof (Z.mod_pos_bound Size 16); lia).
  reflexivity.
Qed.

(** C2 (as amended): for an allocation of [Size] bytes (at most 2 GiB)
    and the 16-byte granule.  When the shadow is written in place: with
    short granules off, [ceil (Size / 16)] shadow bytes hold the tag and
    nothing else changes; with short granules on, [floor (Size / 16)]
    shadow bytes hold the tag, and if [Size] is not a multiple of 16 the
    next shadow byte holds [Size mod 16] and the tag is stored in the last
    byte of the allocation's last granule, object offset
    [alignTo Size 16 - 1].  With call-based instrumentation the pass
    emits one call [__hwasan_tag_memory (AI, Tag, alignTo Size 16)]
    instead. *)
Theorem tagAlloca_shadow
        (tag_memory : Z -> Z -> AllocaMemory -> AllocaMemory)
        (Fl : Flags) (T : Triple) (CK R : bool) (Tag Size : Z)
        (m : AllocaMemory) :
  let S := initializeModule Fl T CK R in
  let m' := runTagStores tag_memory m (tagAlloca S Tag Size) in
  let AlignedSize := (Size + 15) / 16 * 16 in
  0 <= Size <= 2 ^ 31 ->
  getObjectAlignment (Mapping S) = 16
  /\ (InstrumentWithCalls S = true ->
      tagAlloca S Tag Size = [CallTagMemory (Tag mod 256) AlignedSize])
  /\ (InstrumentWithCalls S = false -> UseShortGranules S = false ->
      (forall i, 0 <= i < (Size + 15) / 16 -> shadowAt m' i = Tag mod 256)
      /\ (forall i, ~ 0 <= i < (Size + 15) / 16 ->
                    shadowAt m' i = shadowAt m i)
      /\ (forall i, objectAt m' i = objectAt m i))
  /\ (InstrumentWithCalls S = false -> UseShortGranules S = true ->
      (forall i, 0 <= i < Size / 16 -> shadowAt m' i = Tag mod 256)
      /\ (Size mod 16 <> 0 ->
          shadowAt m' (Size / 16) = Size mod 16
          /\ objectAt m' (AlignedSize - 1) = Tag mod 256
          /\ (forall i, ~ 0 <= i <= Size / 16 ->
                        shadowAt m' i = shadowAt m i)
          /\ (forall i, i <> AlignedSize - 1 ->
                        objectAt m' i = objectAt m i))
      /\ (Size mod 16 = 0 ->
          (forall i, ~ 0 <= i < Size / 16 -> shadowAt m' i = shadowAt m i)
          /\ (forall i, objectAt m' i = objectAt m i))).
Proof.
  intros S m' AlignedSize HSize.
  destruct (settings_granule Fl T CK R) as [HScale Hg].
  fold S in HScale, Hg.
  pose proof (Z.div_mod Size 16 ltac:(lia)) as Hdm.
  pose proof (Z.mod_pos_bound Size 16 ltac:(lia)) as Hr.
  assert (Hq : 0 <= Size / 16) by (apply Z.div_pos; lia).
  assert (Hceil : (Size + 15) / 16
                  = Size / 16 + (if Size mod 16 =? 0 then 0 else 1)).
  { destruct (Z.eqb_spec (Size mod 16) 0) as [H0 | Hn0].
    - symmetry. apply (Z.div_unique _ _ _ 15); lia.
    - symmetry. apply (Z.div_unique _ _ _ (Size mod 16 - 1)); lia. }
  split; [exact Hg |]. split; [| split].
  - (* through the runtime *)
    intros HCalls. unfold tagAlloca. rewrite HCalls, Hg.
    rewrite alignTo_16 by assumption. reflexivity.
  - (* whole granules only *)
    intros HCalls HShort. subst m'.
    rewrite (tagAlloca_inline S Tag Size HScale HCalls HSize).
    rewrite HShort. rewrite Z.eqb_refl, app_nil_r.
    rewrite Z.div_mul by lia.
    destruct (Z.eqb_spec ((Size + 15) / 16) 0) as [H0 | Hn0]; simpl.
    + repeat split; intros; try reflexivity. lia.
    + unfold fill. repeat split; intros i; intros;
        destruct (Z.leb_spec 0 i), (Z.ltb_spec i ((Size + 15) / 16));
        simpl; try reflexivity; lia.
  - (* short granules *)
    intros HCalls HShort. subst m'.
    rewrite (tagAlloca_inline S Tag Size HScale HCalls HSize).
    rewrite HShort. fold AlignedSize.
    assert (HA : AlignedSize
                 = 16 * (Size / 16 + (if Size mod 16 =? 0 then 0 else 1)))
      by (unfold AlignedSize; rewrite Hceil; lia).
    destruct (Z.eqb_spec (Size mod 16) 0) as [H0 | Hn0].
    + (* a multiple of the granule: no remainder byte *)
      assert (HAS : Size = AlignedSize) by lia.
      rewrite <- HAS, Z.eqb_refl, app_nil_r.
      destruct (Z.eqb_spec (Size / 16) 0) as [Hq0 | Hqn0]; simpl.
      * repeat split; intros; try reflexivity; lia.
      * unfold fill. repeat split; intros; try lia;
          match goal with
          | |- context [(0 <=? ?i) && (?i <? ?n)] =>
              destruct (Z.leb_spec 0 i), (Z.ltb_spec i n)
          | _ => idtac
          end; simpl; try reflexivity; lia.
    + (* the last granule is short *)
      assert (HAS : (Size =? AlignedSize) = false)
        by (apply Z.eqb_neq; lia).
      rewrite HAS.
      assert (Hidx : signed32 (wrap32 (Size / 16)) = Size / 16)
        by (apply signed32_small; lia).
      assert (Hoff : signed32 (wrap32 (AlignedSize - 1)) = AlignedSize - 1)
        by (apply signed32_small; lia).
      destruct (Z.eqb_spec (Size / 16) 0) as [Hq0 | Hqn0]; simpl;
        rewrite Hidx, Hoff; unfold poke, fill.
      * repeat split; intros; try lia;
          rewrite ?Z.eqb_refl; try reflexivity;
          match goal with
          | |- context [?i =? ?k] => destruct (Z.eqb_spec i k)
          end; try reflexivity; lia.
      * repeat split; intros; try lia;
          rewrite ?Z.eqb_refl; try reflexivity;
          repeat match goal with
                 | |- context [?i =? ?k] => destruct (Z.eqb_spec i k)
                 | |- context [(0 <=? ?i) && (?i <? ?n)] =>
                     destruct (Z.leb_spec 0 i), (Z.ltb_spec i n)
                 end; simpl; try reflexivity; lia.
Qed.

(** A 20-byte allocation on aarch64, shadow written in place with short
    granules (scenario B). *)
Lemma tagAlloca_shadow_witness :
  let S := initializeModule defaultFlags linux_aarch64 false false in
  let m' := runTagStores noRuntime zeroMemory (tagAlloca S 0xAB 20) in
  shadowAt m' 0 = 0xAB /\ shadowAt m' 1 = 4 /\ objectAt m' 31 = 0xAB.
Proof.
  intros S m'.
  destruct (tagAlloca_shadow noRuntime defaultFlags linux_aarch64 false false
              0xAB 20 zeroMemory) as (_ & _ & _ & Hshort); [lia |].
  destruct (Hshort eq_refl eq_refl) as (Hfull & Hrem & _).
  destruct (Hrem ltac:(discriminate)) as (H1 & H2 & _).
  split; [| split].
  - apply (Hfull 0). change (20 / 16) with 1. lia.
  - exact H1.
  - exact H2.
Defined.

(** C2 as stated fails on its own example: for 20 bytes the tag goes to
    object offset 31, the last byte of the second granule, and offset 19
    is not written. *)
Lemma tagAlloca_last_byte_counterexample :
  let S := initializeModule defaultFlags linux_aarch64 false false in
  let m' := runTagStores noRuntime zeroMemory (tagAlloca S 0xAB 20) in
  UseShortGranules S = true
  /\ InstrumentWithCalls S = false
  /\ tagAlloca S 0xAB 20
     = [MemSetShadow 0xAB 1; StoreShadow 4 1; StoreObject 0xAB 31]
  /\ objectAt m' 31 = 0xAB
  /\ objectAt m' 19 = objectAt zeroMemory 19
  /\ objectAt m' 19 <> 0xAB.
Proof.
  vm_compute. repeat split; intros H; discriminate H.
Qed.

(** With call-based instrumentation (the x86_64 default) short granules
    leave no trace in what the pass emits. *)
Example tagAlloca_with_calls :
  let S := initializeModule defaultFlags linux_x86_64 false false in
  UseShortGranules S = true
  /\ tagAlloca S 0xAB 20 = [CallTagMemory 0xAB 32].
Proof. vm_compute. split; reflexivity. Qed.

(** A size that is a multiple of the granule gets no remainder byte. *)
Example tagAlloca_aligned :
  let S := initializeModule defaultFlags linux_aarch64 false false in
  tagAlloca S 0xAB 32 = [MemSetShadow 0xAB 2].
Proof. vm_compute. reflexivity. Qed.

(** ** The inline check *)

(** The low-bits sum never leaves a byte: at most 15 + 15. *)
Lemma PtrLowBits_exact (p idx : Z) :
  0 <= idx < kNumberOfAccessSizes ->
  add8 (trunc8 (Z.land p 15)) (wrap8 (Z.shiftl 1 idx - 1))
  = Z.land p 15 + (2 ^ idx - 1).
Proof.
  unfold kNumberOfAccessSizes. intros Hidx.
  assert (Hlow : 0 <= Z.land p 15 < 16).
  { change 15 with (Z.ones 4). rewrite Z.land_ones by lia.
    apply Z.mod_pos_bound. lia. }
  assert (Hsz : 1 <= 2 ^ idx <= 16).
  { assert (idx = 0 \/ idx = 1 \/ idx = 2 \/ idx = 3 \/ idx = 4) as Hc by lia.
    destruct Hc as [-> | [-> | [-> | [-> | ->]]]]; simpl; lia. }
  rewrite Z.shiftl_1_l.
  unfold add8, trunc8, wrap8, wrap. change (2 ^ 8) with 256.
  rewrite (Z.mod_small (Z.land p 15)) by lia.
  rewrite (Z.mod_small (2 ^ idx - 1)) by lia.
  apply Z.mod_small. lia.
Qed.

(** The generated blocks always reach the access or the trap: for a
    target with a trap sequence the check has a result, the one the four
    comparisons decide. *)
Lemma inlineCheck_total (S : Settings) (AccessSizeIndex : Z)
      (E : CheckInput) :
  let PtrTag := checkedPointerTag S (PtrLong E) in
  let AddrLong := untagPointer S (PtrLong E) in
  let MemTag := load8 E (memToShadow S (ShadowBase E) AddrLong) in
  let InlineTag := load8 E (Z.lor AddrLong 15) in
  let PtrLowBits := Z.land (PtrLong E) 15 + (2 ^ AccessSizeIndex - 1) in
  let TagMismatch :=
    negb (PtrTag =? MemTag)
    && match MatchAllTag S with
       | Some m => negb (PtrTag =? m)
       | None => true
       end in
  hasTrapSequence (getArch (TargetTriple S)) = true ->
  0 <= AccessSizeIndex < kNumberOfAccessSizes ->
  inlineCheck S AccessSizeIndex E
  = Some (if TagMismatch
             && ((15 <? MemTag) || (MemTag <=? PtrLowBits)
                 || negb (PtrTag =? InlineTag))
          then (if Recover S then ReachesAccess true else Aborts)
          else ReachesAccess false).
Proof.
  intros PtrTag AddrLong MemTag InlineTag PtrLowBits TagMismatch Harch Hidx.
  unfold inlineCheck, instrumentMemAccessInline. rewrite Harch.
  unfold runCheck. cbn [traps orb].
  fold (checkedPointerTag S (PtrLong E)). fold PtrTag. fold AddrLong.
  fold MemTag. fold InlineTag.
  rewrite (PtrLowBits_exact (PtrLong E) AccessSizeIndex Hidx).
  fold PtrLowBits. subst TagMismatch.
  destruct (MatchAllTag S) as [m |];
    [destruct (PtrTag =? m) |];
    destruct (PtrTag =? MemTag), (15 <? MemTag), (MemTag <=? PtrLowBits),
      (PtrTag =? InlineTag), (Recover S); reflexivity.
Qed.

(** C3 (as amended): in the inline check, when the pointer tag differs
    from the loaded memory tag, the pointer tag is not the match-all tag,
    and the memory tag is at most 15, the check faults whenever
    [lowBits (address, 4) + (accessSize - 1) >= memTag], equality
    included; below that bound it faults exactly when the tag in the
    granule's last byte differs from the pointer tag. *)
Theorem inlineCheck_short_granule (S : Settings) (AccessSizeIndex : Z)
        (E : CheckInput) :
  let PtrTag := checkedPointerTag S (PtrLong E) in
  let AddrLong := untagPointer S (PtrLong E) in
  let MemTag := load8 E (memToShadow S (ShadowBase E) AddrLong) in
  let InlineTag := load8 E (Z.lor AddrLong 15) in
  let PtrLowBits := Z.land (PtrLong E) 15 + (2 ^ AccessSizeIndex - 1) in
  hasTrapSequence (getArch (TargetTriple S)) = true ->
  0 <= AccessSizeIndex < kNumberOfAccessSizes ->
  PtrTag <> MemTag ->
  (forall m, MatchAllTag S = Some m -> PtrTag <> m) ->
  MemTag <= 15 ->
  (PtrLowBits >= MemTag ->
   inlineCheck S AccessSizeIndex E
   = Some (if Recover S then ReachesAccess true else Aborts))
  /\ (PtrLowBits >= MemTag ->
      faults (inlineCheck S AccessSizeIndex E) = true)
  /\ (PtrLowBits < MemTag ->
      faults (inlineCheck S AccessSizeIndex E) = negb (PtrTag =? InlineTag)).
Proof.
  intros PtrTag AddrLong MemTag InlineTag PtrLowBits
         Harch Hidx Hmismatch Hmatchall Hshort.
  unfold inlineCheck, instrumentMemAccessInline. rewrite Harch.
  assert (Hhead :
            match MatchAllTag S with
            | Some m => negb (PtrTag =? MemTag) && negb (PtrTag =? m)
            | None => negb (PtrTag =? MemTag)
            end = true).
  { assert (Hne : (PtrTag =? MemTag) = false) by (apply Z.eqb_neq; assumption).
    rewrite Hne. destruct (MatchAllTag S) as [m |] eqn:Hm; [| reflexivity].
    assert (Hnm : (PtrTag =? m) = false)
      by (apply Z.eqb_neq; apply Hmatchall; reflexivity).
    rewrite Hnm. reflexivity. }
  assert (Hrange : (15 <? MemTag) = false) by (apply Z.ltb_ge; assumption).
  unfold runCheck. cbn [traps orb].
  fold (checkedPointerTag S (PtrLong E)). fold PtrTag. fold AddrLong.
  fold MemTag. fold InlineTag.
  rewrite Hhead, Hrange, (PtrLowBits_exact (PtrLong E) AccessSizeIndex Hidx).
  fold PtrLowBits.
  destruct (Z.leb_spec MemTag PtrLowBits) as [Hoob | Hin].
  - (* out of bounds: straight to the trap *)
    split; [| split]; intros Hcmp; try lia;
      destruct (Recover S); reflexivity.
  - (* in bounds: the tag in the last byte decides *)
    split; [| split]; intros Hcmp; try lia.
    destruct (PtrTag =? InlineTag); simpl; [reflexivity |].
    destruct (Recover S); reflexivity.
Qed.

(** Equality is a fault: offset 3, two bytes, 4 addressable bytes. *)
Lemma inlineCheck_short_granule_witness :
  faults (inlineCheck (initializeModule defaultFlags linux_aarch64 false false)
                      1 shortGranuleAccess) = true.
Proof.
  refine (proj1 (proj2 (inlineCheck_short_granule
                          (initializeModule defaultFlags linux_aarch64
                                            false false)
                          1 shortGranuleAccess _ _ _ _ _)) _).
  - reflexivity.
  - unfold kNumberOfAccessSizes. lia.
  - vm_compute. intros H. discriminate H.
  - intros m Hm. discriminate Hm.
  - vm_compute. intros H. discriminate H.
  - vm_compute. intros H. discriminate H.
Defined.

(** C3 as stated fails when the pointer carries the match-all tag: the
    memory tag 3 differs from the pointer tag, is not the match-all tag
    and is at most 15, the low-bits sum 15 is not below it, and yet the
    check lets the access through without trapping. *)
Lemma inlineCheck_match_all_counterexample :
  let S := initializeModule defaultFlags linux_aarch64 true true in
  let E := matchAllAccess in
  let PtrTag := checkedPointerTag S (PtrLong E) in
  let MemTag :=
    load8 E (memToShadow S (ShadowBase E) (untagPointer S (PtrLong E))) in
  let PtrLowBits := Z.land (PtrLong E) 15 + (2 ^ 0 - 1) in
  InstrumentWithCalls S = false /\ OutlinedChecks S = false
  /\ MatchAllTag S = Some 0xFF
  /\ PtrTag = 0xFF /\ MemTag = 3
  /\ MemTag <> PtrTag /\ MemTag <> 0xFF /\ MemTag <= 15
  /\ PtrLowBits = 15 /\ PtrLowBits >= MemTag
  /\ inlineCheck S 0 E = Some (ReachesAccess false)
  /\ faults (inlineCheck S 0 E) = false.
Proof.
  vm_compute. repeat split; intros H; discriminate H.
Qed.

(** ** Tags of globals *)

Lemma assignTags_globals (S : Settings) (Globals : list GlobalVariable) :
  forall Tag, map fst (assignTags S Tag Globals) = Globals.
Proof.
  induction Globals as [| GV rest IH]; intros Tag; simpl.
  - reflexivity.
  - rewrite IH. reflexivity.
Qed.

Lemma assignTags_range (S : Settings) (Globals : list GlobalVariable) :
  16 <= TagMaskByte S ->
  forall Tag,
    Forall (fun t => 16 <= t <= TagMaskByte S)
           (map snd (assignTags S Tag Globals)).
Proof.
  intros Hmask. induction Globals as [| GV rest IH]; intros Tag; simpl.
  - constructor.
  - constructor; [| apply IH].
    destruct (Z.ltb_spec Tag 16), (Z.ltb_spec (TagMaskByte S) Tag);
      simpl; lia.
Qed.

Lemma assignTags_first (S : Settings) (Globals : list GlobalVariable)
      (Tag t : Z) :
  nth_error (map snd (assignTags S Tag Globals)) 0 = Some t ->
  t = if inGlobalTagRange S Tag then Tag else 16.
Proof.
  destruct Globals as [| GV rest]; simpl; [discriminate |].
  intros [= <-]. unfold inGlobalTagRange.
  destruct ((Tag <? 16) || (TagMaskByte S <? Tag)); reflexivity.
Qed.

Lemma assignTags_next (S : Settings) (Globals : list GlobalVariable) :
  16 <= TagMaskByte S <= 255 ->
  forall Tag i t t',
    nth_error (map snd (assignTags S Tag Globals)) i = Some t ->
    nth_error (map snd (assignTags S Tag Globals)) (i + 1) = Some t' ->
    t' = if t + 1 <=? TagMaskByte S then t + 1 else 16.
Proof.
  intros Hmask. induction Globals as [| GV rest IH]; intros Tag i t t'.
  - destruct i; discriminate.
  - destruct i as [| i]; simpl.
    + intros [= <-] Hnext.
      apply assignTags_first in Hnext. subst t'.
      set (t := if (Tag <? 16) || (TagMaskByte S <? Tag) then 16 else Tag).
      assert (Ht : 16 <= t <= TagMaskByte S)
        by (subst t; destruct (Z.ltb_spec Tag 16),
                       (Z.ltb_spec (TagMaskByte S) Tag); simpl; lia).
      unfold inGlobalTagRange, wrap8, wrap. change (2 ^ 8) with 256.
      destruct (Z.leb_spec (t + 1) (TagMaskByte S)).
      * rewrite Z.mod_small by lia.
        destruct (Z.ltb_spec (t + 1) 16), (Z.ltb_spec (TagMaskByte S) (t + 1));
          simpl; try reflexivity; lia.
      * assert (t = TagMaskByte S) by lia.
        destruct (Z.eq_dec (TagMaskByte S) 255) as [Hff | Hnff].
        -- replace (t + 1) with 256 by lia. reflexivity.
        -- rewrite Z.mod_small by lia.
           destruct (Z.ltb_spec (t + 1) 16),
             (Z.ltb_spec (TagMaskByte S) (t + 1));
             simpl; try reflexivity; lia.
    + apply IH.
Qed.

(** The names of the objects the pass creates are never the name of
    [llvm.compiler.used]. *)
Lemma storage_name_not_used (n : string) :
  String.eqb (n ++ ".hwasan") kCompilerUsed = false.
Proof.
  apply String.eqb_neq. unfold kCompilerUsed. intros H.
  repeat (destruct n as [| ? n]; cbn [append] in H;
          [discriminate H | first [discriminate H | injection H as _ H]]).
Qed.

Lemma descriptor_name_not_used (n : string) :
  String.eqb (n ++ ".hwasan.descriptor") kCompilerUsed = false.
Proof.
  apply String.eqb_neq. unfold kCompilerUsed. intros H.
  repeat (destruct n as [| ? n]; cbn [append] in H;
          [discriminate H | first [discriminate H | injection H as _ H]]).
Qed.

Lemma descriptors_not_used (fuel : nat) (Name : string)
      (SizeInBytes Tag : Z) :
  forall DescriptorPos,
    filter (fun GV => negb (isCompilerUsed GV))
           (descriptorsFrom fuel Name SizeInBytes Tag DescriptorPos)
    = descriptorsFrom fuel Name SizeInBytes Tag DescriptorPos.
Proof.
  induction fuel as [| fuel IH]; intros DescriptorPos;
    cbn [descriptorsFrom]; [reflexivity |].
  destruct (DescriptorPos <? SizeInBytes); [| reflexivity].
  cbn [filter]. unfold isCompilerUsed at 1. cbn [getName].
  rewrite descriptor_name_not_used. cbn [negb].
  rewrite IH. reflexivity.
Qed.

Lemma created_not_used (S : Settings) (GV : GlobalVariable) (Tag : Z) :
  filter (fun G => negb (isCompilerUsed G))
         (NewGV (instrumentGlobal S GV Tag)
          :: Descriptors (instrumentGlobal S GV Tag))
  = NewGV (instrumentGlobal S GV Tag)
    :: Descriptors (instrumentGlobal S GV Tag).
Proof.
  cbn [filter]. unfold isCompilerUsed at 1.
  change (getName (NewGV (instrumentGlobal S GV Tag)))
    with (getName GV ++ ".hwasan")%string.
  rewrite storage_name_not_used. cbn [negb]. f_equal.
  apply descriptors_not_used.
Qed.

Section GlobalsOfTheModule.

Variable MD5 : string -> list Z.
Variable appendToCompilerUsed
  : list GlobalVariable -> GlobalVariable -> list GlobalVariable.
Hypothesis others_kept : keepsOtherGlobals appendToCompilerUsed.

Local Abbreviation unused := (fun GV => negb (isCompilerUsed GV)).

Lemma createGlobals_kept (T : TaggedGlobal) (Gs : list GlobalVariable) :
  filter unused (createGlobals appendToCompilerUsed Gs T)
  = filter unused Gs ++ filter unused (NewGV T :: Descriptors T).
Proof.
  unfold createGlobals.
  change (NewGV T :: Descriptors T) with ([NewGV T] ++ Descriptors T).
  rewrite filter_app, app_assoc, <- filter_app.
  generalize (Gs ++ [NewGV T]). clear Gs.
  induction (Descriptors T) as [| D Ds IH]; intros Gs; cbn [fold_left].
  - cbn [filter]. rewrite app_nil_r. reflexivity.
  - rewrite IH, others_kept.
    change (D :: Ds) with ([D] ++ Ds).
    rewrite !filter_app, app_assoc. reflexivity.
Qed.

Lemma all_created_kept (S : Settings) (Tagged : list (GlobalVariable * Z))
      (Gs : list GlobalVariable) :
  filter unused
         (fold_left (createGlobals appendToCompilerUsed)
                    (map (fun GT => instrumentGlobal S (fst GT) (snd GT))
                         Tagged) Gs)
  = filter unused Gs
    ++ flat_map (fun T => NewGV T :: Descriptors T)
                (map (fun GT => instrumentGlobal S (fst GT) (snd GT))
                     Tagged).
Proof.
  revert Gs. induction Tagged as [| GT Tagged IH]; intros Gs;
    cbn [map fold_left flat_map].
  - rewrite app_nil_r. reflexivity.
  - rewrite IH, createGlobals_kept, created_not_used, <- app_assoc.
    reflexivity.
Qed.

(** The global variables after a run, [llvm.compiler.used] apart. *)
Lemma instrumentGlobals_kept (S : Settings) (M : Module) :
  filter unused (globals (instrumentGlobals MD5 appendToCompilerUsed S M))
  = filter (fun GV => negb (selectedForTagging GV) && unused GV) (globals M)
    ++ flat_map (fun T => NewGV T :: Descriptors T)
                (map (fun GT => instrumentGlobal S (fst GT) (snd GT))
                     (tagsOfGlobals MD5 S M)).
Proof.
  unfold instrumentGlobals. cbn [globals].
  rewrite all_created_kept. f_equal.
  induction (globals M) as [| GV l IH]; [reflexivity |].
  cbn [filter]. destruct (selectedForTagging GV); cbn [negb andb filter].
  - exact IH.
  - destruct (isCompilerUsed GV); cbn [negb]; rewrite IH; reflexivity.
Qed.

Lemma selected_not_used (GV : GlobalVariable) :
  selectedForTagging GV = true -> isCompilerUsed GV = false.
Proof.
  unfold selectedForTagging, isCompilerUsed.
  destruct (String.eqb_spec (getName GV) kCompilerUsed) as [-> | Hne];
    [| reflexivity].
  change (String.prefix "llvm." kCompilerUsed) with true.
  rewrite orb_true_r.
  destruct (NoHWAddress GV); discriminate.
Qed.

Lemma filter_selected_unused (l : list GlobalVariable) :
  filter selectedForTagging (filter unused l) = filter selectedForTagging l.
Proof.
  induction l as [| GV l IH]; [reflexivity |].
  cbn [filter]. destruct (selectedForTagging GV) eqn:Hsel.
  - rewrite (selected_not_used GV Hsel). cbn [negb filter].
    rewrite Hsel, IH. reflexivity.
  - destruct (isCompilerUsed GV); cbn [negb filter];
      rewrite ?Hsel; exact IH.
Qed.

(** What a run creates is in the module afterwards. *)
Lemma instrumentGlobals_creates (S : Settings) (M : Module)
      (GV : GlobalVariable) (Tag : Z) :
  In (GV, Tag) (tagsOfGlobals MD5 S M) ->
  let M' := instrumentGlobals MD5 appendToCompilerUsed S M in
  In (NewGV (instrumentGlobal S GV Tag)) (globals M')
  /\ (forall D, In D (Descriptors (instrumentGlobal S GV Tag)) ->
                In D (globals M'))
  /\ In (Alias (instrumentGlobal S GV Tag)) (aliases M').
Proof.
  intros HIn M'.
  assert (Hall : forall G,
             In G (NewGV (instrumentGlobal S GV Tag)
                   :: Descriptors (instrumentGlobal S GV Tag)) ->
             In G (globals M')).
  { intros G HG.
    enough (In G (filter unused (globals M')))
      by (apply filter_In in H; tauto).
    unfold M'. rewrite instrumentGlobals_kept.
    apply in_or_app. right. apply in_flat_map.
    exists (instrumentGlobal S GV Tag). split; [| exact HG].
    apply (in_map (fun GT => instrumentGlobal S (fst GT) (snd GT))) in HIn.
    exact HIn. }
  split; [apply Hall; left; reflexivity |].
  split; [intros D HD; apply Hall; right; exact HD |].
  unfold M', instrumentGlobals. cbn [aliases].
  apply in_or_app. right.
  apply (in_map (fun GT => Alias (instrumentGlobal S (fst GT) (snd GT))))
    in HIn.
  rewrite map_map. exact HIn.
Qed.

End GlobalsOfTheModule.

Lemma combine_fst_snd {A B : Type} (l : list (A * B)) :
  combine (map fst l) (map snd l) = l.
Proof.
  induction l as [| [a b] l IH]; [reflexivity |].
  cbn [map combine fst snd]. rewrite IH. reflexivity.
Qed.

Lemma aliasee_offset (S : Settings) (Tag : Z) :
  (PointerTagShift S = 56 /\ TagMaskByte S = 255)
  \/ (PointerTagShift S = 57 /\ TagMaskByte S = 63) ->
  0 <= Tag <= TagMaskByte S ->
  wrap64 (Z.shiftl Tag (PointerTagShift S)) = Tag * 2 ^ PointerTagShift S.
Proof.
  intros Hfield HTag. unfold wrap64, wrap.
  destruct Hfield as [[-> Hm] | [-> Hm]]; rewrite Hm in HTag;
    rewrite Z.shiftl_mul_pow2 by lia; apply Z.mod_small; lia.
Qed.

(** C5: every selected global is instrumented with a tag in
    [16, TagMaskByte]; the first tag is the first byte of the MD5 of the
    module's source file name, or 16 if that byte is out of range; each
    next global gets the next tag, or 16 when the next tag would leave
    the range.  The tag of a global is the one its alias carries at
    [PointerTagShift] and the one its storage object and descriptors are
    created with. *)
Theorem global_tags_sequential (MD5 : string -> list Z)
        (appendToCompilerUsed
           : list GlobalVariable -> GlobalVariable -> list GlobalVariable)
        (Fl : Flags) (T : Triple) (CK R : bool) (M : Module) :
  let S := initializeModule Fl T CK R in
  let M' := instrumentGlobals MD5 appendToCompilerUsed S M in
  let Selected := filter selectedForTagging (globals M) in
  let Tags := map snd (tagsOfGlobals MD5 S M) in
  let Seed := nth 0 (MD5 (getSourceFileName M)) 0 mod 2 ^ 8 in
  map fst (tagsOfGlobals MD5 S M) = Selected
  /\ Forall (fun t => 16 <= t <= TagMaskByte S) Tags
  /\ (forall t, nth_error Tags 0 = Some t ->
                t = if (16 <=? Seed) && (Seed <=? TagMaskByte S)
                    then Seed else 16)
  /\ (forall i t t',
         nth_error Tags i = Some t -> nth_error Tags (i + 1) = Some t' ->
         t' = if t + 1 <=? TagMaskByte S then t + 1 else 16)
  /\ aliases M'
     = aliases M
       ++ map (fun GT =>
                 mkGlobalAlias (getName (fst GT))
                               (getName (fst GT) ++ ".hwasan")
                               (snd GT * 2 ^ PointerTagShift S)
                               (getLinkage (fst GT)))
              (combine Selected Tags)
  /\ (keepsOtherGlobals appendToCompilerUsed ->
      forall GV t, In (GV, t) (combine Selected Tags) ->
        In (NewGV (instrumentGlobal S GV t)) (globals M')
        /\ forall D, In D (Descriptors (instrumentGlobal S GV t)) ->
                     In D (globals M')).
Proof.
  intros S M' Selected Tags Seed.
  assert (Hmask : 16 <= TagMaskByte S <= 255)
    by (subst S; simpl; destruct (isX86_64 T); simpl; lia).
  assert (Hfield : (PointerTagShift S = 56 /\ TagMaskByte S = 255)
                   \/ (PointerTagShift S = 57 /\ TagMaskByte S = 63))
    by (subst S; simpl; destruct (isX86_64 T); simpl; auto).
  assert (Hfst : map fst (tagsOfGlobals MD5 S M) = Selected)
    by apply assignTags_globals.
  assert (Hrange : Forall (fun t => 16 <= t <= TagMaskByte S) Tags)
    by (apply assignTags_range; lia).
  assert (Hpairs : combine Selected Tags = tagsOfGlobals MD5 S M).
  { rewrite <- Hfst. apply combine_fst_snd. }
  split; [exact Hfst |]. split; [exact Hrange |]. split; [| split; [| split]].
  - intros t Ht. apply assignTags_first in Ht. subst t.
    unfold inGlobalTagRange. fold Seed.
    change (firstTag MD5 M) with Seed.
    destruct (Z.ltb_spec Seed 16), (Z.ltb_spec (TagMaskByte S) Seed),
      (Z.leb_spec 16 Seed), (Z.leb_spec Seed (TagMaskByte S));
      try reflexivity; lia.
  - intros i t t'. apply assignTags_next. exact Hmask.
  - unfold M', instrumentGlobals. cbn [aliases]. f_equal.
    rewrite Hpairs, map_map.
    apply map_ext_in. intros [GV t] HIn. cbn [fst snd].
    unfold instrumentGlobal. cbn [Alias]. f_equal.
    apply aliasee_offset; [exact Hfield |].
    assert (Ht : In t Tags) by (apply (in_map snd) in HIn; exact HIn).
    pose proof (proj1 (Forall_forall _ _) Hrange t Ht) as Hin.
    cbv beta in Hin. lia.
  - intros Hkept GV t HIn. rewrite Hpairs in HIn.
    destruct (instrumentGlobals_creates MD5 appendToCompilerUsed Hkept
                S M GV t HIn) as (Hstorage & Hdescr & _).
    split; assumption.
Qed.

(** [appendToCompilerUsed] as the library has it keeps the other
    globals. *)
Lemma appendToUsedList_keeps : keepsOtherGlobals appendToUsedList.
Proof.
  intros Gs D. unfold appendToUsedList.
  rewrite filter_app. cbn [filter].
  change (isCompilerUsed (mkGlobalVariable kCompilerUsed _ _ _ _ _ _ _ _))
    with true.
  cbn [negb]. rewrite app_nil_r.
  induction Gs as [| G Gs IH]; [reflexivity |].
  cbn [filter]. destruct (isCompilerUsed G) eqn:HG; cbn [negb filter].
  - exact IH.
  - rewrite HG. cbn [negb]. rewrite IH. reflexivity.
Qed.

(** One global on AArch64 with a digest that starts with 90. *)
Lemma global_tags_sequential_witness :
  let S := initializeModule defaultFlags linux_aarch64 false false in
  let M' := instrumentGlobals (fun _ => [90]) appendToUsedList S oneGlobal in
  In (NewGV (instrumentGlobal S (wordGlobal "g") 90)) (globals M').
Proof.
  intros S M'.
  refine (proj1 (proj2 (proj2 (proj2 (proj2 (proj2
            (global_tags_sequential (fun _ => [90]) appendToUsedList
               defaultFlags linux_aarch64 false false oneGlobal)))))
            _ (wordGlobal "g") 90 _)).
  - exact appendToUsedList_keeps.
  - left. reflexivity.
Defined.

(** Wrap-around on both tag widths, for digests that start with 62 and
    with 254. *)
Example global_tags_wrap :
  map snd (tagsOfGlobals (fun _ => [62])
             (initializeModule defaultFlags linux_x86_64 false false)
             fourGlobals) = [62; 63; 16; 17]
  /\ map snd (tagsOfGlobals (fun _ => [254])
                (initializeModule defaultFlags linux_aarch64 false false)
                fourGlobals) = [254; 255; 16; 17]
  /\ map snd (tagsOfGlobals (fun _ => [7])
                (initializeModule defaultFlags linux_aarch64 false false)
                fourGlobals) = [16; 17; 18; 19].
Proof. vm_compute. repeat split. Qed.

(** ** Running the global tagging again *)

(** The descriptor loop stops at its own test: more fuel changes
    nothing. *)
Lemma descriptorsFrom_fuel (Name : string) (SizeInBytes Tag : Z) :
  SizeInBytes <= 2 ^ 63 ->
  forall fuel DescriptorPos extra,
    0 <= DescriptorPos ->
    SizeInBytes - DescriptorPos <= Z.of_nat fuel * MaxDescriptorSize ->
    descriptorsFrom (fuel + extra) Name SizeInBytes Tag DescriptorPos
    = descriptorsFrom fuel Name SizeInBytes Tag DescriptorPos.
Proof.
  intros Hbig. unfold MaxDescriptorSize.
  induction fuel as [| fuel IH]; intros DescriptorPos extra Hpos Hleft.
  - destruct extra as [| extra]; [reflexivity |].
    cbn [Nat.add descriptorsFrom].
    destruct (Z.ltb_spec DescriptorPos SizeInBytes); [lia | reflexivity].
  - cbn [Nat.add descriptorsFrom].
    destruct (Z.ltb_spec DescriptorPos SizeInBytes); [| reflexivity].
    f_equal.
    assert (Hnext : wrap64 (DescriptorPos + MaxDescriptorSize)
                    = DescriptorPos + 0xfffff0)
      by (unfold wrap64, wrap, MaxDescriptorSize; apply Z.mod_small; lia).
    rewrite Hnext. apply IH; lia.
Qed.

Lemma descriptors_fuel_enough (SizeInBytes : Z) :
  0 <= SizeInBytes ->
  SizeInBytes - 0
  <= Z.of_nat (Z.to_nat (SizeInBytes / MaxDescriptorSize + 1))
     * MaxDescriptorSize.
Proof.
  intros Hsize. unfold MaxDescriptorSize.
  pose proof (Z.div_pos SizeInBytes 0xfffff0 Hsize ltac:(lia)).
  rewrite Z2Nat.id by lia.
  pose proof (Z.div_mod SizeInBytes 0xfffff0 ltac:(lia)).
  pose proof (Z.mod_pos_bound SizeInBytes 0xfffff0 ltac:(lia)).
  lia.
Qed.

Lemma sectioned_not_selected (GV : GlobalVariable) :
  hasSection GV = true -> selectedForTagging GV = false.
Proof.
  intros Hsec. unfold selectedForTagging. rewrite Hsec.
  destruct (NoHWAddress GV),
    (isDeclarationForLinker GV || String.prefix "llvm." (getName GV)
     || isThreadLocal GV), (hasCommonLinkage GV); reflexivity.
Qed.

Lemma descriptors_not_selected (fuel : nat) (Name : string)
      (SizeInBytes Tag : Z) :
  forall DescriptorPos,
    filter selectedForTagging
           (descriptorsFrom fuel Name SizeInBytes Tag DescriptorPos) = [].
Proof.
  induction fuel as [| fuel IH]; intros DescriptorPos;
    cbn [descriptorsFrom]; [reflexivity |].
  destruct (DescriptorPos <? SizeInBytes); [| reflexivity].
  cbn [filter]. rewrite sectioned_not_selected by reflexivity.
  apply IH.
Qed.

(** The storage object inherits everything the filter looks at, except
    its name. *)
Lemma storage_selected (S : Settings) (GV : GlobalVariable) (Tag : Z) :
  selectedForTagging GV = true ->
  selectedForTagging (NewGV (instrumentGlobal S GV Tag))
  = negb (String.prefix "llvm." (getName GV ++ ".hwasan")).
Proof.
  unfold selectedForTagging, isDeclarationForLinker, hasCommonLinkage,
    hasSection.
  simpl.
  destruct (NoHWAddress GV); [discriminate |].
  destruct (getInitializer GV) as [C |];
    [| destruct (getLinkage GV); discriminate].
  destruct (isThreadLocal GV);
    [rewrite !orb_true_r; discriminate |].
  destruct (getSection GV);
    [destruct (getLinkage GV), (String.prefix "llvm." (getName GV));
     discriminate |].
  intros _.
  destruct (getTypeAllocSize C
            =? alignTo (getTypeAllocSize C) (getObjectAlignment (Mapping S)));
    destruct (String.prefix "llvm." (getName GV ++ ".hwasan"));
    reflexivity.
Qed.

Lemma prefix_app (s1 s2 s3 : string) :
  (String.length s1 <= String.length s2)%nat ->
  String.prefix s1 (s2 ++ s3) = String.prefix s1 s2.
Proof.
  revert s2. induction s1 as [| c s1 IH]; intros s2 Hlen.
  - destruct s2; simpl; [destruct s3 |]; reflexivity.
  - destruct s2 as [| d s2]; simpl in *; [inversion Hlen |].
    destruct (Ascii.ascii_dec c d); [apply IH; apply le_S_n; exact Hlen |].
    reflexivity.
Qed.

(** A tagged global with a name of five characters or more leaves a
    storage object that the filter accepts again. *)
Lemma storage_selected_again (S : Settings) (GV : GlobalVariable) (Tag : Z) :
  selectedForTagging GV = true ->
  (5 <= String.length (getName GV))%nat ->
  selectedForTagging (NewGV (instrumentGlobal S GV Tag)) = true.
Proof.
  intros Hsel Hlen. rewrite storage_selected by exact Hsel.
  rewrite prefix_app by exact Hlen.
  unfold selectedForTagging in Hsel.
  destruct (NoHWAddress GV); [discriminate |].
  destruct (String.prefix "llvm." (getName GV)); [| reflexivity].
  rewrite orb_true_r in Hsel. discriminate.
Qed.

Lemma filter_filter_negb {A : Type} (f : A -> bool) (l : list A) :
  filter f (filter (fun x => negb (f x)) l) = [].
Proof.
  induction l as [| x l IH]; simpl; [reflexivity |].
  destruct (f x) eqn:Hfx; simpl; [exact IH |].
  rewrite Hfx. exact IH.
Qed.

Lemma tagged_selected (S : Settings) (Globals : list GlobalVariable) :
  Forall (fun GV => selectedForTagging GV = true) Globals ->
  forall Tag,
    filter selectedForTagging
      (flat_map (fun T => NewGV T :: Descriptors T)
         (map (fun GT => instrumentGlobal S (fst GT) (snd GT))
              (assignTags S Tag Globals)))
    = filter (fun GV => negb (String.prefix "llvm." (getName GV)))
        (map (fun GT => NewGV (instrumentGlobal S (fst GT) (snd GT)))
             (assignTags S Tag Globals)).
Proof.
  induction 1 as [| GV rest Hsel _ IH]; intros Tag; [reflexivity |].
  cbn [assignTags map flat_map fst snd].
  set (Tag' := if (Tag <? 16) || (TagMaskByte S <? Tag) then 16 else Tag).
  change ((NewGV (instrumentGlobal S GV Tag')
           :: Descriptors (instrumentGlobal S GV Tag')) ++ ?l)
    with (NewGV (instrumentGlobal S GV Tag')
          :: (Descriptors (instrumentGlobal S GV Tag') ++ l)).
  cbn [filter].
  rewrite (storage_selected S GV Tag' Hsel).
  change (getName (NewGV (instrumentGlobal S GV Tag')))
    with (getName GV ++ ".hwasan")%string.
  rewrite filter_app.
  change (Descriptors (instrumentGlobal S GV Tag'))
    with (descriptorsFrom
            (Z.to_nat
               (match getInitializer GV with
                | Some C => getTypeAllocSize C
                | None => 0
                end / MaxDescriptorSize + 1))
            (getName GV)
            (match getInitializer GV with
             | Some C => getTypeAllocSize C
             | None => 0
             end) Tag' 0).
  rewrite descriptors_not_selected. cbn [app].
  rewrite IH. reflexivity.
Qed.

Lemma skipped_not_selected (l : list GlobalVariable) :
  filter selectedForTagging
         (filter (fun GV => negb (selectedForTagging GV)
                            && negb (isCompilerUsed GV)) l) = [].
Proof.
  induction l as [| GV l IH]; [reflexivity |].
  cbn [filter]. destruct (selectedForTagging GV) eqn:Hsel;
    cbn [negb andb]; [exact IH |].
  destruct (isCompilerUsed GV); cbn [negb filter];
    rewrite ?Hsel; exact IH.
Qed.

Lemma descriptors_empty (S : Settings) (GV : GlobalVariable) (Tag : Z)
      (C : Constant) :
  getInitializer GV = Some C ->
  (Descriptors (instrumentGlobal S GV Tag) = [] <-> getTypeAllocSize C = 0).
Proof.
  intros HC. unfold instrumentGlobal. cbn [Descriptors]. rewrite HC.
  assert (Hsize : 0 <= getTypeAllocSize C).
  { clear. induction C as [Init | G P ST | C IH Padding | Elements];
      cbn [getTypeAllocSize]; lia. }
  assert (Hfuel : Z.to_nat (getTypeAllocSize C / MaxDescriptorSize + 1)
                  = Datatypes.S
                      (Z.to_nat (getTypeAllocSize C / MaxDescriptorSize))).
  { unfold MaxDescriptorSize.
    pose proof (Z.div_pos (getTypeAllocSize C) 0xfffff0 Hsize ltac:(lia)).
    rewrite Z2Nat.inj_add by lia. rewrite Nat.add_comm. reflexivity. }
  rewrite Hfuel. cbn [descriptorsFrom].
  destruct (Z.ltb_spec 0 (getTypeAllocSize C)).
  - split; [discriminate | lia].
  - split; [lia | reflexivity].
Qed.

(** C7 (as amended): on a module the global tagging has rewritten, a
    second run leaves alone the globals the first run skipped and the
    descriptors, and the aliases that replaced the original symbols are
    not global variables at all; but it selects the renamed storage
    objects again, all those whose new name does not start with "llvm.".
    For each of them it creates an alias that takes its name and a new
    storage object, and descriptors unless its size is zero.  The module
    is left unchanged exactly when nothing is selected. *)
Theorem instrumentGlobals_second_run (MD5 : string -> list Z)
        (appendToCompilerUsed
           : list GlobalVariable -> GlobalVariable -> list GlobalVariable)
        (S : Settings) (M : Module) :
  keepsOtherGlobals appendToCompilerUsed ->
  let M' := instrumentGlobals MD5 appendToCompilerUsed S M in
  let M'' := instrumentGlobals MD5 appendToCompilerUsed S M' in
  let Storage :=
    map (fun GT => NewGV (instrumentGlobal S (fst GT) (snd GT)))
        (tagsOfGlobals MD5 S M) in
  let Again := filter selectedForTagging (globals M') in
  Again = filter (fun GV => negb (String.prefix "llvm." (getName GV))) Storage
  /\ (forall GV Tag,
         In (GV, Tag) (tagsOfGlobals MD5 S M) ->
         (5 <= String.length (getName GV))%nat ->
         In (NewGV (instrumentGlobal S GV Tag)) Again)
  /\ (exists Created,
         aliases M'' = aliases M' ++ Created
         /\ map AliasName Created = map getName Again
         /\ map Aliasee Created
            = map (fun GV => getName GV ++ ".hwasan")%string Again)
  /\ (forall GV, In GV Again ->
       exists Tag C,
         getInitializer GV = Some C
         /\ In (NewGV (instrumentGlobal S GV Tag)) (globals M'')
         /\ getName (NewGV (instrumentGlobal S GV Tag))
            = (getName GV ++ ".hwasan")%string
         /\ (forall D, In D (Descriptors (instrumentGlobal S GV Tag)) ->
                       In D (globals M''))
         /\ (Descriptors (instrumentGlobal S GV Tag) = []
             <-> getTypeAllocSize C = 0))
  /\ (M'' = M' <-> Again = []).
Proof.
  intros Hkept M' M'' Storage Again.
  assert (Hall : Forall (fun GV => selectedForTagging GV = true)
                        (filter selectedForTagging (globals M))).
  { apply Forall_forall. intros GV HGV. apply filter_In in HGV. tauto. }
  assert (Hfirst : Again
                   = filter (fun GV => negb (String.prefix "llvm." (getName GV)))
                            Storage).
  { unfold Again, M'.
    rewrite <- filter_selected_unused.
    rewrite (instrumentGlobals_kept MD5 appendToCompilerUsed Hkept).
    rewrite filter_app.
    rewrite skipped_not_selected. cbn [app].
    apply tagged_selected. exact Hall. }
  assert (Hpairs : map fst (tagsOfGlobals MD5 S M') = Again)
    by apply assignTags_globals.
  assert (Hcreated :
            aliases M''
            = aliases M'
              ++ map (fun GT => Alias (instrumentGlobal S (fst GT) (snd GT)))
                     (tagsOfGlobals MD5 S M')).
  { unfold M'' at 1, instrumentGlobals. cbn [aliases].
    rewrite map_map. reflexivity. }
  split; [exact Hfirst |]. split; [| split; [| split]].
  - intros GV Tag HIn Hlen. rewrite Hfirst.
    assert (HGV : selectedForTagging GV = true).
    { assert (HInG : In GV (map fst (tagsOfGlobals MD5 S M)))
        by (apply (in_map fst) in HIn; exact HIn).
      unfold tagsOfGlobals in HInG. rewrite assignTags_globals in HInG.
      apply filter_In in HInG. tauto. }
    apply filter_In. split.
    + unfold Storage.
      apply (in_map (fun GT => NewGV (instrumentGlobal S (fst GT) (snd GT))))
        in HIn. exact HIn.
    + change (getName (NewGV (instrumentGlobal S GV Tag)))
        with (getName GV ++ ".hwasan")%string.
      rewrite prefix_app by exact Hlen.
      unfold selectedForTagging in HGV.
      destruct (NoHWAddress GV); [discriminate |].
      destruct (String.prefix "llvm." (getName GV)); [| reflexivity].
      rewrite orb_true_r in HGV. discriminate.
  - eexists. split; [exact Hcreated |].
    rewrite <- Hpairs, !map_map. split; reflexivity.
  - intros GV HGV.
    assert (Hsel : selectedForTagging GV = true)
      by (apply filter_In in HGV; tauto).
    rewrite <- Hpairs in HGV. apply in_map_iff in HGV.
    destruct HGV as ([GV' Tag] & HGV' & HIn). cbn [fst] in HGV'. subst GV'.
    assert (HC : exists C, getInitializer GV = Some C).
    { unfold selectedForTagging, isDeclarationForLinker in Hsel.
      destruct (NoHWAddress GV); [discriminate |].
      destruct (getInitializer GV) as [C |]; [exists C; reflexivity |].
      destruct (getLinkage GV); discriminate. }
    destruct HC as [C HC]. exists Tag, C.
    destruct (instrumentGlobals_creates MD5 appendToCompilerUsed Hkept
                S M' GV Tag HIn) as (Hstorage & Hdescr & _).
    split; [exact HC |]. split; [exact Hstorage |].
    split; [reflexivity |]. split; [exact Hdescr |].
    apply descriptors_empty. exact HC.
  - split.
    + intros Hsame.
      assert (Hnil : map (fun GT => Alias (instrumentGlobal S (fst GT) (snd GT)))
                         (tagsOfGlobals MD5 S M') = []).
      { apply (app_inv_head (aliases M')).
        rewrite app_nil_r, <- Hcreated, Hsame. reflexivity. }
      rewrite <- Hpairs.
      destruct (tagsOfGlobals MD5 S M'); [reflexivity | discriminate Hnil].
    + intros Hnone. unfold M'' , instrumentGlobals, tagsOfGlobals.
      fold Again. rewrite Hnone. cbn [assignTags map fold_left].
      rewrite !app_nil_r.
      assert (Hkeep : filter (fun GV => negb (selectedForTagging GV))
                             (globals M') = globals M').
      { unfold Again in Hnone. clear - Hnone.
        induction (globals M') as [| GV l IH]; [reflexivity |].
        simpl in *. destruct (selectedForTagging GV); [discriminate |].
        simpl. rewrite IH by exact Hnone. reflexivity. }
      rewrite Hkeep. destruct M'; reflexivity.
Qed.

(** The one global of the example, run twice. *)
Lemma instrumentGlobals_second_run_witness :
  let S := initializeModule defaultFlags linux_aarch64 false false in
  let M' := instrumentGlobals (fun _ => [90]) appendToUsedList S oneGlobal in
  map getName (filter selectedForTagging (globals M'))
  = ["g.hwasan"]%string.
Proof.
  intros S M'.
  refine (eq_trans
            (f_equal (map getName)
               (proj1 (instrumentGlobals_second_run
                         (fun _ => [90]) appendToUsedList S oneGlobal
                         appendToUsedList_keeps))) _).
  reflexivity.
Defined.

(** C7 as stated fails as soon as one global was tagged: the second run
    selects the storage object [g.hwasan] and wraps it once more. *)
Lemma instrumentGlobals_twice_counterexample :
  let S := initializeModule defaultFlags linux_aarch64 false false in
  let M' := instrumentGlobals (fun _ => [90]) appendToUsedList S oneGlobal in
  let M'' := instrumentGlobals (fun _ => [90]) appendToUsedList S M' in
  map getName (globals M')
  = ["g.hwasan"; "g.hwasan.descriptor"; "llvm.compiler.used"]%string
  /\ map AliasName (aliases M') = ["g"]%string
  /\ map getName (filter selectedForTagging (globals M'))
     = ["g.hwasan"]%string
  /\ map getName (globals M'')
     = ["g.hwasan.descriptor"; "g.hwasan.hwasan";
        "g.hwasan.hwasan.descriptor"; "llvm.compiler.used"]%string
  /\ map AliasName (aliases M'') = ["g"; "g.hwasan"]%string
  /\ M'' <> M'.
Proof.
  vm_compute. repeat split. intros H. discriminate H.
Qed.

(** ** Functions the pass leaves alone *)

Lemma PersonalityFns_skip (F : Function) (Fs1 Fs2 : list Function) :
  personalityGroup F = None ->
  forall seen,
    PersonalityFns (Fs1 ++ F :: Fs2) seen = PersonalityFns (Fs1 ++ Fs2) seen.
Proof.
  intros Hskip. induction Fs1 as [| G Fs1 IH]; intros seen; simpl.
  - rewrite Hskip. reflexivity.
  - destruct (personalityGroup G) as [P |]; [| apply IH].
    destruct (existsb (sameGroup P) seen); [apply IH |].
    rewrite IH. reflexivity.
Qed.

(** C9: a function without the [sanitize_hwaddress] attribute, and the
    module constructor of the pass, come out of [sanitizeFunction] as they
    went in; a function without the attribute joins no personality group,
    so it keeps its personality routine and body, and no thunk is made on
    its account. *)
Theorem unsanitized_function_untouched
        (Fl : Flags) (S : Settings) (HwasanCtorFunction : option string)
        (SSI : bool) (AllocasToInstrument : Function -> list Z)
        (instrumentStack : list Z -> list Item -> list Item)
        (F : Function) :
  SanitizeHWAddress F = false \/ HwasanCtorFunction = Some (FnName F) ->
  sanitizeFunction Fl S HwasanCtorFunction SSI AllocasToInstrument
                   instrumentStack F = Some F
  /\ (SanitizeHWAddress F = false ->
      forall Fs1 Fs2,
        fst (instrumentPersonalityFunctions (Fs1 ++ F :: Fs2))
        = fst (instrumentPersonalityFunctions Fs1)
          ++ F :: fst (instrumentPersonalityFunctions Fs2)
        /\ snd (instrumentPersonalityFunctions (Fs1 ++ F :: Fs2))
           = snd (instrumentPersonalityFunctions (Fs1 ++ Fs2))).
Proof.
  intros Hguard. split.
  - unfold sanitizeFunction.
    destruct Hguard as [Hattr | Hctor].
    + destruct HwasanCtorFunction as [Ctor |].
      * destruct (String.eqb (FnName F) Ctor); [reflexivity |].
        rewrite Hattr. reflexivity.
      * rewrite Hattr. reflexivity.
    + rewrite Hctor, String.eqb_refl. reflexivity.
  - intros Hattr Fs1 Fs2.
    assert (Hskip : personalityGroup F = None).
    { unfold personalityGroup. rewrite Hattr.
      rewrite orb_true_r. reflexivity. }
    unfold instrumentPersonalityFunctions. cbn [fst snd]. split.
    + rewrite map_app. cbn [map]. rewrite Hskip. reflexivity.
    + rewrite (PersonalityFns_skip F Fs1 Fs2 Hskip). reflexivity.
Qed.

(** A function without the attribute, though it has an allocation and a
    load the pass would otherwise instrument. *)
Lemma unsanitized_function_untouched_witness :
  sanitizeFunction defaultFlags
    (initializeModule defaultFlags linux_aarch64 false false)
    (Some kHwasanModuleCtorName) true (fun _ => [16]) (fun _ B => B)
    plainFunction = Some plainFunction.
Proof.
  refine (proj1 (unsanitized_function_untouched
                   defaultFlags
                   (initializeModule defaultFlags linux_aarch64 false false)
                   (Some kHwasanModuleCtorName) true (fun _ => [16])
                   (fun _ B => B) plainFunction _)).
  left. reflexivity.
Defined.

(** The same body with the attribute is instrumented, and its function
    gets a thunk. *)
Example sanitized_function_changes :
  let S := initializeModule defaultFlags linux_aarch64 false false in
  sanitizeFunction defaultFlags S (Some kHwasanModuleCtorName) true
                   (fun _ => []) (fun _ B => B) sanitizedFunction
  = Some (mkFunction "checked" true false false
            (Some "__gxx_personality_v0"%string)
            (Ins (Prologue false)
             :: Ins (CheckMemAccessOutline true 1 false 2) :: loadAndReturn))
  /\ instrumentPersonalityFunctions [plainFunction; sanitizedFunction]
     = ([plainFunction;
         mkFunction "checked" true false false
           (Some "__hwasan_personality_thunk.__gxx_personality_v0"%string)
           loadAndReturn],
        [mkThunk "__hwasan_personality_thunk.__gxx_personality_v0"
                 (TailCallPersonalityWrapper
                    (Some "__gxx_personality_v0"%string))]).
Proof. vm_compute. split; reflexivity. Qed.

(** ** Masked accesses *)

(** The operands the pass collects itself never carry a mask. *)
Lemma collected_operands_unmasked
      (Fl : Flags) (S : Settings) (SSI : bool) (Insn : Inst) :
  Forall (fun O => MaybeMask O = None)
         (getInterestingMemoryOperands Fl S SSI Insn).
Proof.
  unfold getInterestingMemoryOperands.
  destruct (hasNoSanitizeMetadata Insn); [constructor |].
  destruct (Op Insn), (Refs Insn) as [| R Rs];
    repeat match goal with
           | |- context [if ?c then _ else _] => destruct c
           end;
    try (repeat constructor; fail);
    apply Forall_forall; intros O HO; apply in_flat_map in HO;
    destruct HO as (R' & _ & HO);
    repeat match type of HO with
           | context [if ?c then _ else _] => destruct c
           end;
    simpl in HO; try contradiction;
    destruct HO as [<- | []]; reflexivity.
Qed.

(** C10: for an operand that carries a mask, [instrumentMemAccess]
    returns false, emits nothing and leaves the pointer operand alone,
    whatever the settings and the instruction. *)
Theorem instrumentMemAccess_masked (S : Settings) (Op : Opcode)
        (O : InterestingMemoryOperand) :
  MaybeMask O <> None ->
  instrumentMemAccess S Op O = Some (mkAccessInstrumentation false [] false).
Proof.
  intros Hmask. unfold instrumentMemAccess.
  destruct (MaybeMask O) as [Mask |]; [reflexivity | contradiction].
Qed.

Lemma instrumentMemAccess_masked_witness :
  instrumentMemAccess
    (initializeModule defaultFlags linux_aarch64 false false) Store maskedStore
  = Some (mkAccessInstrumentation false [] false).
Proof.
  apply (instrumentMemAccess_masked
           (initializeModule defaultFlags linux_aarch64 false false)
           Store maskedStore).
  discriminate.
Defined.

(** Without the mask the same store is checked. *)
Example instrumentMemAccess_unmasked :
  instrumentMemAccess
    (initializeModule defaultFlags linux_aarch64 false false) Store
    (mkOperand true 128 false (Some 16) None 3)
  = Some (mkAccessInstrumentation
            true [CheckMemAccessOutline true 3 true 4] false).
Proof. reflexivity. Qed.

(* ================================================================== *)
(** * Further properties of the pass *)

(** ** Tags of neighbouring allocations *)

Lemma lxor_cancel_l (a b c : Z) : Z.lxor a b = Z.lxor a c -> b = c.
Proof.
  intros H.
  rewrite <- (Z.lxor_0_l b), <- (Z.lxor_0_l c), <- (Z.lxor_nilpotent a).
  rewrite !Z.lxor_assoc, H. reflexivity.
Qed.

Lemma FastMasks_in64 (i : nat) : wrap64 (nth i FastMasks 0) = nth i FastMasks 0.
Proof.
  unfold wrap64, wrap. apply Z.mod_small.
  do 37 (destruct i as [| i]; [vm_compute; split; [discriminate | reflexivity] |]).
  destruct i; vm_compute; split; (discriminate || reflexivity).
Qed.

(** X1: two allocations of one function get the same tag from the same
    base tag exactly when their indices agree modulo the cycle, 64 on
    x86_64 and 36 elsewhere; inside one cycle all tags differ. *)
Theorem getAllocaTag_collision (Fl : Flags) (T : Triple) (CK R : bool)
        (StackTag N N' : Z) :
  let S := initializeModule Fl T CK R in
  let cycle := if isX86_64 T then 64 else 36 in
  getAllocaTag S StackTag N = getAllocaTag S StackTag N'
  <-> N mod cycle = N' mod cycle.
Proof.
  intros S cycle. unfold getAllocaTag.
  destruct (isX86_64 T) eqn:HT; subst cycle.
  - rewrite !(retagMask_x86_64 Fl T CK R _ HT).
    change (TagMaskByte (initializeModule Fl T CK R))
      with (tagMaskByteFor (isX86_64 T)).
    rewrite HT. unfold tagMaskByteFor.
    change 63 with (Z.ones 6). rewrite !Z.land_ones by lia.
    change (2 ^ 6) with 64.
    assert (Hw : forall x, wrap64 (x mod 64) = x mod 64).
    { intros x. unfold wrap64, wrap. apply Z.mod_small.
      pose proof (Z.mod_pos_bound x 64). lia. }
    rewrite !Hw. split.
    + apply lxor_cancel_l.
    + intros ->. reflexivity.
  - assert (HS : isX86_64 (TargetTriple S) = false) by exact HT.
    rewrite !(retagMask_table S _ HS), !FastMasks_in64.
    split.
    + intros H. apply lxor_cancel_l in H.
      pose proof (Z.mod_pos_bound N 36 ltac:(lia)) as HN.
      pose proof (Z.mod_pos_bound N' 36 ltac:(lia)) as HN'.
      assert (Hi : Z.to_nat (N mod 36) = Z.to_nat (N' mod 36)).
      { apply (proj1 (NoDup_nth FastMasks 0) FastMasks_distinct);
          rewrite ?FastMasks_length; solve [lia | exact H]. }
      lia.
    + intros ->. reflexivity.
Qed.

(** ** Untagging an allocation *)

(** Pointwise reasoning about [fill] and [poke]: split every comparison
    and leave the arithmetic to [lia]. *)
Ltac pointwise :=
  unfold poke, fill;
  repeat match goal with
         | |- context [?i =? ?k] => destruct (Z.eqb_spec i k)
         | |- context [(0 <=? ?i) && (?i <? ?n)] =>
             destruct (Z.leb_spec 0 i), (Z.ltb_spec i n)
         end;
  simpl; try reflexivity; try lia.

Lemma ceil16 (Size : Z) :
  0 <= Size ->
  (Size + 15) / 16 = Size / 16 + (if Size mod 16 =? 0 then 0 else 1).
Proof.
  intros HSize.
  pose proof (Z.div_mod Size 16 ltac:(lia)).
  pose proof (Z.mod_pos_bound Size 16 ltac:(lia)).
  destruct (Z.eqb_spec (Size mod 16) 0).
  - symmetry. apply (Z.div_unique _ _ _ 15); lia.
  - symmetry. apply (Z.div_unique _ _ _ (Size mod 16 - 1)); lia.
Qed.

(** X2: untagging ([tagAlloca] with the use-after-return tag and the
    aligned size, as [TagEnd] calls it) after tagging overwrites every
    shadow byte of the allocation, the short granule's remainder byte
    included, touches no other shadow byte, and never writes into the
    allocation itself: the tag copy in its last byte stays behind. *)
Theorem tagAlloca_then_untag
        (tag_memory : Z -> Z -> AllocaMemory -> AllocaMemory)
        (Fl : Flags) (T : Triple) (CK R : bool) (Tag UARTag Size : Z)
        (m : AllocaMemory) :
  let S := initializeModule Fl T CK R in
  let AlignedSize := alignTo Size (getObjectAlignment (Mapping S)) in
  let m1 := runTagStores tag_memory m (tagAlloca S Tag Size) in
  let m2 := runTagStores tag_memory m1 (tagAlloca S UARTag AlignedSize) in
  InstrumentWithCalls S = false ->
  0 <= Size <= 2 ^ 31 ->
  AlignedSize mod 16 = 0
  /\ Size <= AlignedSize < Size + 16
  /\ (forall i, 0 <= i < AlignedSize / 16 -> shadowAt m2 i = UARTag mod 256)
  /\ (forall i, ~ 0 <= i < AlignedSize / 16 -> shadowAt m2 i = shadowAt m i)
  /\ (forall i, objectAt m2 i = objectAt m1 i).
Proof.
  intros S AlignedSize m1 m2 HCalls HSize.
  destruct (settings_granule Fl T CK R) as [HScale Hg].
  fold S in HScale, Hg.
  pose proof (Z.div_mod Size 16 ltac:(lia)) as Hdm.
  pose proof (Z.mod_pos_bound Size 16 ltac:(lia)) as Hr.
  assert (Hq : 0 <= Size / 16) by (apply Z.div_pos; lia).
  pose proof (ceil16 Size ltac:(lia)) as Hceil.
  assert (HA : AlignedSize = (Size + 15) / 16 * 16)
    by (unfold AlignedSize; rewrite Hg; apply alignTo_16; exact HSize).
  assert (HAdiv : AlignedSize / 16 = (Size + 15) / 16)
    by (rewrite HA; apply Z.div_mul; lia).
  assert (HAmod : AlignedSize mod 16 = 0)
    by (rewrite HA; apply Z.mod_mul; lia).
  assert (HAbound : Size <= AlignedSize < Size + 16)
    by (rewrite HA, Hceil; destruct (Z.eqb_spec (Size mod 16) 0); lia).
  assert (HAok : 0 <= AlignedSize <= 2 ^ 31).
  { pose proof (Z.div_mod AlignedSize 16 ltac:(lia)). lia. }
  assert (HAA : (AlignedSize + 15) / 16 * 16 = AlignedSize).
  { rewrite (ceil16 AlignedSize) by lia. rewrite HAmod. simpl.
    pose proof (Z.div_mod AlignedSize 16 ltac:(lia)). lia. }
  (* the stores of the two calls *)
  assert (H2 : tagAlloca S UARTag AlignedSize
               = (if AlignedSize / 16 =? 0 then []
                  else [MemSetShadow (UARTag mod 256) (AlignedSize / 16)])).
  { rewrite (tagAlloca_inline S UARTag AlignedSize HScale HCalls HAok).
    rewrite HAA.
    destruct (UseShortGranules S); rewrite Z.eqb_refl, app_nil_r;
      reflexivity. }
  assert (H1 : forall i, ~ 0 <= i < AlignedSize / 16 ->
                         shadowAt m1 i = shadowAt m i).
  { intros i Hi. unfold m1.
    rewrite (tagAlloca_inline S Tag Size HScale HCalls HSize).
    rewrite <- HA.
    destruct (UseShortGranules S).
    - destruct (Z.eqb_spec Size AlignedSize) as [Heq | Hne].
      + rewrite app_nil_r.
        destruct (Z.eqb_spec (Size / 16) 0); simpl; [reflexivity |].
        rewrite Heq. pointwise.
      + assert (Hidx : signed32 (wrap32 (Size / 16)) = Size / 16)
          by (apply signed32_small; lia).
        assert (Hlast : Size / 16 < AlignedSize / 16)
          by (rewrite HAdiv, Hceil;
              destruct (Z.eqb_spec (Size mod 16) 0); lia).
        destruct (Z.eqb_spec (Size / 16) 0); simpl; rewrite Hidx; pointwise.
    - rewrite Z.eqb_refl, app_nil_r.
      destruct (Z.eqb_spec (AlignedSize / 16) 0); simpl; [reflexivity |].
      pointwise. }
  split; [exact HAmod |]. split; [exact HAbound |].
  unfold m2. rewrite H2.
  destruct (Z.eqb_spec (AlignedSize / 16) 0) as [H0 | Hn0]; simpl.
  - split; [intros; lia |]. split; [exact H1 | reflexivity].
  - split; [| split].
    + intros i Hi. pointwise.
    + intros i Hi. rewrite <- (H1 i Hi). pointwise.
    + reflexivity.
Qed.

(** A 20-byte allocation tagged 0xAB and untagged with 0x7F. *)
Lemma tagAlloca_then_untag_witness :
  let S := initializeModule defaultFlags linux_aarch64 false false in
  let m1 := runTagStores noRuntime zeroMemory (tagAlloca S 0xAB 20) in
  let m2 := runTagStores noRuntime m1 (tagAlloca S 0x7F 32) in
  shadowAt m2 1 = 0x7F /\ objectAt m2 31 = objectAt m1 31.
Proof.
  intros S m1 m2.
  destruct (tagAlloca_then_untag noRuntime defaultFlags linux_aarch64
              false false 0xAB 0x7F 20 zeroMemory)
    as (_ & _ & Hshadow & _ & Hobject); [reflexivity | lia |].
  split.
  - apply (Hshadow 1). change (alignTo 20 _ / 16) with 2. lia.
  - apply (Hobject 31).
Defined.

(** ** Shadow addresses *)

Lemma add64_cancel (base x y : Z) :
  0 <= x < 2 ^ 64 -> 0 <= y < 2 ^ 64 ->
  add64 base x = add64 base y -> x = y.
Proof.
  unfold add64, wrap64, wrap. intros Hx Hy Heq.
  pose proof (Z.div_mod (base + x) (2 ^ 64) ltac:(lia)) as Hdx.
  pose proof (Z.div_mod (base + y) (2 ^ 64) ltac:(lia)) as Hdy.
  rewrite Heq in Hdx. lia.
Qed.

(** X3: two addresses share a shadow byte exactly when they lie in the
    same 16-byte granule, whatever the shadow base and the addressing
    mode; in particular the last byte of a granule, where the inline
    check looks for the real tag, has the shadow byte of every address
    of that granule. *)
Theorem memToShadow_granule (Fl : Flags) (T : Triple) (CK R : bool)
        (Base a b : Z) :
  let S := initializeModule Fl T CK R in
  in64 a -> in64 b ->
  (memToShadow S Base a = memToShadow S Base b <-> a / 16 = b / 16)
  /\ memToShadow S Base (Z.lor a 15) = memToShadow S Base a.
Proof.
  intros S Ha Hb. unfold in64 in *.
  destruct (settings_granule Fl T CK R) as [HScale _]. fold S in HScale.
  unfold memToShadow, lshr64. rewrite HScale.
  assert (Hlast : Z.shiftr (Z.lor a 15) 4 = Z.shiftr a 4)
    by (rewrite Z.shiftr_lor; change (Z.shiftr 15 4) with 0;
        apply Z.lor_0_r).
  rewrite Hlast. split; [| reflexivity].
  rewrite !Z.shiftr_div_pow2 by lia. change (2 ^ 4) with 16.
  assert (Hqa : 0 <= a / 16 < 2 ^ 64).
  { split; [apply Z.div_pos; lia |]. apply Z.div_lt_upper_bound; lia. }
  assert (Hqb : 0 <= b / 16 < 2 ^ 64).
  { split; [apply Z.div_pos; lia |]. apply Z.div_lt_upper_bound; lia. }
  destruct (Offset (Mapping S) =? 0).
  - tauto.
  - split.
    + apply add64_cancel; assumption.
    + intros ->. reflexivity.
Qed.

Lemma memToShadow_granule_witness :
  memToShadow (initializeModule defaultFlags linux_aarch64 false false)
              0x1000 (Z.lor 0x7ffc12345673 15)
  = memToShadow (initializeModule defaultFlags linux_aarch64 false false)
                0x1000 0x7ffc12345673.
Proof.
  refine (proj2 (memToShadow_granule defaultFlags linux_aarch64 false false
                   0x1000 0x7ffc12345673 0 _ _)); unfold in64; lia.
Defined.

(** ** Instrumenting one access *)

(** A store size of whole bytes that is a power of two of at most 16
    bytes is one of the five access sizes, and its index is the exponent:
    the assertion of [TypeSizeToSizeIndex] holds wherever
    [instrumentMemAccess] calls it. *)
Lemma TypeSizeToSizeIndex_exact (TypeStoreSize : Z) :
  TypeStoreSize mod 8 = 0 ->
  isPowerOf2_64 TypeStoreSize = true ->
  (TypeStoreSize / 8 <=? Z.shiftl 1 (kNumberOfAccessSizes - 1)) = true ->
  0 <= TypeSizeToSizeIndex TypeStoreSize < kNumberOfAccessSizes
  /\ TypeStoreSize = 8 * 2 ^ TypeSizeToSizeIndex TypeStoreSize.
Proof.
  intros Hbytes Hpow Hmax.
  apply Z.leb_le in Hmax. change (Z.shiftl 1 (kNumberOfAccessSizes - 1))
    with 16 in Hmax.
  unfold isPowerOf2_64 in Hpow. apply andb_prop in Hpow.
  destruct Hpow as [Hpos Hland]. apply Z.ltb_lt in Hpos.
  pose proof (Z.div_mod TypeStoreSize 8 ltac:(lia)) as Hdm.
  set (k := TypeStoreSize / 8) in *.
  assert (Hk : 1 <= k <= 16) by lia.
  assert (HT : TypeStoreSize = 8 * k) by lia. clearbody k. subst TypeStoreSize.
  clear Hdm Hbytes Hpos Hmax.
  assert (Hcases : k = 1 \/ k = 2 \/ k = 3 \/ k = 4 \/ k = 5 \/ k = 6
                   \/ k = 7 \/ k = 8 \/ k = 9 \/ k = 10 \/ k = 11 \/ k = 12
                   \/ k = 13 \/ k = 14 \/ k = 15 \/ k = 16) by lia.
  repeat (destruct Hcases as [-> | Hcases]);
    try subst k; try discriminate Hland; vm_compute;
    repeat split; intros H; discriminate H.
Qed.

(** X4: an access the pass instruments gets exactly one check, on the
    operand's own pointer and direction.  A check for a fixed access
    size carries the index [i] of that size, [0 <= i < 5] with
    [8 * 2 ^ i] the operand's size in bits; every other operand goes to
    the sized callback with its bit size and the divisor 8. *)
Theorem instrumentMemAccess_one_check (S : Settings) (Op : Opcode)
        (O : InterestingMemoryOperand) (a : AccessInstrumentation) :
  MaybeMask O = None ->
  TypeStoreSize O mod 8 = 0 ->
  instrumentMemAccess S Op O = Some a ->
  Instrumented a = true
  /\ exists e,
       Inserted a = [e]
       /\ match e with
          | CallMemoryAccessCallback w i p _
          | CheckMemAccessOutline _ p w i
          | CheckMemAccessInline p w i =>
              w = IsWrite O /\ p = getPtr O
              /\ 0 <= i < kNumberOfAccessSizes
              /\ TypeStoreSize O = 8 * 2 ^ i
          | CallMemoryAccessCallbackSized w p bits d _ =>
              w = IsWrite O /\ p = getPtr O
              /\ bits = TypeStoreSize O /\ d = 8
          | _ => False
          end.
Proof.
  intros Hmask Hbytes. unfold instrumentMemAccess. rewrite Hmask.
  destruct (negb (isScalable O) && isPowerOf2_64 (TypeStoreSize O)
            && (TypeStoreSize O / 8
                <=? Z.shiftl 1 (kNumberOfAccessSizes - 1))
            && match Alignment O with
               | Some A =>
                   (getObjectAlignment (Mapping S) <=? A)
                   || (TypeStoreSize O / 8 <=? A)
               | None => true
               end) eqn:Hfixed.
  - (* one of the five access sizes *)
    apply andb_prop in Hfixed. destruct Hfixed as [Hfixed _].
    apply andb_prop in Hfixed. destruct Hfixed as [Hfixed Hmax].
    apply andb_prop in Hfixed. destruct Hfixed as [_ Hpow].
    pose proof (TypeSizeToSizeIndex_exact (TypeStoreSize O) Hbytes Hpow Hmax)
      as [Hidx Hsize].
    rewrite (proj2 (Z.ltb_lt _ _) (proj2 Hidx)). cbn [negb].
    destruct (InstrumentWithCalls S);
      [| destruct (OutlinedChecks S);
         (destruct (UsePageAliases S); [discriminate |]);
         [| destruct (instrumentMemAccessInline S _); [| discriminate]]];
      (destruct (untagPointerOperand S Op); [| discriminate]);
      intros [= <-]; (split; [reflexivity |]); eexists;
      (split; [reflexivity |]); cbv beta iota; auto.
  - (* anything else: the sized callback *)
    destruct (untagPointerOperand S Op); [| discriminate].
    intros [= <-]. split; [reflexivity |]. eexists.
    split; [reflexivity |]. cbv beta iota. auto.
Qed.

(** A four-byte load checked by the outlined sequence. *)
Lemma instrumentMemAccess_one_check_witness :
  Instrumented
    (mkAccessInstrumentation true [CheckMemAccessOutline true 3 false 2]
                             false) = true.
Proof.
  refine (proj1 (instrumentMemAccess_one_check
                   (initializeModule defaultFlags linux_aarch64 false false)
                   Load (mkOperand false 32 false (Some 4) None 3)
                   _ _ _ _)); reflexivity.
Defined.

(** An operand the pass can instrument on a target with supported
    checks: no fatal error, no failed assertion. *)
Lemma instrumentMemAccess_supported (S : Settings) (Op : Opcode)
      (O : InterestingMemoryOperand) :
  checksSupported S ->
  TypeStoreSize O mod 8 = 0 ->
  exists a, instrumentMemAccess S Op O = Some a /\ PointerUntagged a = false.
Proof.
  intros [Harch Hcheck] Hbytes.
  unfold instrumentMemAccess, untagPointerOperand, instrumentMemAccessInline.
  rewrite Harch.
  destruct (MaybeMask O); [eexists; split; reflexivity |].
  destruct (negb (isScalable O) && isPowerOf2_64 (TypeStoreSize O)
            && (TypeStoreSize O / 8
                <=? Z.shiftl 1 (kNumberOfAccessSizes - 1))
            && match Alignment O with
               | Some A =>
                   (getObjectAlignment (Mapping S) <=? A)
                   || (TypeStoreSize O / 8 <=? A)
               | None => true
               end) eqn:Hfixed; [| eexists; split; reflexivity].
  apply andb_prop in Hfixed. destruct Hfixed as [Hfixed _].
  apply andb_prop in Hfixed. destruct Hfixed as [Hfixed Hmax].
  apply andb_prop in Hfixed. destruct Hfixed as [_ Hpow].
  pose proof (TypeSizeToSizeIndex_exact (TypeStoreSize O) Hbytes Hpow Hmax)
    as [Hidx _].
  rewrite (proj2 (Z.ltb_lt _ _) (proj2 Hidx)). cbn [negb].
  destruct Hcheck as [-> | [-> [-> | ->]]];
    repeat match goal with
           | |- context [if ?c then _ else _] => destruct c
           end;
    eexists; split; reflexivity.
Qed.

(** X5: instrumenting one access of whole bytes.  On AArch64 (ILP32
    included), x86_64 and RISC-V 64 the pointer operand is never
    rewritten, since these targets ignore tag bits, and no fatal error or
    failed assertion ends the instrumentation when the checks are calls,
    or when page aliases are off and the check is outlined or the
    architecture has a trap sequence.  On every other architecture the
    operand of a call (a by-value argument) always ends in the fatal
    error of [getPointerOperandIndex], unless an earlier failure came
    first. *)
Theorem instrumentMemAccess_fatal_errors (S : Settings) (Op : Opcode)
        (O : InterestingMemoryOperand) :
  (isAArch64 (TargetTriple S) || isX86_64 (TargetTriple S)
   || isRISCV64 (TargetTriple S) = true ->
   InstrumentWithCalls S = true
   \/ (UsePageAliases S = false
       /\ (OutlinedChecks S = true
           \/ hasTrapSequence (getArch (TargetTriple S)) = true)) ->
   TypeStoreSize O mod 8 = 0 ->
   exists a, instrumentMemAccess S Op O = Some a /\ PointerUntagged a = false)
  /\ (isAArch64 (TargetTriple S) || isX86_64 (TargetTriple S)
      || isRISCV64 (TargetTriple S) = false ->
      MaybeMask O = None -> getPointerOperandIndex Op = None ->
      instrumentMemAccess S Op O = None).
Proof.
  split.
  - intros Harch Hcheck Hbytes.
    apply instrumentMemAccess_supported; [split |]; assumption.
  - unfold instrumentMemAccess, untagPointerOperand.
    intros Harch Hmask Hindex. rewrite Harch, Hmask, Hindex.
    destruct (if _ : bool then _ else _); reflexivity.
Qed.

(** A by-value argument on a big-endian PowerPC, say. *)
Lemma instrumentMemAccess_fatal_errors_witness :
  instrumentMemAccess
    (initializeModule defaultFlags
       (mkTriple UnknownArch false false false true) false false)
    Call (mkOperand false 64 false (Some 1) None 5) = None.
Proof.
  refine (proj2 (instrumentMemAccess_fatal_errors _ _ _) _ _ _); reflexivity.
Defined.

(** X6: every operand [getInterestingMemoryOperands] hands on belongs to
    an instruction without [nosanitize] metadata, carries no mask, and
    names a pointer of the instruction that is in address space 0, is not
    a swifterror slot and, if it comes from an alloca, belongs to a
    function whose stack is instrumented and was not proved safe. *)
Theorem getInterestingMemoryOperands_sound
        (Fl : Flags) (S : Settings) (SSI : bool) (Insn : Inst)
        (O : InterestingMemoryOperand) :
  In O (getInterestingMemoryOperands Fl S SSI Insn) ->
  hasNoSanitizeMetadata Insn = false
  /\ MaybeMask O = None
  /\ exists R,
       In R (Refs Insn)
       /\ getPtr O = PtrValue (Ptr R)
       /\ TypeStoreSize O = TypeBits R
       /\ getPointerAddressSpace (Ptr R) = 0
       /\ isSwiftError (Ptr R) = false
       /\ (findAllocaForValue (Ptr R) = true ->
           InstrumentStack S = true
           /\ SSI && stackAccessIsSafe Insn = false).
Proof.
  assert (Hfilter : forall P, ignoreAccess S SSI Insn P = false ->
            getPointerAddressSpace P = 0
            /\ isSwiftError P = false
            /\ (findAllocaForValue P = true ->
                InstrumentStack S = true
                /\ SSI && stackAccessIsSafe Insn = false)).
  { intros P. unfold ignoreAccess.
    destruct (Z.eqb_spec (getPointerAddressSpace P) 0); simpl;
      [| discriminate].
    destruct (isSwiftError P); [discriminate |].
    destruct (findAllocaForValue P);
      [| intros _; split; [assumption |]; split; [reflexivity |];
         intros H; discriminate H].
    destruct (InstrumentStack S); simpl; [| discriminate].
    destruct (SSI && stackAccessIsSafe Insn); [discriminate |].
    intros _. split; [assumption |]. split; [reflexivity |].
    intros _. split; reflexivity. }
  assert (Hone : forall (flag : bool) w A R,
            In O (if negb flag || ignoreAccess S SSI Insn (Ptr R)
                  then [] else [operandOf w A R]) ->
            In R (Refs Insn) ->
            MaybeMask O = None
            /\ exists R,
                 In R (Refs Insn)
                 /\ getPtr O = PtrValue (Ptr R)
                 /\ TypeStoreSize O = TypeBits R
                 /\ getPointerAddressSpace (Ptr R) = 0
                 /\ isSwiftError (Ptr R) = false
                 /\ (findAllocaForValue (Ptr R) = true ->
                     InstrumentStack S = true
                     /\ SSI && stackAccessIsSafe Insn = false)).
  { intros flag w A R HO HR.
    destruct (ignoreAccess S SSI Insn (Ptr R)) eqn:Hign;
      [rewrite orb_true_r in HO; contradiction |].
    destruct (negb flag); [contradiction |].
    destruct HO as [<- | []]. split; [reflexivity |].
    exists R. split; [exact HR |]. split; [reflexivity |].
    split; [reflexivity |]. apply Hfilter. exact Hign. }
  unfold getInterestingMemoryOperands.
  destruct (hasNoSanitizeMetadata Insn); [contradiction |].
  intros HO. split; [reflexivity |].
  destruct (Op Insn) eqn:HOp; destruct (Refs Insn) as [| R Rs] eqn:HRefs;
    try contradiction;
    try (apply (Hone _ _ _ R HO); left; reflexivity).
  (* what is left: the by-value arguments of a call *)
  apply in_flat_map in HO. destruct HO as (R' & HR' & HO).
  destruct (isByValArgument R');
    [| rewrite orb_true_r in HO; simpl in HO; contradiction].
  simpl in HO. rewrite orb_false_r in HO.
  apply (Hone _ _ _ R' HO). exact HR'.
Qed.

(** The load of [loadAndReturn]. *)
Lemma getInterestingMemoryOperands_sound_witness :
  MaybeMask (mkOperand false 32 false (Some 4) None 1) = None.
Proof.
  refine (proj1 (proj2
    (getInterestingMemoryOperands_sound defaultFlags
       (initializeModule defaultFlags linux_aarch64 false false) true
       (mkInst Load
               [mkMemRef (mkPointerFacts 1 0 false false) 32 false 4 false]
               false false)
       (mkOperand false 32 false (Some 4) None 1) _))).
  left. reflexivity.
Defined.

(** ** Outcomes of the inline check *)

(** X7: the inline check lets an access through untrapped whenever the
    pointer tag equals the memory tag or is the match-all tag; it traps
    on every other pointer whose granule's memory tag is above 15; after
    a trap the access still runs in recovery mode and never runs
    otherwise. *)
Theorem inlineCheck_outcomes (S : Settings) (AccessSizeIndex : Z)
        (E : CheckInput) :
  let PtrTag := checkedPointerTag S (PtrLong E) in
  let MemTag :=
    load8 E (memToShadow S (ShadowBase E) (untagPointer S (PtrLong E))) in
  hasTrapSequence (getArch (TargetTriple S)) = true ->
  0 <= AccessSizeIndex < kNumberOfAccessSizes ->
  (PtrTag = MemTag \/ MatchAllTag S = Some PtrTag ->
   inlineCheck S AccessSizeIndex E = Some (ReachesAccess false))
  /\ (PtrTag <> MemTag -> MatchAllTag S <> Some PtrTag -> 15 < MemTag ->
      faults (inlineCheck S AccessSizeIndex E) = true)
  /\ (faults (inlineCheck S AccessSizeIndex E) = true ->
      inlineCheck S AccessSizeIndex E
      = Some (if Recover S then ReachesAccess true else Aborts)).
Proof.
  intros PtrTag MemTag Harch Hidx.
  rewrite (inlineCheck_total S AccessSizeIndex E Harch Hidx).
  fold PtrTag. fold MemTag.
  split; [| split].
  - intros [Heq | Hall].
    + rewrite <- Heq, Z.eqb_refl. reflexivity.
    + rewrite Hall, Z.eqb_refl, andb_false_r. reflexivity.
  - intros Hne Hall Hbig.
    assert (H1 : (PtrTag =? MemTag) = false) by (apply Z.eqb_neq; exact Hne).
    assert (H2 : (15 <? MemTag) = true) by (apply Z.ltb_lt; exact Hbig).
    rewrite H1, H2.
    destruct (MatchAllTag S) as [m |]; simpl.
    + assert (H3 : (PtrTag =? m) = false).
      { apply Z.eqb_neq. intros ->. apply Hall. reflexivity. }
      rewrite H3. simpl. destruct (Recover S); reflexivity.
    + destruct (Recover S); reflexivity.
  - destruct (_ && _); [reflexivity | discriminate].
Qed.

(** An untagged-memory fault: pointer tag 0x2A, memory tag 0x80. *)
Lemma inlineCheck_outcomes_witness :
  faults (inlineCheck (initializeModule defaultFlags linux_aarch64 false false)
                      3 (mkCheckInput 0x2A007ffc12345670 0x1000
                                      (fun _ => 0x80))) = true.
Proof.
  refine (proj1 (proj2 (inlineCheck_outcomes
                          (initializeModule defaultFlags linux_aarch64
                                            false false)
                          3 (mkCheckInput 0x2A007ffc12345670 0x1000
                                          (fun _ => 0x80)) _ _)) _ _ _).
  - reflexivity.
  - unfold kNumberOfAccessSizes. lia.
  - vm_compute. intros H. discriminate H.
  - intros H. discriminate H.
  - vm_compute. reflexivity.
Defined.

(** ** Descriptors and storage of a tagged global *)

Lemma getTypeAllocSize_nonneg (C : Constant) : 0 <= getTypeAllocSize C.
Proof.
  induction C as [Init | G P ST | C IH Padding | Elements];
    cbn [getTypeAllocSize]; lia.
Qed.

Lemma lor_shiftl_add (a b n : Z) :
  0 <= n -> 0 <= a < 2 ^ n ->
  Z.lor a (Z.shiftl b n) = a + b * 2 ^ n.
Proof.
  intros Hn Ha.
  assert (Hdisjoint : Z.land a (Z.shiftl b n) = 0).
  { apply Z.bits_inj'. intros i Hi. rewrite Z.land_spec, Z.bits_0.
    destruct (Z.ltb_spec i n).
    - rewrite Z.shiftl_spec_low by lia. apply andb_false_r.
    - rewrite (testbit_below a n i Ha) by lia. reflexivity. }
  rewrite <- Z.lxor_lor by exact Hdisjoint.
  rewrite <- Z.add_nocarry_lxor by exact Hdisjoint.
  rewrite Z.shiftl_mul_pow2 by lia. reflexivity.
Qed.

(** The relative address survives the truncation to 32 bits when the
    piece lies within 2 GiB of the record. *)
Lemma relative_address_decodes (NewGVAddr DescriptorAddr DescriptorPos : Z) :
  - 2 ^ 31 <= NewGVAddr - DescriptorAddr + DescriptorPos < 2 ^ 31 ->
  DescriptorAddr
  + signed32 (wrap32 (add64 (wrap64 (NewGVAddr - DescriptorAddr))
                            DescriptorPos))
  = NewGVAddr + DescriptorPos.
Proof.
  intros Hnear.
  assert (Htrunc : wrap32 (add64 (wrap64 (NewGVAddr - DescriptorAddr))
                                 DescriptorPos)
                   = (NewGVAddr - DescriptorAddr + DescriptorPos) mod 2 ^ 32).
  { unfold wrap32, add64, wrap64, wrap.
    rewrite Z.add_mod_idemp_l by lia.
    change (2 ^ 64) with (2 ^ 32 * 2 ^ 32).
    rewrite Z.rem_mul_r by lia.
    rewrite Z.mul_comm, Z.mod_add by lia.
    apply Z.mod_mod. lia. }
  rewrite Htrunc. unfold signed32, wrap32, wrap.
  rewrite Z.mod_mod by lia.
  destruct (Z.ltb_spec ((NewGVAddr - DescriptorAddr + DescriptorPos)
                        mod 2 ^ 32) (2 ^ 31));
    Z.div_mod_to_equations; lia.
Qed.

Lemma descriptorsFrom_describes (Name : string)
      (SizeInBytes Tag NewGVAddr : Z) :
  SizeInBytes < 2 ^ 31 -> 0 <= Tag < 2 ^ 8 ->
  forall fuel DescriptorPos Addrs,
    0 <= DescriptorPos <= SizeInBytes ->
    SizeInBytes - DescriptorPos <= Z.of_nat fuel * MaxDescriptorSize ->
    List.length Addrs
    = List.length (descriptorsFrom fuel Name SizeInBytes Tag DescriptorPos) ->
    Forall (fun DescriptorAddr =>
              - 2 ^ 31 <= NewGVAddr - DescriptorAddr
              /\ NewGVAddr + SizeInBytes - DescriptorAddr <= 2 ^ 31) Addrs ->
    describes NewGVAddr
              (descriptorsFrom fuel Name SizeInBytes Tag DescriptorPos)
              Addrs DescriptorPos SizeInBytes
    /\ Forall (fun D => descriptorTag D = Tag
                        /\ descriptorGlobal D = Some (Name ++ ".hwasan")%string
                        /\ getSection D = Some "hwasan_globals"%string)
              (descriptorsFrom fuel Name SizeInBytes Tag DescriptorPos).
Proof.
  intros Hbig HTag. unfold MaxDescriptorSize.
  induction fuel as [| fuel IH]; intros DescriptorPos Addrs Hpos Hleft;
    cbn [descriptorsFrom]; unfold MaxDescriptorSize.
  - intros Hlen _. destruct Addrs; [| discriminate Hlen].
    split; [simpl; lia | constructor].
  - destruct (Z.ltb_spec DescriptorPos SizeInBytes) as [Hlt | Hge].
    2:{ intros Hlen _. destruct Addrs; [| discriminate Hlen].
        split; [simpl; lia | constructor]. }
    intros Hlen Hnear.
    destruct Addrs as [| DescriptorAddr Addrs]; [discriminate Hlen |].
    cbn [List.length] in Hlen. injection Hlen as Hlen.
    inversion Hnear as [| ? ? Hhere Hrest]; subst.
    set (Size := Z.min (SizeInBytes - DescriptorPos) 0xfffff0).
    assert (HSize : 0 < Size <= 0xfffff0) by (unfold Size; lia).
    assert (Hw : wrap32 Size = Size)
      by (unfold wrap32, wrap; apply Z.mod_small; lia).
    assert (Hshift : wrap32 (Z.shiftl Tag 24) = Z.shiftl Tag 24).
    { unfold wrap32, wrap. apply Z.mod_small.
      rewrite Z.shiftl_mul_pow2 by lia. lia. }
    assert (Hword : wrap32 (Z.lor (wrap32 Size) (wrap32 (Z.shiftl Tag 24)))
                    = Size + Tag * 2 ^ 24).
    { rewrite Hw, Hshift, (lor_shiftl_add Size Tag 24) by lia.
      unfold wrap32, wrap. apply Z.mod_small. lia. }
    assert (Hsz : (Size + Tag * 2 ^ 24) mod 2 ^ 24 = Size)
      by (rewrite Z.mod_add by lia; apply Z.mod_small; lia).
    assert (Htg : (Size + Tag * 2 ^ 24) / 2 ^ 24 = Tag)
      by (rewrite Z.div_add by lia; rewrite Z.div_small by lia; lia).
    assert (Hnext : wrap64 (DescriptorPos + 0xfffff0)
                    = DescriptorPos + 0xfffff0)
      by (unfold wrap64, wrap; apply Z.mod_small; lia).
    assert (Haddr : DescriptorAddr
                    + signed32
                        (wrap32 (add64 (wrap64 (NewGVAddr - DescriptorAddr))
                                       DescriptorPos))
                    = NewGVAddr + DescriptorPos)
      by (apply relative_address_decodes; lia).
    rewrite Hnext in *.
    destruct (Z.le_gt_cases (SizeInBytes - DescriptorPos) 0xfffff0)
      as [Hlast | Hmore].
    + (* the last piece *)
      assert (HSz : Size = SizeInBytes - DescriptorPos)
        by (unfold Size; lia).
      assert (Hend : descriptorsFrom fuel Name SizeInBytes Tag
                                     (DescriptorPos + 0xfffff0) = []).
      { destruct fuel; [reflexivity |]. cbn [descriptorsFrom].
        unfold MaxDescriptorSize.
        destruct (Z.ltb_spec (DescriptorPos + 0xfffff0) SizeInBytes);
          [lia | reflexivity]. }
      rewrite Hend in *.
      destruct Addrs; [| discriminate Hlen].
      split.
      * cbn [describes].
        unfold describedAddress, GVRelPtr, descriptorSize.
        cbn [getInitializer]. rewrite !Hword, !Hsz, Haddr.
        unfold MaxDescriptorSize. repeat split; lia.
      * constructor; [| constructor].
        unfold descriptorTag, descriptorGlobal. cbn [getInitializer getSection].
        rewrite Hword, Htg. repeat split.
    + (* a full piece, and the rest *)
      assert (HSz : Size = 0xfffff0)
        by (unfold Size; lia).
      destruct (IH (DescriptorPos + 0xfffff0) Addrs) as [IHd IHf];
        [lia | lia | exact Hlen | exact Hrest |].
      split.
      * cbn [describes].
        unfold describedAddress, GVRelPtr, descriptorSize.
        cbn [getInitializer]. rewrite !Hword, !Hsz, Haddr.
        unfold MaxDescriptorSize. split; [reflexivity |]. split; [lia |].
        rewrite HSz. exact IHd.
      * constructor; [| exact IHf].
        unfold descriptorTag, descriptorGlobal. cbn [getInitializer getSection].
        rewrite Hword, Htg. repeat split.
Qed.

(** X8: the descriptor records of a tagged global of less than 2 GiB
    that lies within 2 GiB of each of them.  The relative address of
    each record, truncated to 32 bits as it is stored and read as a
    signed offset from the record's own address, leads to the piece the
    record describes; the pieces follow one another from the first byte
    of the global to its last, without gap or overlap, each of at most
    0xfffff0 bytes; every record reads back the tag given to the global,
    refers to the storage object and sits in the [hwasan_globals]
    section. *)
Theorem descriptors_describe_global (S : Settings) (GV : GlobalVariable)
        (C : Constant) (Tag NewGVAddr : Z) (Addrs : list Z) :
  getInitializer GV = Some C ->
  getTypeAllocSize C < 2 ^ 31 ->
  0 <= Tag < 2 ^ 8 ->
  let Ds := Descriptors (instrumentGlobal S GV Tag) in
  List.length Addrs = List.length Ds ->
  Forall (fun DescriptorAddr =>
            - 2 ^ 31 <= NewGVAddr - DescriptorAddr
            /\ NewGVAddr + getTypeAllocSize C - DescriptorAddr <= 2 ^ 31)
         Addrs ->
  describes NewGVAddr Ds Addrs 0 (getTypeAllocSize C)
  /\ Forall (fun D =>
               descriptorTag D = Tag
               /\ descriptorGlobal D
                  = Some (getName (NewGV (instrumentGlobal S GV Tag)))
               /\ getSection D = Some "hwasan_globals"%string) Ds.
Proof.
  intros HC Hbig HTag Ds. subst Ds.
  unfold instrumentGlobal. cbn [Descriptors NewGV getName]. rewrite HC.
  intros Hlen Hnear.
  pose proof (getTypeAllocSize_nonneg C) as Hnn.
  apply descriptorsFrom_describes; try assumption; try lia.
  pose proof (descriptors_fuel_enough (getTypeAllocSize C) Hnn). lia.
Qed.

(** A global of 20 bytes at 0x20000 with its one record at 0x10000. *)
Lemma descriptors_describe_global_witness :
  describes 0x20000
    (Descriptors
       (instrumentGlobal
          (initializeModule defaultFlags linux_aarch64 false false)
          (mkGlobalVariable "big" (Some (Padded (Bytes []) (repeat 0 20)))
                            ExternalLinkage false None false None false None)
          0x5A))
    [0x10000] 0 20.
Proof.
  refine (proj1 (descriptors_describe_global
                   (initializeModule defaultFlags linux_aarch64 false false)
                   (mkGlobalVariable "big"
                      (Some (Padded (Bytes []) (repeat 0 20)))
                      ExternalLinkage false None false None false None)
                   (Padded (Bytes []) (repeat 0 20)) 0x5A 0x20000 [0x10000]
                   _ _ _ _ _)).
  - reflexivity.
  - simpl. lia.
  - lia.
  - reflexivity.
  - constructor; [| constructor]. simpl. lia.
Defined.

Lemma alignTo_16_wide (Size : Z) :
  0 <= Size <= 2 ^ 63 ->
  alignTo Size 16 = (Size + 15) / 16 * 16.
Proof.
  intros HSize. unfold alignTo, wrap64, wrap.
  replace (Size + 16 - 1) with (Size + 15) by lia.
  apply Z.mod_small.
  pose proof (Z.mul_div_le (Size + 15) 16).
  pose proof (Z.div_pos (Size + 15) 16).
  lia.
Qed.

(** X9: the storage object of a tagged global is a private object of at
    least 16-byte alignment whose size is the original size rounded up
    to a multiple of 16; an original of aligned size keeps its
    initializer, any other gets a padding of zero bytes that ends with
    the tag, so that the tag is the last byte of the last granule. *)
Theorem storage_padded_to_granule (Fl : Flags) (T : Triple) (CK R : bool)
        (GV : GlobalVariable) (C : Constant) (Tag : Z) :
  let S := initializeModule Fl T CK R in
  let Storage := NewGV (instrumentGlobal S GV Tag) in
  let SizeInBytes := getTypeAllocSize C in
  getInitializer GV = Some C ->
  SizeInBytes <= 2 ^ 63 ->
  getLinkage Storage = PrivateLinkage
  /\ (exists A, getAlignment Storage = Some A /\ 16 <= A)
  /\ exists C',
       getInitializer Storage = Some C'
       /\ getTypeAllocSize C' mod 16 = 0
       /\ SizeInBytes <= getTypeAllocSize C' < SizeInBytes + 16
       /\ (SizeInBytes mod 16 = 0 -> C' = C)
       /\ (SizeInBytes mod 16 <> 0 ->
           C' = Padded C (repeat 0 (Z.to_nat (15 - SizeInBytes mod 16))
                          ++ [Tag])).
Proof.
  intros S Storage SizeInBytes HC Hbig.
  destruct (settings_granule Fl T CK R) as [_ Hg]. fold S in Hg.
  pose proof (getTypeAllocSize_nonneg C) as Hnn. fold SizeInBytes in Hnn.
  pose proof (Z.div_mod SizeInBytes 16 ltac:(lia)) as Hdm.
  pose proof (Z.mod_pos_bound SizeInBytes 16 ltac:(lia)) as Hr.
  pose proof (ceil16 SizeInBytes Hnn) as Hceil.
  subst Storage. unfold instrumentGlobal. cbn [NewGV getLinkage getAlignment
                                               getInitializer].
  rewrite HC, Hg. fold SizeInBytes.
  rewrite (alignTo_16_wide SizeInBytes) by lia.
  split; [reflexivity |]. split; [eexists; split; [reflexivity | lia] |].
  destruct (Z.eqb_spec (SizeInBytes mod 16) 0) as [H0 | Hn0].
  - (* already a multiple of the granule *)
    assert (Hsame : (SizeInBytes + 15) / 16 * 16 = SizeInBytes) by lia.
    rewrite Hsame, Z.eqb_refl. exists C. fold SizeInBytes.
    repeat split; try lia; try reflexivity.
  - assert (Hnew : (SizeInBytes + 15) / 16 * 16
                   = SizeInBytes + (16 - SizeInBytes mod 16)) by lia.
    rewrite Hnew.
    destruct (Z.eqb_spec SizeInBytes
                (SizeInBytes + (16 - SizeInBytes mod 16))); [lia |].
    replace (SizeInBytes + (16 - SizeInBytes mod 16) - SizeInBytes)
      with (16 - SizeInBytes mod 16) by lia.
    replace (Z.to_nat (16 - SizeInBytes mod 16) - 1)%nat
      with (Z.to_nat (15 - SizeInBytes mod 16)) by lia.
    eexists. split; [reflexivity |].
    cbn [getTypeAllocSize]. fold SizeInBytes.
    rewrite length_app, repeat_length. cbn [List.length].
    replace (SizeInBytes
             + Z.of_nat (Z.to_nat (15 - SizeInBytes mod 16) + 1))
      with (16 * (SizeInBytes / 16 + 1)) by lia.
    repeat split; try lia.
    rewrite Z.mul_comm. apply Z.mod_mul. lia.
Qed.

(** The four-byte global [g]: twelve bytes of padding, the last one the
    tag. *)
Lemma storage_padded_to_granule_witness :
  getLinkage
    (NewGV (instrumentGlobal
              (initializeModule defaultFlags linux_aarch64 false false)
              (wordGlobal "g") 0x5A)) = PrivateLinkage.
Proof.
  refine (proj1 (storage_padded_to_granule defaultFlags linux_aarch64
                   false false (wordGlobal "g") (Bytes [1; 0; 0; 0]) 0x5A
                   _ _)).
  - reflexivity.
  - simpl. lia.
Defined.

Example storage_of_word_global :
  getInitializer
    (NewGV (instrumentGlobal
              (initializeModule defaultFlags linux_aarch64 false false)
              (wordGlobal "g") 0x5A))
  = Some (Padded (Bytes [1; 0; 0; 0])
                 [0; 0; 0; 0; 0; 0; 0; 0; 0; 0; 0; 0x5A]).
Proof. reflexivity. Qed.

(** ** Aliases of tagged globals *)







(** ** Personality thunks *)

Lemma sameGroup_eq (P Q : option string) : sameGroup P Q = true <-> P = Q.
Proof.
  destruct P as [p |], Q as [q |]; simpl; split; intros H;
    try discriminate H; try reflexivity.
  - apply String.eqb_eq in H. subst q. reflexivity.
  - injection H as ->. apply String.eqb_refl.
Qed.

Lemma seen_group (P : option string) (seen : list (option string)) :
  existsb (sameGroup P) seen = true <-> In P seen.
Proof.
  rewrite existsb_exists. split.
  - intros (Q & HQ & Hsame). apply sameGroup_eq in Hsame. subst Q. exact HQ.
  - intros HP. exists P. split; [exact HP | apply sameGroup_eq; reflexivity].
Qed.

Lemma append_cancel_l (k x y : string) : (k ++ x = k ++ y)%string -> x = y.
Proof.
  induction k as [| c k IH]; simpl; intros H; [exact H |].
  injection H as H. apply IH. exact H.
Qed.

Lemma append_empty_r (k : string) : (k ++ "")%string = k.
Proof.
  induction k as [| c k IH]; simpl; [reflexivity |]. rewrite IH. reflexivity.
Qed.

Lemma ThunkName_injective (P Q : option string) :
  ThunkName P = ThunkName Q -> P = Q.
Proof.
  destruct P as [p |], Q as [q |]; unfold ThunkName; intros H.
  - apply append_cancel_l in H. injection H as ->. reflexivity.
  - rewrite <- (append_empty_r kHwasanPersonalityThunkName) in H at 2.
    apply append_cancel_l in H. discriminate H.
  - rewrite <- (append_empty_r kHwasanPersonalityThunkName) in H at 1.
    apply append_cancel_l in H. discriminate H.
  - reflexivity.
Qed.

Lemma PersonalityFns_keys (Fs : list Function) :
  forall seen,
    NoDup (PersonalityFns Fs seen)
    /\ (forall P, In P (PersonalityFns Fs seen) ->
                  ~ In P seen
                  /\ exists F, In F Fs /\ personalityGroup F = Some P)
    /\ (forall F P, In F Fs -> personalityGroup F = Some P ->
                    In P seen \/ In P (PersonalityFns Fs seen)).
Proof.
  induction Fs as [| G Fs IH]; intros seen; cbn [PersonalityFns].
  - split; [constructor |]. split; [intros P [] | intros F P []].
  - destruct (personalityGroup G) as [Q |] eqn:HG.
    + destruct (existsb (sameGroup Q) seen) eqn:Hseen.
      * apply seen_group in Hseen.
        destruct (IH seen) as (Hnd & Hfrom & Hto).
        split; [exact Hnd |]. split.
        -- intros P HP. destruct (Hfrom P HP) as (Hns & F & HF & HFP).
           split; [exact Hns |]. exists F. split; [right; exact HF | exact HFP].
        -- intros F P [<- | HF] HFP.
           ++ rewrite HG in HFP. injection HFP as <-. left. exact Hseen.
           ++ apply (Hto F P HF HFP).
      * assert (Hnew : ~ In Q seen).
        { intros HQ. apply seen_group in HQ. rewrite HQ in Hseen.
          discriminate Hseen. }
        destruct (IH (Q :: seen)) as (Hnd & Hfrom & Hto).
        split; [| split].
        -- constructor; [| exact Hnd].
           intros HQ. destruct (Hfrom Q HQ) as (Hns & _).
           apply Hns. left. reflexivity.
        -- intros P [<- | HP].
           ++ split; [exact Hnew |]. exists G.
              split; [left; reflexivity | exact HG].
           ++ destruct (Hfrom P HP) as (Hns & F & HF & HFP).
              split; [intros HPs; apply Hns; right; exact HPs |].
              exists F. split; [right; exact HF | exact HFP].
        -- intros F P [<- | HF] HFP.
           ++ rewrite HG in HFP. injection HFP as <-.
              right. left. reflexivity.
           ++ destruct (Hto F P HF HFP) as [[<- | Hs] | Hin].
              ** right. left. reflexivity.
              ** left. exact Hs.
              ** right. right. exact Hin.
    + destruct (IH seen) as (Hnd & Hfrom & Hto).
      split; [exact Hnd |]. split.
      * intros P HP. destruct (Hfrom P HP) as (Hns & F & HF & HFP).
        split; [exact Hns |]. exists F. split; [right; exact HF | exact HFP].
      * intros F P [<- | HF] HFP.
        -- rewrite HG in HFP. discriminate HFP.
        -- apply (Hto F P HF HFP).
Qed.

(** X11: the personality protocol keeps every function's name, attributes
    and body and changes only personality routines; it makes one thunk
    per distinct personality routine (or absence of one) among the
    functions it covers, no two thunks share a name, every covered
    function gets the thunk of its own routine, and no thunk is made that
    no function uses. *)
Theorem instrumentPersonalityFunctions_thunks (Fs : list Function) :
  let Fs' := fst (instrumentPersonalityFunctions Fs) in
  let Thunks := snd (instrumentPersonalityFunctions Fs) in
  map FnName Fs' = map FnName Fs
  /\ map Body Fs' = map Body Fs
  /\ map SanitizeHWAddress Fs' = map SanitizeHWAddress Fs
  /\ NoDup (map ThunkFn Thunks)
  /\ (forall i F P,
         nth_error Fs i = Some F -> personalityGroup F = Some P ->
         exists F',
           nth_error Fs' i = Some F'
           /\ getPersonalityFn F' = Some (ThunkName P)
           /\ In (mkThunk (ThunkName P) (TailCallPersonalityWrapper P))
                 Thunks)
  /\ (forall Th, In Th Thunks ->
                 exists F P, In F Fs /\ personalityGroup F = Some P
                             /\ Th = mkThunk (ThunkName P)
                                             (TailCallPersonalityWrapper P)).
Proof.
  intros Fs' Thunks. subst Fs' Thunks.
  unfold instrumentPersonalityFunctions. cbn [fst snd].
  destruct (PersonalityFns_keys Fs []) as (Hnd & Hfrom & Hto).
  assert (Hfield : forall {A : Type} (f : Function -> A),
            (forall F P, f (mkFunction (FnName F) (SanitizeHWAddress F)
                              (NoUnwind F) (isDeclaration F)
                              (Some (ThunkName P)) (Body F)) = f F) ->
            map f (map (fun F =>
                          match personalityGroup F with
                          | Some P =>
                              mkFunction (FnName F) (SanitizeHWAddress F)
                                (NoUnwind F) (isDeclaration F)
                                (Some (ThunkName P)) (Body F)
                          | None => F
                          end) Fs) = map f Fs).
  { intros A f Hf. rewrite map_map. apply map_ext. intros F.
    destruct (personalityGroup F); [apply Hf | reflexivity]. }
  split; [apply Hfield; reflexivity |].
  split; [apply Hfield; reflexivity |].
  split; [apply Hfield; reflexivity |].
  split; [| split].
  - rewrite map_map. cbn [ThunkFn].
    clear Hfrom Hto. induction Hnd as [| P keys Hnew _ IH];
      cbn [map]; constructor; [| exact IH].
    intros HIn. apply in_map_iff in HIn. destruct HIn as (Q & HQ & HQin).
    apply ThunkName_injective in HQ. subst Q. apply Hnew. exact HQin.
  - intros i F P Hi HP.
    eexists. split; [| split].
    + rewrite nth_error_map, Hi. cbn [option_map]. rewrite HP. reflexivity.
    + reflexivity.
    + apply in_map_iff. exists P. split; [reflexivity |].
      apply nth_error_In in Hi.
      destruct (Hto F P Hi HP) as [[] | Hin]. exact Hin.
  - intros Th HTh. apply in_map_iff in HTh. destruct HTh as (P & <- & HP).
    destruct (Hfrom P HP) as (_ & F & HF & HFP).
    exists F, P. repeat split; assumption.
Qed.

(** ** What per-function processing leaves of the program *)

Section SanitizeFunctionFacts.

Variable Fl : Flags.
Variable S : Settings.
Variable SSI : bool.

(** The memory intrinsics that give way to a runtime call. *)
Local Abbreviation replaced Insn :=
  (isMemIntrinsic Insn && negb (ignoreMemIntrinsic Fl S SSI Insn)
   && getValue (ClInstrumentMemIntrinsics Fl)).

Lemma programInsts_app (B1 B2 : list Item) :
  programInsts (B1 ++ B2) = programInsts B1 ++ programInsts B2.
Proof. unfold programInsts. apply flat_map_app. Qed.

Lemma programInsts_cons (it : Item) (B : list Item) :
  programInsts (it :: B) = programInsts [it] ++ programInsts B.
Proof. unfold programInsts. cbn [flat_map]. rewrite app_nil_r. reflexivity. Qed.

Lemma programInsts_inserted (l : list Emit) : programInsts (map Ins l) = [].
Proof. induction l as [| e l IH]; simpl; [reflexivity | exact IH]. Qed.

Lemma programInsts_landing_pads (B : list Item) :
  programInsts (instrumentLandingPads S B) = programInsts B.
Proof.
  induction B as [| it B IH]; [reflexivity |].
  change (instrumentLandingPads S (it :: B))
    with ((match it with
           | Orig Insn | OrigUntagged Insn =>
               match Op Insn with
               | LandingPad =>
                   if InstrumentLandingPads S
                   then [it; Ins CallHandleVfork] else [it]
               | _ => [it]
               end
           | Ins _ => [it]
           end) ++ instrumentLandingPads S B).
  rewrite programInsts_app, IH.
  rewrite (programInsts_cons it B).
  f_equal.
  destruct it as [Insn | Insn | e]; try reflexivity;
    destruct (Op Insn); try reflexivity;
    destruct (InstrumentLandingPads S); reflexivity.
Qed.

Lemma programInsts_instrumentInst (it : Item) (Insn : Inst) (l : list Item) :
  programInsts [it] = [Insn] ->
  instrumentInst Fl S SSI it Insn = Some l ->
  programInsts l = if replaced Insn then [] else [Insn].
Proof.
  intros Hit. unfold instrumentInst.
  destruct (forallb _ _); [| discriminate]. intros [= <-].
  rewrite programInsts_app.
  assert (Hchecks : forall done : list AccessInstrumentation,
            programInsts (flat_map (fun a => map Ins (Inserted a)) done) = []).
  { induction done as [| a done IH]; [reflexivity |].
    cbn [flat_map]. rewrite programInsts_app, programInsts_inserted.
    exact IH. }
  rewrite Hchecks. cbn [app].
  destruct (replaced Insn).
  - unfold instrumentMemIntrinsic.
    destruct (Op Insn); reflexivity.
  - destruct (existsb PointerUntagged _); [reflexivity | exact Hit].
Qed.

Lemma programInsts_instrumentItems (B B' : list Item) :
  instrumentItems Fl S SSI B = Some B' ->
  programInsts B' = filter (fun Insn => negb (replaced Insn)) (programInsts B).
Proof.
  revert B'. induction B as [| it B IH]; intros B'; cbn [instrumentItems].
  - intros [= <-]. reflexivity.
  - destruct (match it with
              | Orig Insn | OrigUntagged Insn =>
                  instrumentInst Fl S SSI it Insn
              | Ins _ => Some [it]
              end) as [l |] eqn:Hhere; [| discriminate].
    destruct (instrumentItems Fl S SSI B) as [r |]; [| discriminate].
    intros [= <-]. rewrite programInsts_app, (IH r eq_refl).
    rewrite (programInsts_cons it B).
    rewrite filter_app. f_equal.
    destruct it as [Insn | Insn | e].
    + rewrite (programInsts_instrumentInst (Orig Insn) Insn l eq_refl Hhere).
      cbn [programInsts flat_map app filter].
      destruct (replaced Insn); reflexivity.
    + rewrite (programInsts_instrumentInst (OrigUntagged Insn) Insn l
                 eq_refl Hhere).
      cbn [programInsts flat_map app filter].
      destruct (replaced Insn); reflexivity.
    + injection Hhere as <-. reflexivity.
Qed.

Lemma nothing_replaced (B : list Item) :
  IntrinToInstrument Fl S SSI B = [] ->
  filter (fun Insn => negb (replaced Insn)) (programInsts B) = programInsts B.
Proof.
  induction B as [| it B IH]; [reflexivity |].
  change (IntrinToInstrument Fl S SSI (it :: B))
    with ((match it with
           | Orig Insn | OrigUntagged Insn =>
               if isMemIntrinsic Insn && negb (ignoreMemIntrinsic Fl S SSI Insn)
               then [Insn] else []
           | Ins _ => []
           end) ++ IntrinToInstrument Fl S SSI B).
  intros Hnone. apply app_eq_nil in Hnone. destruct Hnone as [Hit HB].
  rewrite (programInsts_cons it B).
  rewrite filter_app, (IH HB). f_equal.
  destruct it as [Insn | Insn | e]; try reflexivity;
    cbn [programInsts flat_map app filter];
    destruct (isMemIntrinsic Insn && negb (ignoreMemIntrinsic Fl S SSI Insn));
    try discriminate Hit; reflexivity.
Qed.

End SanitizeFunctionFacts.

(** X12: when no allocation of a function is instrumented, per-function
    processing keeps the function's name and attributes and keeps every
    instruction of the program in its order, checks and calls being
    inserted around them; the only instructions it removes are the memory
    intrinsics of a sanitized function that it replaces by runtime calls. *)
Theorem sanitizeFunction_keeps_program
        (Fl : Flags) (S : Settings) (HwasanCtorFunction : option string)
        (SSI : bool) (AllocasToInstrument : Function -> list Z)
        (instrumentStack : list Z -> list Item -> list Item)
        (F F' : Function) :
  InstrumentStack S = false \/ AllocasToInstrument F = [] ->
  sanitizeFunction Fl S HwasanCtorFunction SSI AllocasToInstrument
                   instrumentStack F = Some F' ->
  FnName F' = FnName F
  /\ SanitizeHWAddress F' = SanitizeHWAddress F
  /\ NoUnwind F' = NoUnwind F
  /\ isDeclaration F' = isDeclaration F
  /\ programInsts (Body F')
     = if SanitizeHWAddress F
          && negb (match HwasanCtorFunction with
                   | Some Ctor => String.eqb (FnName F) Ctor
                   | None => false
                   end)
       then filter (fun Insn =>
                      negb (isMemIntrinsic Insn
                            && negb (ignoreMemIntrinsic Fl S SSI Insn)
                            && getValue (ClInstrumentMemIntrinsics Fl)))
                   (programInsts (Body F))
       else programInsts (Body F).
Proof.
  intros Hstack. unfold sanitizeFunction.
  destruct (match HwasanCtorFunction with
            | Some Ctor => String.eqb (FnName F) Ctor
            | None => false
            end);
    [intros [= <-]; rewrite andb_false_r; repeat split |].
  destruct (SanitizeHWAddress F) eqn:Hattr;
    [| intros [= <-]; rewrite Hattr; repeat split].
  cbn [negb andb].
  assert (Hallocas : (if InstrumentStack S then AllocasToInstrument F else [])
                     = []).
  { destruct Hstack as [-> | ->]; [reflexivity |].
    destruct (InstrumentStack S); reflexivity. }
  rewrite Hallocas.
  destruct (OperandsToInstrument Fl S SSI (Body F)) as [| O Os];
    [destruct (IntrinToInstrument Fl S SSI (Body F)) as [| I Is] eqn:HI |].
  - (* nothing to instrument *)
    intros [= <-]. cbn [FnName SanitizeHWAddress NoUnwind isDeclaration Body].
    repeat split; try assumption.
    rewrite (nothing_replaced Fl S SSI _ HI).
    apply programInsts_landing_pads.
  - destruct (emitPrologue Fl S _) as [Code |]; [| discriminate].
    destruct (loadsThroughNull Code || untagsWithPageAliases S Code);
      [discriminate |].
    destruct (instrumentItems Fl S SSI _) as [B4 |] eqn:HB4; [| discriminate].
    intros [= <-]. cbn [FnName SanitizeHWAddress NoUnwind isDeclaration Body].
    repeat split; try assumption.
    rewrite (programInsts_instrumentItems Fl S SSI _ B4 HB4).
    change (programInsts (Ins ?E :: ?B)) with (programInsts B).
    rewrite programInsts_landing_pads. reflexivity.
  - destruct (emitPrologue Fl S _) as [Code |]; [| discriminate].
    destruct (loadsThroughNull Code || untagsWithPageAliases S Code);
      [discriminate |].
    destruct (instrumentItems Fl S SSI _) as [B4 |] eqn:HB4; [| discriminate].
    intros [= <-]. cbn [FnName SanitizeHWAddress NoUnwind isDeclaration Body].
    repeat split; try assumption.
    rewrite (programInsts_instrumentItems Fl S SSI _ B4 HB4).
    change (programInsts (Ins ?E :: ?B)) with (programInsts B).
    rewrite programInsts_landing_pads. reflexivity.
Qed.

(** A function that loads, copies memory and returns: the copy gives way
    to a call of the runtime, the load and the return stay. *)
Lemma sanitizeFunction_keeps_program_witness :
  let load :=
    mkInst Load [mkMemRef (mkPointerFacts 1 0 false false) 32 false 4 false]
           false false in
  let copy :=
    mkInst (MemTransfer false)
           [mkMemRef (mkPointerFacts 2 0 false false) 8 false 1 false;
            mkMemRef (mkPointerFacts 3 0 false false) 8 false 1 false]
           false false in
  let ret := mkInst Ret [] false false in
  let S := initializeModule defaultFlags linux_aarch64 false false in
  let F := mkFunction "copying" true false false None
                      [Orig load; Orig copy; Orig ret] in
  let F' := mkFunction "copying" true false false None
              [Ins (Prologue false);
               Ins (CheckMemAccessOutline true 1 false 2); Orig load;
               Ins (CallMemTransfer false None); Orig ret] in
  sanitizeFunction defaultFlags S (Some kHwasanModuleCtorName) true
                   (fun _ => []) (fun _ B => B) F = Some F'
  /\ programInsts (Body F') = [load; ret].
Proof.
  intros load copy ret S F F'.
  assert (Hrun : sanitizeFunction defaultFlags S (Some kHwasanModuleCtorName)
                   true (fun _ => []) (fun _ B => B) F = Some F')
    by (vm_compute; reflexivity).
  split; [exact Hrun |].
  exact (proj2 (proj2 (proj2 (proj2
           (sanitizeFunction_keeps_program
              defaultFlags S (Some kHwasanModuleCtorName) true
              (fun _ => []) (fun _ B => B) F F'
              (or_intror eq_refl) Hrun))))).
Defined.

(** ** Fatal errors of per-function processing *)

Lemma collected_operands_whole_bytes
      (Fl : Flags) (S : Settings) (SSI : bool) (Insn : Inst) :
  Forall (fun R => TypeBits R mod 8 = 0) (Refs Insn) ->
  Forall (fun O => TypeStoreSize O mod 8 = 0)
         (getInterestingMemoryOperands Fl S SSI Insn).
Proof.
  intros Hrefs. unfold getInterestingMemoryOperands.
  destruct (hasNoSanitizeMetadata Insn); [constructor |].
  destruct (Op Insn); try constructor;
    try (destruct (Refs Insn) as [| R Rs]; [constructor |];
         inversion Hrefs as [| ? ? HR _]; subst;
         match goal with
         | |- context [if ?c then _ else _] => destruct c
         end; repeat constructor; exact HR).
  apply Forall_forall. intros O HO. apply in_flat_map in HO.
  destruct HO as (R & HR & HO).
  destruct (negb (getValue (ClInstrumentByval Fl))
            || negb (isByValArgument R) || ignoreAccess S SSI Insn (Ptr R));
    [contradiction |].
  destruct HO as [<- | []].
  exact (proj1 (Forall_forall _ _) Hrefs R HR).
Qed.

Lemma instrumentInst_supported (Fl : Flags) (S : Settings) (SSI : bool)
      (it : Item) (Insn : Inst) :
  checksSupported S ->
  Forall (fun R => TypeBits R mod 8 = 0) (Refs Insn) ->
  exists l, instrumentInst Fl S SSI it Insn = Some l.
Proof.
  intros Hsup Hrefs. unfold instrumentInst.
  assert (Hall : forallb (fun r : option AccessInstrumentation =>
                            match r with Some _ => true | None => false end)
                   (map (instrumentMemAccess S (Op Insn))
                        (getInterestingMemoryOperands Fl S SSI Insn)) = true).
  { apply forallb_forall. intros r Hr. apply in_map_iff in Hr.
    destruct Hr as (O & <- & HO).
    pose proof (proj1 (Forall_forall _ _)
                  (collected_operands_whole_bytes Fl S SSI Insn Hrefs) O HO)
      as Hbytes.
    destruct (instrumentMemAccess_supported S (Op Insn) O Hsup Hbytes)
      as (a & -> & _).
    reflexivity. }
  rewrite Hall. eexists. reflexivity.
Qed.

Lemma instrumentItems_supported (Fl : Flags) (S : Settings) (SSI : bool)
      (B : list Item) :
  checksSupported S -> wholeByteAccesses B ->
  exists B', instrumentItems Fl S SSI B = Some B'.
Proof.
  intros Hsup HB. induction HB as [| it B Hit _ [r IH]];
    cbn [instrumentItems].
  - eexists. reflexivity.
  - rewrite IH.
    destruct it as [Insn | Insn | e].
    + destruct (instrumentInst_supported Fl S SSI (Orig Insn) Insn Hsup Hit)
        as [l ->].
      eexists. reflexivity.
    + destruct (instrumentInst_supported Fl S SSI (OrigUntagged Insn) Insn
                  Hsup Hit) as [l ->].
      eexists. reflexivity.
    + eexists. reflexivity.
Qed.

Lemma instrumentLandingPads_whole_bytes (S : Settings) (B : list Item) :
  wholeByteAccesses B -> wholeByteAccesses (instrumentLandingPads S B).
Proof.
  intros HB. unfold wholeByteAccesses, instrumentLandingPads.
  apply Forall_forall. intros it Hit. apply in_flat_map in Hit.
  destruct Hit as (it0 & Hit0 & Hit).
  pose proof (proj1 (Forall_forall _ _) HB it0 Hit0) as Hwhole.
  destruct it0 as [Insn | Insn | e];
    try (destruct (Op Insn); try (destruct (InstrumentLandingPads S)));
    cbn [In] in Hit;
    repeat match goal with
           | H : _ \/ _ |- _ => destruct H
           | H : False |- _ => contradiction
           end;
    subst; first [exact Hwhole | exact I].
Qed.

(** Without a frame record the prologue of a module is always built: it
    finds a slot pointer whenever it loads the thread word, and it does
    not load it while page aliases are in use with calls as checks. *)
Lemma emitPrologue_plain (Fl : Flags) (T : Triple) (CK R : bool) :
  let S := initializeModule Fl T CK R in
  UsePageAliases S = false \/ InstrumentWithCalls S = true ->
  exists Code,
    emitPrologue Fl S false = Some Code
    /\ loadsThroughNull Code = false
    /\ untagsWithPageAliases S Code = false.
Proof.
  intros S Hpages.
  unfold emitPrologue, getHwasanThreadSlotPtr, ThreadPtrGlobal,
    untagsWithPageAliases.
  destruct Hpages as [-> | Hcalls].
  - destruct (InTls (Mapping S)), (isAndroid (TargetTriple S)),
      (isAArch64 (TargetTriple S));
      cbn; eexists; repeat split; reflexivity.
  - assert (Htls : InTls (Mapping S) = false).
    { change (InTls (ShadowMapping_init Fl T (InstrumentWithCalls S))
              = false).
      rewrite Hcalls. unfold ShadowMapping_init.
      destruct (isOSFuchsia T); [reflexivity |].
      destruct (given (ClMappingOffset Fl)); [reflexivity |].
      rewrite orb_true_r. reflexivity. }
    rewrite Htls. cbn. eexists. split; [reflexivity |].
    split; [reflexivity |]. apply andb_false_r.
Qed.

(** X13: in a module as [initializeModule] sets it up, a function none
    of whose allocations is instrumented and whose accesses are of whole
    bytes is processed without fatal error, failed assertion or missing
    slot pointer on every target whose checks are supported: AArch64,
    x86_64 or RISC-V 64 with checks that are calls, or, with page
    aliases off, outlined checks or an architecture with a trap
    sequence.  The result has the name and the attributes of the function
    it was given. *)
Theorem sanitizeFunction_supported_target
        (Fl : Flags) (T : Triple) (CK R : bool)
        (HwasanCtorFunction : option string)
        (SSI : bool) (AllocasToInstrument : Function -> list Z)
        (instrumentStack : list Z -> list Item -> list Item)
        (F : Function) :
  let S := initializeModule Fl T CK R in
  checksSupported S ->
  wholeByteAccesses (Body F) ->
  InstrumentStack S = false \/ AllocasToInstrument F = [] ->
  exists F',
    sanitizeFunction Fl S HwasanCtorFunction SSI AllocasToInstrument
                     instrumentStack F = Some F'
    /\ FnName F' = FnName F
    /\ SanitizeHWAddress F' = SanitizeHWAddress F
    /\ NoUnwind F' = NoUnwind F
    /\ isDeclaration F' = isDeclaration F.
Proof.
  intros S Hsup Hbytes Hstack. unfold sanitizeFunction.
  destruct (match HwasanCtorFunction with
            | Some Ctor => String.eqb (FnName F) Ctor
            | None => false
            end); [exists F; repeat split |].
  destruct (negb (SanitizeHWAddress F)); [exists F; repeat split |].
  cbv zeta.
  assert (Hallocas : (if InstrumentStack S then AllocasToInstrument F else [])
                     = []).
  { destruct Hstack as [-> | ->]; [reflexivity |].
    destruct (InstrumentStack S); reflexivity. }
  rewrite Hallocas.
  assert (Hplain : prologueWithFrameRecord Fl S [] = false)
    by (unfold prologueWithFrameRecord; apply andb_false_r).
  rewrite Hplain.
  assert (Hpages : UsePageAliases S = false \/ InstrumentWithCalls S = true)
    by (destruct Hsup as [_ [Hcalls | [Hoff _]]]; auto).
  destruct (emitPrologue_plain Fl T CK R Hpages) as (Code & HCode & Hnull & Hassert).
  fold S in HCode, Hassert. rewrite HCode, Hnull, Hassert. cbn [orb].
  assert (HB2 : forall b,
             wholeByteAccesses
               (Ins (Prologue b) :: instrumentLandingPads S (Body F))).
  { intros b. constructor; [exact I |].
    apply instrumentLandingPads_whole_bytes. exact Hbytes. }
  destruct (OperandsToInstrument Fl S SSI (Body F)) as [| O Os];
    [destruct (IntrinToInstrument Fl S SSI (Body F)) as [| Insn Is] |].
  - eexists. split; [reflexivity |]. repeat split.
  - destruct (instrumentItems_supported Fl S SSI _ Hsup (HB2 false))
      as [B3 ->].
    eexists. split; [reflexivity |]. repeat split.
  - destruct (instrumentItems_supported Fl S SSI _ Hsup (HB2 false))
      as [B3 ->].
    eexists. split; [reflexivity |]. repeat split.
Qed.

(** The function of the earlier examples on AArch64 Linux, where the
    checks are outlined. *)
Lemma sanitizeFunction_supported_target_witness :
  exists F',
    sanitizeFunction defaultFlags
      (initializeModule defaultFlags linux_aarch64 false false)
      (Some kHwasanModuleCtorName) true (fun _ => []) (fun _ B => B)
      sanitizedFunction = Some F'
    /\ FnName F' = "checked"%string
    /\ SanitizeHWAddress F' = true
    /\ NoUnwind F' = false
    /\ isDeclaration F' = false.
Proof.
  refine (sanitizeFunction_supported_target
            defaultFlags linux_aarch64 false false
            (Some kHwasanModuleCtorName) true (fun _ => [])
            (fun _ B => B) sanitizedFunction _ _ _).
  - split; [reflexivity |]. right. split; [reflexivity |]. left. reflexivity.
  - repeat constructor.
  - right. reflexivity.
Defined.

(** Where it stops: the by-value argument of a call on another
    architecture; inline checks together with page aliases; and, with the
    default flags on Android for RISC-V 64, any function with an
    instrumented allocation, whose frame record has no thread slot. *)
Example sanitizeFunction_unsupported_target :
  let byval :=
    mkFunction "byval" true false false None
      [Orig (mkInst Call
               [mkMemRef (mkPointerFacts 1 0 false false) 64 false 8 true]
               false false)] in
  sanitizeFunction defaultFlags
    (initializeModule defaultFlags
       (mkTriple UnknownArch false false false true) false false)
    (Some kHwasanModuleCtorName) true (fun _ => []) (fun _ B => B) byval
  = None
  /\ sanitizeFunction pageAliasFlags
       (initializeModule pageAliasFlags linux_x86_64 false false)
       (Some kHwasanModuleCtorName) true (fun _ => []) (fun _ B => B)
       sanitizedFunction
     = None
  /\ sanitizeFunction defaultFlags
       (initializeModule defaultFlags
          (mkTriple riscv64 false true false true) false false)
       (Some kHwasanModuleCtorName) true (fun _ => [16]) (fun _ B => B)
       sanitizedFunction
     = None.
Proof. vm_compute. repeat split. Qed.

(** ** The prologue: frame records, the ring buffer and the shadow base *)

Lemma signed64_small (x : Z) : 0 <= x < 2 ^ 63 -> signed64 x = x.
Proof.
  intros Hx. unfold signed64, wrap64, wrap.
  rewrite Z.mod_small by lia.
  destruct (Z.ltb_spec x (2 ^ 63)); lia.
Qed.

Lemma ashr64_small (x n : Z) :
  0 <= x < 2 ^ 63 -> 0 <= n -> ashr64 x n = x / 2 ^ n.
Proof.
  intros Hx Hn. unfold ashr64. rewrite signed64_small by exact Hx.
  rewrite Z.shiftr_div_pow2 by exact Hn.
  unfold wrap64, wrap. apply Z.mod_small.
  assert (0 < 2 ^ n) by (apply Z.pow_pos_nonneg; lia).
  split; [apply Z.div_pos; lia |].
  apply Z.le_lt_trans with x; [| lia].
  apply Z.div_le_upper_bound; nia.
Qed.

(** X14: with a program counter of at most 48 bits and a stack pointer
    aligned to 16 bytes, the frame record holds the program counter in
    its low 48 bits and bits 4 to 19 of the stack pointer in its high 16
    bits. *)
Theorem getFrameRecordInfo_fields (PC SP : Z) :
  0 <= PC < 2 ^ 48 -> 0 <= SP -> SP mod 16 = 0 ->
  getFrameRecordInfo PC SP = PC + (SP / 16) mod 2 ^ 16 * 2 ^ 48.
Proof.
  intros HPC HSP Halign. unfold getFrameRecordInfo.
  assert (Hshift : shl64 SP 44 = Z.shiftl ((SP / 16) mod 2 ^ 16) 48).
  { unfold shl64, wrap64, wrap. rewrite !Z.shiftl_mul_pow2 by lia.
    assert (HSPeq : SP = 16 * (SP / 16))
      by (pose proof (Z.div_mod SP 16 ltac:(lia)); lia).
    rewrite HSPeq at 1.
    replace (16 * (SP / 16) * 2 ^ 44) with (SP / 16 * 2 ^ 48) by lia.
    change (2 ^ 64) with (2 ^ 16 * 2 ^ 48).
    rewrite Z.mul_mod_distr_r by lia. reflexivity. }
  rewrite Hshift. apply lor_shiftl_add; lia.
Qed.

Lemma getFrameRecordInfo_fields_witness :
  getFrameRecordInfo 0x7f12345678 0x7ffdeadbeef0
  = 0x7f12345678 + 0xbeef * 2 ^ 48.
Proof.
  refine (getFrameRecordInfo_fields 0x7f12345678 0x7ffdeadbeef0 _ _ _);
    [lia | lia | reflexivity].
Defined.

Ltac eval_pows :=
  repeat match goal with
         | |- context [2 ^ (?a + ?b)] =>
             let v := eval vm_compute in (2 ^ (a + b)) in
             change (2 ^ (a + b)) with v
         | H : context [2 ^ (?a + ?b)] |- _ =>
             let v := eval vm_compute in (2 ^ (a + b)) in
             change (2 ^ (a + b)) with v in H
         | |- context [2 ^ ?a] =>
             let v := eval vm_compute in (2 ^ a) in
             progress change (2 ^ a) with v
         | H : context [2 ^ ?a] |- _ =>
             let v := eval vm_compute in (2 ^ a) in
             progress change (2 ^ a) with v in H
         end.

Lemma clear_bit (x m : Z) :
  0 <= m < 64 -> 0 <= x < 2 ^ 64 ->
  Z.land x (Z.lxor (2 ^ m) (2 ^ 64 - 1)) = x - 2 ^ m * ((x / 2 ^ m) mod 2).
Proof.
  intros Hm Hx.
  assert (Hldiff : Z.land x (Z.lxor (2 ^ m) (2 ^ 64 - 1)) = Z.ldiff x (2 ^ m)).
  { apply Z.bits_inj'. intros i Hi.
    rewrite Z.land_spec, Z.lxor_spec, Z.ldiff_spec.
    change (2 ^ 64 - 1) with (Z.ones 64).
    destruct (Z.ltb_spec i 64).
    - rewrite Z.ones_spec_low by lia. rewrite xorb_true_r. reflexivity.
    - rewrite (testbit_below x 64 i Hx) by lia. reflexivity. }
  rewrite Hldiff.
  destruct (Z.testbit x m) eqn:Hbit.
  - rewrite (proj1 (Z.testbit_true x m ltac:(lia)) Hbit).
    rewrite Z.mul_1_r. symmetry. apply Z.sub_nocarry_ldiff.
    apply Z.bits_inj'. intros i Hi.
    rewrite Z.ldiff_spec, Z.bits_0, Z.pow2_bits_eqb by lia.
    destruct (Z.eqb_spec m i) as [<- | Hne]; [| reflexivity].
    rewrite Hbit. reflexivity.
  - rewrite (proj1 (Z.testbit_false x m ltac:(lia)) Hbit).
    rewrite Z.mul_0_r, Z.sub_0_r.
    apply Z.bits_inj'. intros i Hi.
    rewrite Z.ldiff_spec, Z.pow2_bits_eqb by lia.
    destruct (Z.eqb_spec m i) as [<- | Hne].
    + rewrite Hbit. reflexivity.
    + apply andb_true_r.
Qed.

(** X15: the ring buffer of frame records.  With a buffer of [2 ^ j]
    pages whose start [Base] is aligned to twice its size, the size in
    the top byte of the thread word and the cursor at the 8-byte slot
    [Off] of the buffer, the inline frame record moves the cursor to the
    next slot, back to the start of the buffer after the last one, and
    keeps the size byte. *)
Theorem ThreadLongNew_ring (j Base Off : Z) :
  0 <= j <= 6 ->
  0 <= Base < 2 ^ 56 -> Base mod 2 ^ (13 + j) = 0 ->
  0 <= Off < 2 ^ (12 + j) -> Off mod 8 = 0 ->
  ThreadLongNew (2 ^ (56 + j) + Base + Off)
  = Some (2 ^ (56 + j) + Base + (Off + 8) mod 2 ^ (12 + j)).
Proof.
  intros Hj HBase Halign HOff Hslot.
  assert (Hcases : j = 0 \/ j = 1 \/ j = 2 \/ j = 3 \/ j = 4 \/ j = 5 \/ j = 6)
    by lia.
  unfold ThreadLongNew, WrapMask.
  set (ThreadLong := 2 ^ (56 + j) + Base + Off).
  assert (Hsize : ThreadLong / 2 ^ 56 = 2 ^ j).
  { subst ThreadLong.
    destruct Hcases as [-> | [-> | [-> | [-> | [-> | [-> | ->]]]]]];
      eval_pows; Z.div_mod_to_equations; lia. }
  assert (Hrange : 0 <= ThreadLong < 2 ^ 63).
  { subst ThreadLong.
    destruct Hcases as [-> | [-> | [-> | [-> | [-> | [-> | ->]]]]]];
      eval_pows; lia. }
  rewrite (ashr64_small ThreadLong 56 Hrange) by lia. rewrite Hsize.
  assert (Hshl : shl64_nuw_nsw (2 ^ j) 12 = Some (2 ^ (12 + j))).
  { destruct Hcases as [-> | [-> | [-> | [-> | [-> | [-> | ->]]]]]];
      reflexivity. }
  rewrite Hshl. f_equal.
  assert (Hadd : add64 ThreadLong 8 = ThreadLong + 8)
    by (unfold add64, wrap64, wrap; apply Z.mod_small; lia).
  rewrite Hadd, clear_bit by lia.
  subst ThreadLong.
  destruct Hcases as [-> | [-> | [-> | [-> | [-> | [-> | ->]]]]]];
    eval_pows; Z.div_mod_to_equations; lia.
Qed.

(** The last slot of a one-page buffer at 0x7000002000: the cursor goes
    back to the start. *)
Lemma ThreadLongNew_ring_witness :
  ThreadLongNew (2 ^ 56 + 0x7000002000 + 4088)
  = Some (2 ^ 56 + 0x7000002000).
Proof.
  refine (ThreadLongNew_ring 0 0x7000002000 4088 _ _ _ _ _);
    [lia | lia | reflexivity | lia | reflexivity].
Defined.

(** X16: a thread word with its highest bit set makes the wrap mask, and
    with it the new cursor, a poison value: the shift of the size byte is
    emitted with the no-unsigned-wrap flag, and the size byte, read with
    an arithmetic shift, then has all its upper bits set. *)
Theorem ThreadLongNew_top_bit (ThreadLong : Z) :
  2 ^ 63 <= ThreadLong < 2 ^ 64 ->
  WrapMask ThreadLong = None /\ ThreadLongNew ThreadLong = None.
Proof.
  intros Hrange.
  assert (Hmask : WrapMask ThreadLong = None).
  { unfold WrapMask, shl64_nuw_nsw.
    assert (Hsize : 2 ^ 64 - 128 <= ashr64 ThreadLong 56 < 2 ^ 64).
    { unfold ashr64, signed64, wrap64, wrap.
      rewrite (Z.mod_small ThreadLong) by lia.
      destruct (Z.ltb_spec ThreadLong (2 ^ 63)); [lia |].
      rewrite Z.shiftr_div_pow2 by lia.
      Z.div_mod_to_equations. lia. }
    assert (Hlost : (Z.shiftl (wrap64 (ashr64 ThreadLong 56)) 12 <? 2 ^ 64)
                    = false).
    { apply Z.ltb_ge. unfold wrap64, wrap.
      rewrite Z.mod_small by lia. rewrite Z.shiftl_mul_pow2 by lia. lia. }
    rewrite Hlost. reflexivity. }
  split; [exact Hmask |].
  unfold ThreadLongNew. rewrite Hmask. reflexivity.
Qed.

Lemma ThreadLongNew_top_bit_witness :
  WrapMask (2 ^ 63 + 2 ^ 56 + 0x7000002000) = None
  /\ ThreadLongNew (2 ^ 63 + 2 ^ 56 + 0x7000002000) = None.
Proof.
  refine (ThreadLongNew_top_bit (2 ^ 63 + 2 ^ 56 + 0x7000002000) _). lia.
Defined.

Lemma lor_low_ones (x n : Z) :
  0 <= n -> 0 <= x ->
  Z.lor x (2 ^ n - 1) = x / 2 ^ n * 2 ^ n + (2 ^ n - 1).
Proof.
  intros Hn Hx.
  assert (Hones : 2 ^ n - 1 = Z.ones n)
    by (rewrite Z.ones_equiv; lia).
  assert (Hsplit : Z.lor x (2 ^ n - 1)
                   = Z.lor (2 ^ n - 1) (Z.shiftl (x / 2 ^ n) n)).
  { rewrite Hones. apply Z.bits_inj'. intros i Hi.
    rewrite !Z.lor_spec.
    destruct (Z.ltb_spec i n).
    - rewrite Z.ones_spec_low by lia.
      rewrite orb_true_r. reflexivity.
    - rewrite Z.ones_spec_high by lia.
      rewrite Z.shiftl_spec by lia.
      rewrite <- Z.shiftr_div_pow2 by lia.
      rewrite Z.shiftr_spec by lia.
      replace (i - n + n) with i by lia.
      rewrite orb_false_r. reflexivity. }
  rewrite Hsplit, lor_shiftl_add; [lia | lia |].
  assert (0 < 2 ^ n) by (apply Z.pow_pos_nonneg; lia). lia.
Qed.

(** X17: the shadow base computed from the thread slot is the first
    multiple of [2 ^ 32] above the thread word (after untagging, where
    the target asks for it): it is aligned, lies above the word and at
    most [2 ^ 32] above it; for a word that is already aligned it is the
    word plus [2 ^ 32], not the word itself. *)
Theorem shadowAboveThreadLong_aligned (S : Settings) (ThreadLong : Z) :
  let X := ThreadLongMaybeUntagged S ThreadLong in
  0 <= X < 2 ^ 64 - 2 ^ 32 ->
  shadowAboveThreadLong S ThreadLong = (X / 2 ^ 32 + 1) * 2 ^ 32
  /\ shadowAboveThreadLong S ThreadLong mod 2 ^ 32 = 0
  /\ X < shadowAboveThreadLong S ThreadLong <= X + 2 ^ 32
  /\ (X mod 2 ^ 32 = 0 -> shadowAboveThreadLong S ThreadLong = X + 2 ^ 32).
Proof.
  intros X HX.
  assert (Hvalue : shadowAboveThreadLong S ThreadLong
                   = (X / 2 ^ 32 + 1) * 2 ^ 32).
  { unfold shadowAboveThreadLong. fold X.
    change (wrap64 (Z.shiftl 1 kShadowBaseAlignment) - 1) with (2 ^ 32 - 1).
    rewrite lor_low_ones by lia.
    unfold add64, wrap64, wrap. rewrite Z.mod_small.
    - lia.
    - Z.div_mod_to_equations. lia. }
  rewrite Hvalue.
  split; [reflexivity |]. split; [apply Z.mod_mul; lia |].
  split; [Z.div_mod_to_equations; lia |].
  intros Haligned. Z.div_mod_to_equations. lia.
Qed.

(** On AArch64 the thread word is used as it is; here it is aligned. *)
Lemma shadowAboveThreadLong_aligned_witness :
  shadowAboveThreadLong
    (initializeModule defaultFlags linux_aarch64 false false)
    0x7f00000000
  = 0x7f00000000 + 2 ^ 32.
Proof.
  refine (proj2 (proj2 (proj2
            (shadowAboveThreadLong_aligned
               (initializeModule defaultFlags linux_aarch64 false false)
               0x7f00000000 _))) _).
  - vm_compute. split; [intros H; discriminate H | reflexivity].
  - reflexivity.
Defined.

(** X18: the prologue [sanitizeFunction] asks for.  It never reaches the
    unreachable mode [none]; it records the frame exactly when asked to;
    the shadow base comes from the thread slot exactly when the mapping
    is in TLS and a frame record is written or the target is not Android,
    and then the thread word is loaded; and the load goes through a null
    slot pointer exactly when a frame record is written, inline or with
    the mapping in TLS, on an Android target that is not AArch64. *)
Theorem emitPrologue_thread_slot (Fl : Flags) (S : Settings)
        (Allocas : list Z) :
  let WithRecord := prologueWithFrameRecord Fl S Allocas in
  exists Code,
    emitPrologue Fl S WithRecord = Some Code
    /\ (Recording Code = NoFrameRecord <-> WithRecord = false)
    /\ (PrologueShadowBase Code = ShadowAboveThreadLong
        <-> InTls (Mapping S) = true
            /\ (WithRecord = true \/ isAndroid (TargetTriple S) = false))
    /\ (PrologueShadowBase Code = ShadowAboveThreadLong ->
        ThreadLongLoad Code <> None)
    /\ (ThreadLongLoad Code = Some None
        <-> isAndroid (TargetTriple S) = true
            /\ isAArch64 (TargetTriple S) = false
            /\ WithRecord = true
            /\ (getValue (ClRecordStackHistory Fl) = instr
                \/ InTls (Mapping S) = true)).
Proof.
  unfold prologueWithFrameRecord, emitPrologue, getHwasanThreadSlotPtr,
    ThreadPtrGlobal, getShadowNonTls.
  destruct (getValue (ClRecordStackHistory Fl)),
    (WithFrameRecord (Mapping S)), Allocas as [| A As],
    (InTls (Mapping S)), (isAndroid (TargetTriple S)),
    (isAArch64 (TargetTriple S)),
    (Offset (Mapping S) =? kDynamicShadowSentinel),
    (InGlobal (Mapping S));
    cbn; eexists; (split; [reflexivity |]); cbn;
    repeat split; intros;
    repeat match goal with
           | H : _ /\ _ |- _ => destruct H
           | H : _ \/ _ |- _ => destruct H
           end;
    try discriminate; try congruence; auto.
Qed.

(** ** A tagged allocation under the inline check *)

(** What [tagAlloca] leaves in the shadow and in the last granule when it
    writes short granules itself. *)
Lemma tagAlloca_short_writes
      (tag_memory : Z -> Z -> AllocaMemory -> AllocaMemory)
      (S : Settings) (Tag Size : Z) (m : AllocaMemory) :
  Scale (Mapping S) = 4 ->
  InstrumentWithCalls S = false -> UseShortGranules S = true ->
  0 <= Size <= 2 ^ 31 ->
  let m' := runTagStores tag_memory m (tagAlloca S Tag Size) in
  (forall i, 0 <= i < Size / 16 -> shadowAt m' i = Tag mod 256)
  /\ (Size mod 16 <> 0 ->
      shadowAt m' (Size / 16) = Size mod 16
      /\ objectAt m' ((Size + 15) / 16 * 16 - 1) = Tag mod 256).
Proof.
  intros HScale HCalls HShort HSize m'. subst m'.
  rewrite (tagAlloca_inline S Tag Size HScale HCalls HSize), HShort.
  pose proof (Z.div_mod Size 16 ltac:(lia)) as Hdm.
  pose proof (Z.mod_pos_bound Size 16 ltac:(lia)) as Hr.
  assert (Hq : 0 <= Size / 16) by (apply Z.div_pos; lia).
  destruct (Z.eqb_spec (Size mod 16) 0) as [H0 | Hn0].
  - assert (HA : (Size + 15) / 16 * 16 = Size)
      by (Z.div_mod_to_equations; lia).
    rewrite HA, Z.eqb_refl, app_nil_r.
    split; [| intros Hne; contradiction].
    intros i Hi.
    destruct (Z.eqb_spec (Size / 16) 0) as [Hq0 | Hqn0]; [lia |].
    cbn. unfold fill.
    destruct (Z.leb_spec 0 i), (Z.ltb_spec i (Size / 16)); try lia.
    reflexivity.
  - assert (HA : (Size + 15) / 16 * 16 = 16 * (Size / 16) + 16)
      by (Z.div_mod_to_equations; lia).
    assert (HAS : (Size =? (Size + 15) / 16 * 16) = false)
      by (apply Z.eqb_neq; lia).
    rewrite HAS.
    assert (Hidx : signed32 (wrap32 (Size / 16)) = Size / 16)
      by (apply signed32_small; lia).
    assert (Hoff : signed32 (wrap32 ((Size + 15) / 16 * 16 - 1))
                   = (Size + 15) / 16 * 16 - 1)
      by (apply signed32_small; lia).
    destruct (Z.eqb_spec (Size / 16) 0) as [Hq0 | Hqn0]; cbn;
      rewrite Hidx, Hoff; unfold poke, fill.
    + split; [intros i Hi; lia |]. intros _.
      rewrite !Z.eqb_refl. split; reflexivity.
    + split.
      * intros i Hi.
        destruct (Z.eqb_spec i (Size / 16)); [lia |].
        destruct (Z.leb_spec 0 i), (Z.ltb_spec i (Size / 16)); try lia.
        reflexivity.
      * intros _. rewrite !Z.eqb_refl. split; reflexivity.
Qed.

Lemma untag_sum (s w A t : Z) :
  0 <= s -> 0 <= w -> s + w <= 64 -> 0 <= A < 2 ^ s -> 0 <= t < 2 ^ w ->
  Z.land (A + t * 2 ^ s) (not64 (Z.shiftl (Z.ones w) s)) = A.
Proof.
  intros Hs Hw Hfit HA Ht.
  rewrite <- lor_shiftl_add by lia.
  apply Z.bits_inj'. intros i Hi.
  rewrite Z.land_spec, Z.lor_spec.
  rewrite (testbit_not64_field s w) by first [lia | assumption].
  destruct (Z.ltb_spec i s).
  - rewrite Z.shiftl_spec_low by lia.
    destruct (Z.ltb_spec i 64), (Z.leb_spec s i); try lia.
    cbn. rewrite orb_false_r, andb_true_r. reflexivity.
  - rewrite (testbit_below A s i HA) by lia.
    rewrite Z.shiftl_spec by lia. cbn [orb].
    destruct (Z.ltb_spec i (s + w)).
    + destruct (Z.leb_spec s i); [| lia]. cbn.
      rewrite andb_false_r. apply andb_false_r.
    + rewrite (testbit_below t w (i - s) Ht) by lia. reflexivity.
Qed.

(** A pointer into a tagged allocation, as the program computes it from
    the replacement of the alloca, in user mode: its tag byte and its
    address. *)
Lemma user_pointer_parts (S : Settings) (A Tag o : Z) :
  CompileKernel S = false ->
  (PointerTagShift S = 56 /\ TagMaskByte S = 255)
  \/ (PointerTagShift S = 57 /\ TagMaskByte S = 63 /\ Tag <= 63) ->
  0 <= Tag -> 0 <= A -> 0 <= o -> A + o < 2 ^ PointerTagShift S ->
  let P := add64 (tagPointer S A Tag) o in
  P = A + o + Tag mod 256 * 2 ^ PointerTagShift S
  /\ checkedPointerTag S P = Tag mod 256
  /\ untagPointer S P = A + o.
Proof.
  intros HK Hfield HTag HA Ho Hfits P.
  pose proof (Z.mod_pos_bound Tag 256 ltac:(lia)) as Hbyte.
  assert (HP : P = A + o + Tag mod 256 * 2 ^ PointerTagShift S).
  { subst P. unfold tagPointer. rewrite HK.
    destruct Hfield as [[Hsh _] | (Hsh & _ & Hsmall)]; rewrite Hsh in *.
    - assert (Hshl : shl64 Tag 56 = Z.shiftl (Tag mod 256) 56).
      { unfold shl64, wrap64, wrap. rewrite !Z.shiftl_mul_pow2 by lia.
        change (2 ^ 64) with (2 ^ 8 * 2 ^ 56).
        rewrite Z.mul_mod_distr_r by lia. reflexivity. }
      rewrite Hshl, lor_shiftl_add by lia.
      unfold add64, wrap64, wrap. rewrite Z.mod_small; lia.
    - rewrite (Z.mod_small Tag 256) by lia.
      assert (Hshl : shl64 Tag 57 = Z.shiftl Tag 57).
      { unfold shl64, wrap64, wrap. rewrite !Z.shiftl_mul_pow2 by lia.
        apply Z.mod_small. lia. }
      rewrite Hshl, lor_shiftl_add by lia.
      unfold add64, wrap64, wrap. rewrite Z.mod_small; lia. }
  split; [exact HP |]. rewrite HP. split.
  - unfold checkedPointerTag, trunc8, wrap8, wrap, lshr64.
    rewrite Z.shiftr_div_pow2
      by (destruct Hfield as [[-> _] | (-> & _)]; lia).
    assert (0 < 2 ^ PointerTagShift S)
      by (destruct Hfield as [[-> _] | (-> & _)]; lia).
    rewrite Z.div_add by lia. rewrite Z.div_small by lia.
    cbn [Z.add]. change (2 ^ 8) with 256. apply Z.mod_mod. lia.
  - unfold untagPointer, tagFieldMask. rewrite HK.
    destruct Hfield as [[Hsh Hmask] | (Hsh & Hmask & Hsmall)];
      rewrite Hsh, Hmask in *.
    + change (wrap64 (Z.shiftl 255 56)) with (Z.shiftl (Z.ones 8) 56).
      apply untag_sum; lia.
    + change (wrap64 (Z.shiftl 63 57)) with (Z.shiftl (Z.ones 6) 57).
      rewrite (Z.mod_small Tag 256) by lia.
      apply untag_sum; lia.
Qed.

(** X19: tagging and checking fit together.  An allocation of [Size]
    bytes at the 16-byte aligned address [AI] is tagged by [tagAlloca]
    with short granules, and the program reaches into it through the
    tagged replacement of the alloca plus an offset [o], in user mode.  Read against
    the memory [tagAlloca] wrote, the inline check lets every access pass
    that ends within the allocation, without trapping; an access that
    starts in the last, short granule and ends beyond the allocation
    traps, unless the tag happens to equal the granule's size byte or the
    match-all tag. *)
Theorem tagged_alloca_checked
        (tag_memory : Z -> Z -> AllocaMemory -> AllocaMemory)
        (Fl : Flags) (T : Triple) (CK R : bool)
        (Tag Size AI Base o AccessSizeIndex : Z)
        (m : AllocaMemory) (load : Z -> Z) :
  let S := initializeModule Fl T CK R in
  let m' := runTagStores tag_memory m (tagAlloca S Tag Size) in
  let AlignedSize := (Size + 15) / 16 * 16 in
  let ShadowPtr := memToShadow S Base AI in
  let E := mkCheckInput (add64 (tagPointer S AI Tag) o) Base load in
  CompileKernel S = false ->
  InstrumentWithCalls S = false -> UseShortGranules S = true ->
  hasTrapSequence (getArch T) = true ->
  0 <= Size <= 2 ^ 31 ->
  0 <= Tag -> (isX86_64 T = true -> Tag <= TagMaskByte S) ->
  0 <= AI -> AI mod 16 = 0 -> AI + AlignedSize <= 2 ^ PointerTagShift S ->
  ShadowPtr + AlignedSize / 16 <= 2 ^ 64 ->
  (forall i, 0 <= i < AlignedSize / 16 ->
             load (ShadowPtr + i) = shadowAt m' i) ->
  (forall i, 0 <= i < AlignedSize -> load (AI + i) = objectAt m' i) ->
  0 <= AccessSizeIndex < kNumberOfAccessSizes -> 0 <= o ->
  (o + 2 ^ AccessSizeIndex <= Size ->
   inlineCheck S AccessSizeIndex E = Some (ReachesAccess false))
  /\ (Size / 16 * 16 <= o < AlignedSize ->
      Size < o + 2 ^ AccessSizeIndex ->
      Tag mod 256 <> Size mod 16 ->
      (forall t, MatchAllTag S = Some t -> Tag mod 256 <> t) ->
      inlineCheck S AccessSizeIndex E
      = Some (if Recover S then ReachesAccess true else Aborts)).
Proof.
  intros S m' AlignedSize ShadowPtr E HK HCalls HShort Harch HSize HTag Hx86
         HAI Halign Hfits Hshadowfits Hshadow Hobject Hidx Ho.
  destruct (settings_granule Fl T CK R) as [HScale _]. fold S in HScale.
  assert (Hfield : (PointerTagShift S = 56 /\ TagMaskByte S = 255)
                   \/ (PointerTagShift S = 57 /\ TagMaskByte S = 63
                       /\ Tag <= 63)).
  { destruct (isX86_64 T) eqn:HT.
    - right. specialize (Hx86 eq_refl). subst S. cbn in *.
      rewrite HT in *. cbn in *. repeat split; [reflexivity .. | lia].
    - left. subst S. cbn. rewrite HT. split; reflexivity. }
  assert (Hsize : 1 <= 2 ^ AccessSizeIndex <= 16).
  { unfold kNumberOfAccessSizes in Hidx.
    assert (AccessSizeIndex = 0 \/ AccessSizeIndex = 1 \/ AccessSizeIndex = 2
            \/ AccessSizeIndex = 3 \/ AccessSizeIndex = 4) as Hc by lia.
    destruct Hc as [-> | [-> | [-> | [-> | ->]]]]; cbn; lia. }
  pose proof (Z.div_mod Size 16 ltac:(lia)) as HdmS.
  pose proof (Z.mod_pos_bound Size 16 ltac:(lia)) as HrS.
  pose proof (Z.div_mod o 16 ltac:(lia)) as Hdmo.
  pose proof (Z.mod_pos_bound o 16 ltac:(lia)) as Hro.
  pose proof (Z.mod_pos_bound Tag 256 ltac:(lia)) as Hbyte.
  assert (HA : AlignedSize = 16 * (Size / 16)
                             + (if Size mod 16 =? 0 then 0 else 16)).
  { unfold AlignedSize.
    destruct (Z.eqb_spec (Size mod 16) 0); Z.div_mod_to_equations; lia. }
  assert (HAq : AlignedSize / 16 = Size / 16
                                   + (if Size mod 16 =? 0 then 0 else 1)).
  { unfold AlignedSize. rewrite Z.div_mul by lia.
    destruct (Z.eqb_spec (Size mod 16) 0); Z.div_mod_to_equations; lia. }
  assert (HAle : Size <= AlignedSize)
    by (destruct (Z.eqb_spec (Size mod 16) 0); lia).
  destruct (tagAlloca_short_writes tag_memory S Tag Size m
              HScale HCalls HShort HSize) as [Hfull Hlast].
  fold m' in Hfull, Hlast. fold AlignedSize in Hlast.
  (* the values the check computes, for an offset inside the allocation *)
  assert (Hparts : o < AlignedSize ->
            checkedPointerTag S (PtrLong E) = Tag mod 256
            /\ untagPointer S (PtrLong E) = AI + o
            /\ Z.land (PtrLong E) 15 = o mod 16
            /\ load8 E (memToShadow S (ShadowBase E)
                                    (untagPointer S (PtrLong E)))
               = shadowAt m' (o / 16)
            /\ load8 E (Z.lor (untagPointer S (PtrLong E)) 15)
               = objectAt m' (16 * (o / 16) + 15)).
  { intros Hin.
    assert (Hshift : 56 <= PointerTagShift S <= 57)
      by (destruct Hfield as [[H _] | (H & _)]; rewrite H; lia).
    assert (Hpow : 0 < 2 ^ PointerTagShift S)
      by (apply Z.pow_pos_nonneg; lia).
    destruct (user_pointer_parts S AI Tag o HK Hfield HTag HAI Ho
                                 ltac:(lia)) as (HP & HPtrTag & HAddr).
    change (PtrLong E) with (add64 (tagPointer S AI Tag) o).
    change (ShadowBase E) with Base. change (load8 E) with load.
    rewrite HAddr. split; [exact HPtrTag |]. split; [reflexivity |].
    split; [| split].
    - rewrite HP. change 15 with (Z.ones 4). rewrite Z.land_ones by lia.
      change (2 ^ 4) with 16.
      assert (Hmult : Tag mod 256 * 2 ^ PointerTagShift S
                      = Tag mod 256 * 2 ^ (PointerTagShift S - 4) * 16).
      { rewrite <- Z.mul_assoc. f_equal. change 16 with (2 ^ 4).
        rewrite <- Z.pow_add_r by lia.
        f_equal. lia. }
      rewrite Hmult, Z.mod_add by lia.
      Z.div_mod_to_equations. lia.
    - assert (Hgranule : memToShadow S Base (AI + o) = ShadowPtr + o / 16).
      { unfold ShadowPtr, memToShadow in *. unfold lshr64 in *.
        rewrite HScale in *. rewrite !Z.shiftr_div_pow2 in * by lia.
        change (2 ^ 4) with 16 in *.
        assert (Hq : (AI + o) / 16 = AI / 16 + o / 16)
          by (Z.div_mod_to_equations; lia).
        rewrite Hq.
        destruct (Offset (Mapping S) =? 0); [reflexivity |].
        unfold add64, wrap64, wrap in *.
        rewrite Z.add_assoc, <- Z.add_mod_idemp_l by lia.
        apply Z.mod_small.
        pose proof (Z.mod_pos_bound (Base + AI / 16) (2 ^ 64) ltac:(lia)).
        assert (0 <= o / 16 < AlignedSize / 16)
          by (Z.div_mod_to_equations; lia).
        lia. }
      rewrite Hgranule. apply Hshadow. Z.div_mod_to_equations. lia.
    - assert (Hlor : Z.lor (AI + o) 15 = AI + (16 * (o / 16) + 15)).
      { change 15 with (2 ^ 4 - 1) at 1. rewrite lor_low_ones by lia.
        change (2 ^ 4) with 16. Z.div_mod_to_equations. lia. }
      rewrite Hlor. apply Hobject. Z.div_mod_to_equations. lia. }
  assert (HarchS : hasTrapSequence (getArch (TargetTriple S)) = true)
    by exact Harch.
  rewrite (inlineCheck_total S AccessSizeIndex E HarchS Hidx).
  split.
  - (* within the allocation *)
    intros Hin. f_equal.
    destruct (Hparts ltac:(lia)) as (-> & -> & -> & -> & ->).
    destruct (Z.ltb_spec (o / 16) (Size / 16)) as [Hwhole | Hshort].
    + rewrite (Hfull (o / 16)) by (Z.div_mod_to_equations; lia).
      rewrite Z.eqb_refl. reflexivity.
    + assert (Hq : o / 16 = Size / 16) by (Z.div_mod_to_equations; lia).
      assert (Hrem : Size mod 16 <> 0) by lia.
      destruct (Hlast Hrem) as [Hsz Hobj].
      rewrite Hq, Hsz.
      replace (16 * (Size / 16) + 15) with (AlignedSize - 1)
        by (destruct (Z.eqb_spec (Size mod 16) 0); lia).
      rewrite Hobj, Z.eqb_refl.
      destruct (Z.ltb_spec 15 (Size mod 16)); [lia |].
      destruct (Z.leb_spec (Size mod 16)
                           (o mod 16 + (2 ^ AccessSizeIndex - 1))); [lia |].
      cbn. rewrite andb_false_r. reflexivity.
  - (* beyond the end, from the short granule *)
    intros Hlastgranule Hbeyond Hsizebyte Hmatchall. f_equal.
    destruct (Hparts ltac:(lia)) as (-> & -> & -> & -> & _).
    assert (Hrem : Size mod 16 <> 0)
      by (destruct (Z.eqb_spec (Size mod 16) 0); lia).
    assert (Hq : o / 16 = Size / 16)
      by (destruct (Z.eqb_spec (Size mod 16) 0);
          Z.div_mod_to_equations; lia).
    destruct (Hlast Hrem) as [Hsz _].
    rewrite Hq, Hsz.
    destruct (Z.eqb_spec (Tag mod 256) (Size mod 16)); [contradiction |].
    destruct (Z.leb_spec (Size mod 16)
                         (o mod 16 + (2 ^ AccessSizeIndex - 1))); [| lia].
    rewrite orb_true_r. cbn [negb andb orb].
    destruct (MatchAllTag S) as [t |] eqn:Hm; [| reflexivity].
    destruct (Z.eqb_spec (Tag mod 256) t) as [Heq | Hne];
      [exfalso; exact (Hmatchall t eq_refl Heq) | reflexivity].
Qed.

(** Twenty bytes at 0x7000 on AArch64, tag 0xAB, shadow from 0x100000:
    four bytes at offset 16 are let through, four bytes at offset 17
    trap. *)
Lemma tagged_alloca_checked_witness :
  let S := initializeModule defaultFlags linux_aarch64 false false in
  let m' := runTagStores noRuntime zeroMemory (tagAlloca S 0xAB 20) in
  let load := allocaBytes 0x7000 32 0x100700 m' in
  inlineCheck S 2 (mkCheckInput (add64 (tagPointer S 0x7000 0xAB) 16)
                                0x100000 load)
  = Some (ReachesAccess false)
  /\ inlineCheck S 2 (mkCheckInput (add64 (tagPointer S 0x7000 0xAB) 17)
                                   0x100000 load)
     = Some Aborts.
Proof.
  intros S m' load.
  assert (Hshadow : forall i, 0 <= i < 2 ->
                              load (0x100700 + i) = shadowAt m' i).
  { intros i Hi. unfold load, allocaBytes.
    destruct (Z.leb_spec 0x7000 (0x100700 + i)),
      (Z.ltb_spec (0x100700 + i) (0x7000 + 32)); try lia.
    cbn [andb]. f_equal. lia. }
  assert (Hobject : forall i, 0 <= i < 32 ->
                              load (0x7000 + i) = objectAt m' i).
  { intros i Hi. unfold load, allocaBytes.
    destruct (Z.leb_spec 0x7000 (0x7000 + i)),
      (Z.ltb_spec (0x7000 + i) (0x7000 + 32)); try lia.
    cbn [andb]. f_equal. lia. }
  split.
  - refine (proj1 (tagged_alloca_checked
                     noRuntime defaultFlags linux_aarch64 false false
                     0xAB 20 0x7000 0x100000 16 2 zeroMemory load
                     _ _ _ _ _ _ _ _ _ _ _ _ _ _ _) _);
      try exact Hshadow; try exact Hobject;
      try reflexivity; try (vm_compute; intuition discriminate); try lia.
  - refine (proj2 (tagged_alloca_checked
                     noRuntime defaultFlags linux_aarch64 false false
                     0xAB 20 0x7000 0x100000 17 2 zeroMemory load
                     _ _ _ _ _ _ _ _ _ _ _ _ _ _ _) _ _ _ _);
      try exact Hshadow; try exact Hobject;
      try reflexivity; try (vm_compute; intuition discriminate); try lia.
Defined.
